(** * AI Dev Mentor: the explanation cache, the NDJSON stream relay, the
      webview's Markdown renderer and the backend's request validation.

    Shallow embedding of [src/extension.ts] (the extension host and the
    script inlined in the webview panel) and of [backend/server.js].

    JavaScript strings are sequences of UTF-16 code units; they are modelled
    as [list N].  The decoding of the response bytes ([res.setEncoding])
    is Node's and happens before the code modelled here sees a chunk. *)

From Stdlib Require Import List NArith ZArith Bool Arith Lia String Ascii.
Import ListNotations.

Set Implicit Arguments.

(* ------------------------------------------------------------------ *)
(** * JavaScript strings *)
(* ------------------------------------------------------------------ *)

Module JS.

Definition char := N.
Definition jstring := list char.

(** An ASCII literal as a JavaScript string. *)
Definition lit (s : string) : jstring :=
  List.map N_of_ascii (list_ascii_of_string s).

Definition LF : char := 10%N.
Definition DQUOTE : char := 34%N.
Definition BACKTICK : char := 96%N.

Fixpoint str_eqb (a b : jstring) : bool :=
  match a, b with
  | [], [] => true
  | x :: a', y :: b' => N.eqb x y && str_eqb a' b'
  | _, _ => false
  end.

(** ECMAScript WhiteSpace and LineTerminator code points, the characters
    [String.prototype.trim] strips. *)
Definition is_space (c : char) : bool :=
  (N.eqb c 9 || N.eqb c 10 || N.eqb c 11 || N.eqb c 12 || N.eqb c 13
   || N.eqb c 32 || N.eqb c 160 || N.eqb c 5760
   || (N.leb 8192 c && N.leb c 8202)
   || N.eqb c 8232 || N.eqb c 8233 || N.eqb c 8239 || N.eqb c 8287
   || N.eqb c 12288 || N.eqb c 65279)%bool.

Section Trim.

Variable A : Type.
Variable sp : A -> bool.

Fixpoint trimStartBy (s : list A) : list A :=
  match s with
  | c :: s' => if sp c then trimStartBy s' else s
  | [] => []
  end.

Definition trimEndBy (s : list A) : list A := rev (trimStartBy (rev s)).

Definition trimBy (s : list A) : list A := trimEndBy (trimStartBy s).

End Trim.

(** [String.prototype.trim]. *)
Definition trim (s : jstring) : jstring := trimBy is_space s.

(** [s.split("\n")]: the segments between line feeds; never empty. *)
Fixpoint split_lines (s : jstring) : list jstring :=
  match s with
  | [] => [[]]
  | c :: s' =>
      if N.eqb c LF then [] :: split_lines s'
      else match split_lines s' with
           | l :: ls => (c :: l) :: ls
           | [] => [[c]]
           end
  end.

(** A string is falsy exactly when it is empty. *)
Definition str_truthy (s : jstring) : bool :=
  match s with [] => false | _ => true end.

End JS.

Import JS.

(* ------------------------------------------------------------------ *)
(** * JavaScript [Map] with string keys *)
(* ------------------------------------------------------------------ *)

Module JsMap.

Section WithValues.

Variable V : Type.

(** The entries of a [Map], oldest insertion first. *)
Definition t := list (jstring * V).

Definition size (m : t) : nat := List.length m.

Fixpoint has (k : jstring) (m : t) : bool :=
  match m with
  | [] => false
  | (k', _) :: r => str_eqb k k' || has k r
  end.

Fixpoint get (k : jstring) (m : t) : option V :=
  match m with
  | [] => None
  | (k', v) :: r => if str_eqb k k' then Some v else get k r
  end.

(** [Map.prototype.set]: an existing key keeps its place and takes the new
    value, a new key goes last. *)
Fixpoint set (k : jstring) (v : V) (m : t) : t :=
  match m with
  | [] => [(k, v)]
  | (k', v') :: r =>
      if str_eqb k k' then (k', v) :: r else (k', v') :: set k v r
  end.

(** [Map.prototype.delete]. *)
Fixpoint delete (k : jstring) (m : t) : t :=
  match m with
  | [] => []
  | (k', v') :: r =>
      if str_eqb k k' then r else (k', v') :: delete k r
  end.

(** [m.keys().next().value]: [None] stands for [undefined]. *)
Definition first_key (m : t) : option jstring :=
  match m with
  | [] => None
  | (k, _) :: _ => Some k
  end.

Definition keys (m : t) : list jstring := List.map fst m.

(** A [Map] holds a key once. *)
Definition wf (m : t) : Prop := NoDup (keys m).

End WithValues.

End JsMap.

(* ------------------------------------------------------------------ *)
(** * The explanation cache *)
(* ------------------------------------------------------------------ *)

Module Cache.

Section WithValues.

Variable V : Type.

(** [explanationCache]. *)
Definition cache := JsMap.t V.

(** Lines 131-135 of [handleExplain], for a capacity [cap]. *)
Definition put_cap (cap : nat) (k : jstring) (v : V) (m : cache) : cache :=
  let m1 := JsMap.set k v m in
  if cap <? JsMap.size m1 then
    match JsMap.first_key m1 with
    | Some first => JsMap.delete first m1
    | None => m1
    end
  else m1.

Definition MAX_CACHE : nat := 1000.

Definition put : jstring -> V -> cache -> cache := put_cap MAX_CACHE.

(** A sequence of puts, applied left to right. *)
Fixpoint puts (cap : nat) (s : list (jstring * V)) (m : cache) : cache :=
  match s with
  | [] => m
  | (k, v) :: r => puts cap r (put_cap cap k v m)
  end.

(** Every put of the sequence finds its key absent, which is what the
    [explanationCache.has(cacheKey)] guard of [handleExplain] arranges. *)
Fixpoint all_fresh (cap : nat) (s : list (jstring * V)) (m : cache) : Prop :=
  match s with
  | [] => True
  | (k, v) :: r => JsMap.has k m = false /\ all_fresh cap r (put_cap cap k v m)
  end.

(** The last [n] elements of a list. *)
Definition lastn (A : Type) (n : nat) (l : list A) : list A :=
  skipn (List.length l - n) l.

End WithValues.

End Cache.

(* ------------------------------------------------------------------ *)
(** * Numbers: the binary64 value of a JSON literal and its printing *)
(* ------------------------------------------------------------------ *)

(** [JSON.parse] turns a number literal into the nearest binary64 value and
    [String] prints the shortest decimal that reads back as that value.
    Both are computed here in exact integer arithmetic. *)

Module Double.

Local Open Scope Z_scope.

(** A binary64 value other than NaN.  [Finite neg mant exp] is
    [mant * 2^exp] with [2^52 <= mant < 2^53] and [-1074 <= exp <= 971], or
    [mant < 2^52] and [exp = -1074]; each value has one such form. *)
Inductive double :=
| Zero (neg : bool)
| Finite (neg : bool) (mant : Z) (exp : Z)
| Infinity (neg : bool).

(** [num/den >= 2^l] for positive [num], [den]. *)
Definition ge_pow2 (num den l : Z) : bool :=
  if 0 <=? l then den * 2 ^ l <=? num else den <=? num * 2 ^ (- l).

(** floor (log2 (num/den)) for positive [num], [den]. *)
Definition ilog2 (num den : Z) : Z :=
  let l := Z.log2 num - Z.log2 den in
  if ge_pow2 num den l then l else l - 1.

(** Nearest integer to [a/b], ties to the even one ([b > 0], [a >= 0]). *)
Definition div_half_even (a b : Z) : Z :=
  let q := a / b in
  let r := a mod b in
  match 2 * r ?= b with
  | Lt => q
  | Gt => q + 1
  | Eq => if Z.even q then q else q + 1
  end.

(** The binary64 value nearest to [num/den] (round to nearest, ties to
    even), for [num >= 0] and [den > 0]. *)
Definition round (neg : bool) (num den : Z) : double :=
  if num <=? 0 then Zero neg
  else
    let e := ilog2 num den in
    let p := Z.max (e - 52) (-1074) in
    let m := if 0 <=? p then div_half_even num (den * 2 ^ p)
             else div_half_even (num * 2 ^ (- p)) den in
    let '(m, p) := if m =? 2 ^ 53 then (2 ^ 52, p + 1) else (m, p) in
    if m =? 0 then Zero neg
    else if 971 <? p then Infinity neg
    else Finite neg m p.

(** The value [digits * 10^e10] of a decimal literal. *)
Definition of_decimal (neg : bool) (digits : Z) (e10 : Z) : double :=
  if 0 <=? e10 then round neg (digits * 10 ^ e10) 1
  else round neg digits (10 ^ (- e10)).

(** [10^t <= num/den]. *)
Definition ge_pow10 (num den t : Z) : bool :=
  if 0 <=? t then den * 10 ^ t <=? num else den <=? num * 10 ^ (- t).

(** floor (log10 (num/den)). *)
Definition ilog10 (num den : Z) : Z :=
  let est := (ilog2 num den * 30103) / 100000 in
  if ge_pow10 num den (est + 1) then est + 1
  else if ge_pow10 num den est then est
  else if ge_pow10 num den (est - 1) then est - 1
  else est - 2.

(** Does [s * 10^t] round to the double [mant * 2^exp]? *)
Definition reads_back (mant exp s t : Z) : bool :=
  match of_decimal false s t with
  | Finite _ m' e' => (m' =? mant) && (e' =? exp)
  | _ => false
  end.

(** The digits [s] and the decimal position [n] of Number::toString with
    exactly [k] digits, when such a representation of [num/den] exists:
    the candidates are the two multiples of [10^(n0-k)] around the value. *)
Definition digits_k (mant exp num den n0 k : Z) : option (Z * Z) :=
  let t := n0 - k in
  let lo := if 0 <=? t then num / (den * 10 ^ t) else (num * 10 ^ (- t)) / den in
  let hi := lo + 1 in
  let ok_lo := reads_back mant exp lo t in
  let ok_hi := reads_back mant exp hi t in
  (* twice the distance to each candidate, in units of 10^t / (2 den') *)
  let '(a, b) := if 0 <=? t then (num, den * 10 ^ t) else (num * 10 ^ (- t), den) in
  let d_lo := a - lo * b in
  let d_hi := hi * b - a in
  let pick_hi := if hi =? 10 ^ k then (10 ^ (k - 1), n0 + 1) else (hi, n0) in
  match ok_lo, ok_hi with
  | true, false => Some (lo, n0)
  | false, true => Some pick_hi
  | true, true =>
      match d_lo ?= d_hi with
      | Lt => Some (lo, n0)
      | Gt => Some pick_hi
      | Eq => if Z.even lo then Some (lo, n0) else Some pick_hi
      end
  | false, false => None
  end.

(** The least number of digits that reads back, searched from [k] upwards.
    Seventeen digits always read back as the binary64 value they were
    printed from, so the search started at one digit with fuel 17 ends with
    a representation. *)
Fixpoint shortest (mant exp num den n0 : Z) (k : Z) (fuel : nat) : Z * Z * Z :=
  match fuel with
  | O => (0, 0, k)
  | S fuel' =>
      match digits_k mant exp num den n0 k with
      | Some (s, n) => (s, n, k)
      | None => shortest mant exp num den n0 (k + 1) fuel'
      end
  end.

Definition digit_char (d : Z) : N := Z.to_N (48 + d).

(** The [k] decimal digits of [s], most significant first. *)
Fixpoint digits_of (s : Z) (k : nat) (acc : list N) : list N :=
  match k with
  | O => acc
  | S k' => digits_of (s / 10) k' (digit_char (s mod 10) :: acc)
  end.

(** Decimal digits of a non-negative integer, without leading zeros. *)
Fixpoint nat_digits (fuel : nat) (s : Z) (acc : list N) : list N :=
  match fuel with
  | O => acc
  | S f =>
      let acc' := digit_char (s mod 10) :: acc in
      if s / 10 =? 0 then acc' else nat_digits f (s / 10) acc'
  end.

Definition format (s n k : Z) : list N :=
  let ds := digits_of s (Z.to_nat k) [] in
  if (-5 <=? n) && (n <=? 21) then
    if k <=? n then ds ++ repeat 48%N (Z.to_nat (n - k))
    else if 0 <? n then firstn (Z.to_nat n) ds ++ [46%N] ++ skipn (Z.to_nat n) ds
    else [48%N; 46%N] ++ repeat 48%N (Z.to_nat (- n)) ++ ds
  else
    let e := n - 1 in
    let sign := if e <? 0 then 45%N else 43%N in
    let ex := nat_digits 20 (Z.abs e) [] in
    match ds with
    | [d] => [d; 101%N; sign] ++ ex
    | d :: r => [d; 46%N] ++ r ++ [101%N; sign] ++ ex
    | [] => []
    end.

(** Number::toString, radix 10. *)
Definition to_string (d : double) : list N :=
  match d with
  | Zero _ => [48%N]
  | Infinity neg =>
      (if neg then [45%N] else []) ++ [73;110;102;105;110;105;116;121]%N
  | Finite neg m e =>
      let '(num, den) := if 0 <=? e then (m * 2 ^ e, 1) else (m, 2 ^ (- e)) in
      let n0 := ilog10 num den + 1 in
      let '(s, n, k) := shortest m e num den n0 1 17 in
      (if neg then [45%N] else []) ++ format s n k
  end.

Definition is_zero (d : double) : bool :=
  match d with Zero _ => true | _ => false end.

End Double.

(* ------------------------------------------------------------------ *)
(** * JSON values and [JSON.parse] *)
(* ------------------------------------------------------------------ *)

Module Json.

#[warnings="-register-all"]
Inductive json :=
| JNull
| JBool (b : bool)
| JNumber (d : Double.double)
| JString (s : jstring)
| JArray (items : list json)
| JObject (fields : list (jstring * json)).

(** ** Tokens *)

Inductive token :=
| TLBrace | TRBrace | TLBracket | TRBracket | TColon | TComma
| TValue (v : json).

(** Where the scanner is inside a number literal. *)
Inductive num_state :=
| NMinus      (* after the sign: a digit must follow *)
| NZero       (* integer part is a single 0 *)
| NInt        (* inside the integer part *)
| NDot        (* after the point: a digit must follow *)
| NFrac       (* inside the fraction *)
| NExp        (* after e or E: a sign or a digit must follow *)
| NExpSign    (* after the exponent's sign: a digit must follow *)
| NExpDigits. (* inside the exponent *)

(** A number literal read so far: sign, all mantissa digits as one integer,
    how many of them stand after the point, and the exponent. *)
Record num_acc := {
  n_neg : bool;
  n_digits : Z;
  n_scale : Z;
  n_eneg : bool;
  n_exp : Z
}.

Inductive lex_state :=
| LStart
| LWord (expected : jstring) (v : json)
| LString (acc_rev : jstring)
| LEscape (acc_rev : jstring)
| LUnicode (acc_rev : jstring) (hex : list N)
| LNumber (st : num_state) (acc : num_acc).

Definition is_json_space (c : char) : bool :=
  (N.eqb c 9 || N.eqb c 10 || N.eqb c 13 || N.eqb c 32)%bool.

Definition is_digit (c : char) : bool := (N.leb 48 c && N.leb c 57)%bool.

Definition digit_value (c : char) : Z := Z.of_N c - 48.

Definition hex_value (c : char) : option N :=
  if is_digit c then Some (c - 48)%N
  else if (N.leb 97 c && N.leb c 102)%bool then Some (c - 87)%N
  else if (N.leb 65 c && N.leb c 70)%bool then Some (c - 55)%N
  else None.

Definition number_value (a : num_acc) : Double.double :=
  let e := (if n_eneg a then - n_exp a else n_exp a)%Z in
  Double.of_decimal (n_neg a) (n_digits a) (e - n_scale a)%Z.

Definition num_final (st : num_state) : bool :=
  match st with
  | NZero | NInt | NFrac | NExpDigits => true
  | _ => false
  end.

Definition push_digit (a : num_acc) (c : char) (frac : bool) : num_acc :=
  {| n_neg := n_neg a;
     n_digits := (n_digits a * 10 + digit_value c)%Z;
     n_scale := (if frac then n_scale a + 1 else n_scale a)%Z;
     n_eneg := n_eneg a;
     n_exp := n_exp a |}.

Definition push_exp (a : num_acc) (c : char) : num_acc :=
  {| n_neg := n_neg a; n_digits := n_digits a; n_scale := n_scale a;
     n_eneg := n_eneg a;
     n_exp := (n_exp a * 10 + digit_value c)%Z |}.

Definition set_eneg (a : num_acc) : num_acc :=
  {| n_neg := n_neg a; n_digits := n_digits a; n_scale := n_scale a;
     n_eneg := true; n_exp := n_exp a |}.

Definition num_start (neg : bool) : num_acc :=
  {| n_neg := neg; n_digits := 0; n_scale := 0; n_eneg := false; n_exp := 0 |}.

(** The next state of a number literal on [c], or [None] when [c] cannot
    continue the literal. *)
Definition num_step (st : num_state) (a : num_acc) (c : char)
  : option (num_state * num_acc) :=
  let is_e := (N.eqb c 101 || N.eqb c 69)%bool in
  match st with
  | NMinus =>
      if N.eqb c 48 then Some (NZero, a)
      else if is_digit c then Some (NInt, push_digit a c false)
      else None
  | NZero =>
      if N.eqb c 46 then Some (NDot, a)
      else if is_e then Some (NExp, a)
      else None
  | NInt =>
      if is_digit c then Some (NInt, push_digit a c false)
      else if N.eqb c 46 then Some (NDot, a)
      else if is_e then Some (NExp, a)
      else None
  | NDot =>
      if is_digit c then Some (NFrac, push_digit a c true) else None
  | NFrac =>
      if is_digit c then Some (NFrac, push_digit a c true)
      else if is_e then Some (NExp, a)
      else None
  | NExp =>
      if N.eqb c 43 then Some (NExpSign, a)
      else if N.eqb c 45 then Some (NExpSign, set_eneg a)
      else if is_digit c then Some (NExpDigits, push_exp a c)
      else None
  | NExpSign =>
      if is_digit c then Some (NExpDigits, push_exp a c) else None
  | NExpDigits =>
      if is_digit c then Some (NExpDigits, push_exp a c) else None
  end.

(** A character met between tokens. *)
Definition start_step (c : char) : option (lex_state * list token) :=
  if is_json_space c then Some (LStart, [])
  else if N.eqb c 123 then Some (LStart, [TLBrace])
  else if N.eqb c 125 then Some (LStart, [TRBrace])
  else if N.eqb c 91 then Some (LStart, [TLBracket])
  else if N.eqb c 93 then Some (LStart, [TRBracket])
  else if N.eqb c 58 then Some (LStart, [TColon])
  else if N.eqb c 44 then Some (LStart, [TComma])
  else if N.eqb c DQUOTE then Some (LString [], [])
  else if N.eqb c 45 then Some (LNumber NMinus (num_start true), [])
  else if N.eqb c 48 then Some (LNumber NZero (num_start false), [])
  else if is_digit c then
    Some (LNumber NInt (push_digit (num_start false) c false), [])
  else if N.eqb c 116 then Some (LWord (lit "rue") (JBool true), [])
  else if N.eqb c 102 then Some (LWord (lit "alse") (JBool false), [])
  else if N.eqb c 110 then Some (LWord (lit "ull") JNull, [])
  else None.

Definition escape_char (c : char) : option char :=
  if N.eqb c DQUOTE then Some DQUOTE
  else if N.eqb c 92 then Some 92%N
  else if N.eqb c 47 then Some 47%N
  else if N.eqb c 98 then Some 8%N
  else if N.eqb c 102 then Some 12%N
  else if N.eqb c 110 then Some 10%N
  else if N.eqb c 114 then Some 13%N
  else if N.eqb c 116 then Some 9%N
  else None.

Definition lex_step (st : lex_state) (c : char)
  : option (lex_state * list token) :=
  match st with
  | LStart => start_step c
  | LWord expected v =>
      match expected with
      | [x] => if N.eqb c x then Some (LStart, [TValue v]) else None
      | x :: r => if N.eqb c x then Some (LWord r v, []) else None
      | [] => None
      end
  | LString acc =>
      if N.eqb c DQUOTE then Some (LStart, [TValue (JString (rev acc))])
      else if N.eqb c 92 then Some (LEscape acc, [])
      else if N.ltb c 32 then None
      else Some (LString (c :: acc), [])
  | LEscape acc =>
      if N.eqb c 117 then Some (LUnicode acc [], [])
      else match escape_char c with
           | Some x => Some (LString (x :: acc), [])
           | None => None
           end
  | LUnicode acc hex =>
      match hex_value c with
      | None => None
      | Some h =>
          match hex with
          | [a; b; d] =>
              Some (LString ((((a * 16 + b) * 16 + d) * 16 + h)%N :: acc), [])
          | _ => Some (LUnicode acc (hex ++ [h]), [])
          end
      end
  | LNumber nst a =>
      match num_step nst a c with
      | Some (nst', a') => Some (LNumber nst' a', [])
      | None =>
          if num_final nst then
            match start_step c with
            | Some (st', toks) =>
                Some (st', TValue (JNumber (number_value a)) :: toks)
            | None => None
            end
          else None
      end
  end.

Definition lex_finish (st : lex_state) : option (list token) :=
  match st with
  | LStart => Some []
  | LNumber nst a =>
      if num_final nst then Some [TValue (JNumber (number_value a))] else None
  | _ => None
  end.

Fixpoint tokenize (st : lex_state) (s : jstring) : option (list token) :=
  match s with
  | [] => lex_finish st
  | c :: r =>
      match lex_step st c with
      | None => None
      | Some (st', toks) =>
          match tokenize st' r with
          | None => None
          | Some rest => Some (toks ++ rest)
          end
      end
  end.

(** ** Grammar: a pushdown automaton over the tokens *)

(** A container under construction. *)
Inductive frame :=
| FArray (items_rev : list json)
| FObject (fields_rev : list (jstring * json)) (key : option jstring).

Inductive parse_state :=
| SValue (may_close : bool)  (* a value; [\]] too right after [\[] *)
| SKey (may_close : bool)    (* a member name; [}] too right after [{] *)
| SColon
| SSep                       (* a comma or the end of the container *)
| SEnd (v : json).           (* the whole text has been read *)

(** A value is complete: it is the result, or it joins the container on top
    of the stack. *)
Definition complete (v : json) (stack : list frame)
  : option (parse_state * list frame) :=
  match stack with
  | [] => Some (SEnd v, [])
  | FArray items :: rest => Some (SSep, FArray (v :: items) :: rest)
  | FObject fields (Some k) :: rest =>
      Some (SSep, FObject ((k, v) :: fields) None :: rest)
  | FObject _ None :: _ => None
  end.

Definition parse_step (st : parse_state) (stack : list frame) (t : token)
  : option (parse_state * list frame) :=
  match st, t with
  | SValue _, TValue v => complete v stack
  | SValue _, TLBracket => Some (SValue true, FArray [] :: stack)
  | SValue _, TLBrace => Some (SKey true, FObject [] None :: stack)
  | SValue true, TRBracket =>
      match stack with
      | FArray items :: rest => complete (JArray (rev items)) rest
      | _ => None
      end
  | SKey _, TValue (JString k) =>
      match stack with
      | FObject fields None :: rest =>
          Some (SColon, FObject fields (Some k) :: rest)
      | _ => None
      end
  | SKey true, TRBrace =>
      match stack with
      | FObject fields None :: rest => complete (JObject (rev fields)) rest
      | _ => None
      end
  | SColon, TColon => Some (SValue false, stack)
  | SSep, TComma =>
      match stack with
      | FArray _ :: _ => Some (SValue false, stack)
      | FObject _ None :: _ => Some (SKey false, stack)
      | _ => None
      end
  | SSep, TRBracket =>
      match stack with
      | FArray items :: rest => complete (JArray (rev items)) rest
      | _ => None
      end
  | SSep, TRBrace =>
      match stack with
      | FObject fields None :: rest => complete (JObject (rev fields)) rest
      | _ => None
      end
  | _, _ => None
  end.

Fixpoint parse_tokens (st : parse_state) (stack : list frame)
  (ts : list token) : option json :=
  match ts with
  | [] => match st with SEnd v => Some v | _ => None end
  | t :: r =>
      match parse_step st stack t with
      | None => None
      | Some (st', stack') => parse_tokens st' stack' r
      end
  end.

(** [JSON.parse(text)]; [None] stands for the SyntaxError it throws. *)
Definition JSON_parse (text : jstring) : option json :=
  match tokenize LStart text with
  | None => None
  | Some ts => parse_tokens (SValue false) [] ts
  end.

(** ** Coercions of parsed values *)

(** ToBoolean.  A parsed number is never NaN. *)
Definition truthy (v : json) : bool :=
  match v with
  | JNull => false
  | JBool b => b
  | JNumber d => negb (Double.is_zero d)
  | JString s => str_truthy s
  | JArray _ | JObject _ => true
  end.

(** An own property of a parsed object; the last of several members with the
    same name wins. *)
Fixpoint lookup (k : jstring) (fields : list (jstring * json)) : option json :=
  match fields with
  | [] => None
  | (k', v) :: r =>
      match lookup k r with
      | Some v' => Some v'
      | None => if str_eqb k k' then Some v else None
      end
  end.

(** [v.name] for the names the program reads ([delta], [done], [text],
    [query], [message], [languageId]): [None] stands for [undefined], which
    is what every value other than an object gives for these names.
    Reading a property of [null] throws and is handled by the callers. *)
Definition get_prop (v : json) (name : jstring) : option json :=
  match v with
  | JObject fields => lookup name fields
  | _ => None
  end.

Definition truthy_opt (v : option json) : bool :=
  match v with
  | Some x => truthy x
  | None => false
  end.

Definition join_with (sep : jstring) (parts : list jstring) : jstring :=
  match parts with
  | [] => []
  | p :: r => p ++ List.concat (List.map (fun x => sep ++ x) r)
  end.

(** [String(v)], also the conversion done by [+] with a string and by the
    [textContent] setter.  [None] stands for the TypeError thrown when an
    object's own member named [toString] hides [Object.prototype.toString]
    (a parsed member is never callable). *)
Fixpoint js_String (v : json) : option jstring :=
  match v with
  | JNull => Some (lit "null")
  | JBool true => Some (lit "true")
  | JBool false => Some (lit "false")
  | JNumber d => Some (Double.to_string d)
  | JString s => Some s
  | JArray items =>
      (* Array.prototype.join: null elements print as nothing *)
      let fix elems (l : list json) : option (list jstring) :=
        match l with
        | [] => Some []
        | x :: r =>
            match (match x with JNull => Some [] | _ => js_String x end),
                  elems r with
            | Some s, Some rest => Some (s :: rest)
            | _, _ => None
            end
        end in
      match elems items with
      | Some parts => Some (join_with (lit ",") parts)
      | None => None
      end
  | JObject fields =>
      match lookup (lit "toString") fields with
      | Some _ => None
      | None => Some (lit "[object Object]")
      end
  end.

End Json.

(* ------------------------------------------------------------------ *)
(** * The stream relay: [streamChatToWebview] and its caller *)
(* ------------------------------------------------------------------ *)

Module Relay.

Import Json.

(** A message handed to [currentPanel?.webview.postMessage]; it reaches the
    webview while the panel exists.  [id] is [msg.id || null], with [None]
    for [null]. *)
Inductive message :=
| AiDelta (id : option jstring) (delta : json)
| AiDone (id : option jstring) (text : json).

(** [x || null]. *)
Definition or_null (v : option json) : json :=
  match v with
  | Some x => if truthy x then x else JNull
  | None => JNull
  end.

(** The body of the [for] loop of the data handler, lines 287-317, for a
    line that is not blank. *)
Definition forward_line (id : option jstring) (line : jstring) : list message :=
  match JSON_parse line with
  | None => [AiDelta id (JString line)]            (* JSON.parse threw *)
  | Some JNull => [AiDelta id (JString line)]      (* obj.delta threw *)
  | Some obj =>
      match get_prop obj (lit "delta") with
      | Some d => [AiDelta id d]
      | None =>
          if truthy_opt (get_prop obj (lit "done")) then
            [AiDone id (or_null (get_prop obj (lit "text")))]
          else
            match js_String obj with
            | Some s => [AiDelta id (JString s)]
            | None => [AiDelta id (JString line)]  (* String(obj) threw *)
            end
      end
  end.

(** The data handler, lines 280-319: the new buffer and the messages
    posted. *)
Definition on_data (id : option jstring) (buf chunk : jstring)
  : jstring * list message :=
  let parts := split_lines (buf ++ chunk) in
  let buf' := last parts [] in                     (* parts.pop() || "" *)
  let lines := removelast parts in
  (buf', flat_map
           (fun line => if str_truthy (trim line) then forward_line id line
                        else [])
           lines).


(** The end handler, lines 321-336. *)
Definition on_end (id : option jstring) (buf : jstring) : list message :=
  if str_truthy (trim buf) then
    match JSON_parse buf with
    | None => [AiDelta id (JString buf)]
    | Some JNull => [AiDelta id (JString buf)]
    | Some obj =>
        match get_prop obj (lit "delta") with
        | Some d => [AiDelta id d]
        | None =>
            if truthy_opt (get_prop obj (lit "done")) then
              [AiDone id (or_null (get_prop obj (lit "text")))]
            else []
        end
    end
  else [].

(** The data handler over the chunks of a response, in arrival order. *)
Fixpoint feed (id : option jstring) (buf : jstring) (chunks : list jstring)
  : jstring * list message :=
  match chunks with
  | [] => (buf, [])
  | c :: r =>
      let '(buf1, out1) := on_data id buf c in
      let '(buf2, out2) := feed id buf1 r in
      (buf2, out1 ++ out2)
  end.

(** The response callback of [streamChatToWebview], lines 276-337, for a
    response that arrives as [chunks] and then ends: the messages posted,
    in order. *)
Definition streamChatToWebview (id : option jstring) (chunks : list jstring)
  : list message :=
  let '(buf, out) := feed id [] chunks in
  out ++ on_end id buf.

(** The complete lines of a response body, and what follows its last line
    feed. *)
Definition complete_lines (body : jstring) : list jstring :=
  removelast (split_lines body).

Definition trailing (body : jstring) : jstring := last (split_lines body) [].

(** What the data handler posts for one complete line. *)
Definition forward_complete (id : option jstring) (line : jstring)
  : list message :=
  if str_truthy (trim line) then forward_line id line else [].

Definition is_delta (m : message) : bool :=
  match m with
  | AiDelta _ _ => true
  | AiDone _ _ => false
  end.

Definition is_done (m : message) : bool := negb (is_delta m).

(** ** The request as a sequence of events *)

(** An [Error] object as far as the caller looks at it. *)
Record js_error := { err_name : jstring; err_message : jstring }.

(** [Error.prototype.toString]. *)
Definition error_to_string (e : js_error) : jstring :=
  match err_name e, err_message e with
  | n, [] => n
  | [], m => m
  | n, m => n ++ lit ": " ++ m
  end.

Inductive event :=
| Data (chunk : jstring)     (* res 'data' *)
| End                        (* res 'end' *)
| ReqError (e : js_error).   (* req 'error' *)

Inductive promise :=
| Pending
| Resolved
| Rejected (e : js_error).

Record stream := { buffer : jstring; settled : promise }.

Definition stream_start : stream := {| buffer := []; settled := Pending |}.

(** The cross mark of the error text, U+274C. *)
Definition CROSS : char := 10060%N.

(** The [catch] block of the [userMessage] handler, lines 224-231. *)
Definition error_text (e : js_error) : jstring :=
  CROSS :: lit " Backend error: "
  ++ (if str_truthy (err_message e) then err_message e
      else error_to_string e).

Definition on_reject (id : option jstring) (e : js_error) : list message :=
  [AiDelta id (JString (error_text e)); AiDone id JNull].

(** One event of the request.  A promise settles once; the [catch] block
    runs when it is rejected. *)
Definition on_event (id : option jstring) (s : stream) (ev : event)
  : stream * list message :=
  match ev with
  | Data chunk =>
      let '(buf', out) := on_data id (buffer s) chunk in
      ({| buffer := buf'; settled := settled s |}, out)
  | End =>
      let out := on_end id (buffer s) in
      match settled s with
      | Pending => ({| buffer := buffer s; settled := Resolved |}, out)
      | _ => (s, out)
      end
  | ReqError e =>
      match settled s with
      | Pending =>
          ({| buffer := buffer s; settled := Rejected e |}, on_reject id e)
      | _ => (s, [])
      end
  end.

Fixpoint run_events (id : option jstring) (s : stream) (evs : list event)
  : stream * list message :=
  match evs with
  | [] => (s, [])
  | ev :: r =>
      let '(s1, out1) := on_event id s ev in
      let '(s2, out2) := run_events id s1 r in
      (s2, out1 ++ out2)
  end.

(** What the [userMessage] handler posts for a request whose events are
    [evs]. *)
Definition handle_user_message (id : option jstring) (evs : list event)
  : stream * list message :=
  run_events id stream_start evs.

End Relay.

(* ------------------------------------------------------------------ *)
(** * The webview script: rendering and the message bridge *)
(* ------------------------------------------------------------------ *)

Module Webview.

Import Json.

(** ** [escapeHtml] and [renderMarkdown]

    The renderer only looks at the code unit of a character.  It is written
    over characters that may carry a mark besides their code unit, so that
    the same definition can be run on plain strings and on strings that
    record where each character comes from. *)

Section Render.

Variable A : Type.
Variable code : A -> char.      (* the code unit of a character *)
Variable ent : char -> A.       (* a character of an entity written by escapeHtml *)
Variable mk : char -> A.        (* a character of the markup written by renderMarkdown *)

Definition entity (s : string) : list A := List.map ent (lit s).
Definition markup (s : jstring) : list A := List.map mk s.

(** [s.replace(/c/g, repl)] for a pattern of one character. *)
Definition replace_char (c : char) (repl : list A) (s : list A) : list A :=
  flat_map (fun a => if N.eqb (code a) c then repl else [a]) s.

Definition escapeHtml (s : list A) : list A :=
  replace_char 34%N (entity "&quot;")
    (replace_char 62%N (entity "&gt;")
      (replace_char 60%N (entity "&lt;")
        (replace_char 38%N (entity "&amp;") s))).

(** [s.replace(re, ...)] for a global pattern that never matches the empty
    string: [match_at] tries the pattern at the start of its argument and
    gives the replacement and the length of the match; the search resumes
    after a match, and one character further where there is none. *)
Fixpoint replace_matches (match_at : list A -> option (list A * nat))
  (skip : nat) (s : list A) : list A :=
  match s with
  | [] => []
  | a :: r =>
      match skip with
      | S k => replace_matches match_at k r
      | O =>
          match match_at s with
          | Some (repl, n) => repl ++ replace_matches match_at (pred n) r
          | None => a :: replace_matches match_at 0 r
          end
      end
  end.

(** The longest prefix whose characters satisfy [p], and the rest. *)
Fixpoint span (p : char -> bool) (s : list A) : list A * list A :=
  match s with
  | a :: r =>
      if p (code a) then let '(x, y) := span p r in (a :: x, y)
      else ([], s)
  | [] => ([], [])
  end.

(** [\w]. *)
Definition is_word (c : char) : bool :=
  ((N.leb 48 c && N.leb c 57) || (N.leb 65 c && N.leb c 90)
   || (N.leb 97 c && N.leb c 122) || N.eqb c 95)%bool.

(** The text after three backticks at the start of [s]. *)
Definition after_fence (s : list A) : option (list A) :=
  match s with
  | a :: b :: c :: r =>
      if (N.eqb (code a) BACKTICK && N.eqb (code b) BACKTICK
          && N.eqb (code c) BACKTICK)%bool
      then Some r else None
  | _ => None
  end.

(** [([\s\S]*?)] before the closing fence: the text up to the first three
    backticks. *)
Fixpoint until_fence (s : list A) : option (list A) :=
  match s with
  | [] => None
  | a :: r =>
      match after_fence s with
      | Some _ => Some []
      | None =>
          match until_fence r with
          | Some body => Some (a :: body)
          | None => None
          end
      end
  end.

Definition attr (name value : string) : jstring :=
  lit name ++ lit "=" ++ [DQUOTE] ++ lit value ++ [DQUOTE].

(** The replacement function of the fence pattern, lines 593-607; [lang] is
    empty when the group did not take part in the match. *)
Definition code_block (lang body : list A) : list A :=
  let safeCode := trimBy (fun a => is_space (code a)) body in
  let dataCode := replace_char 34%N (entity "&quot;") safeCode in
  markup (lit "<div " ++ attr "class" "code-block" ++ lit ">")
  ++ markup (lit "<div " ++ attr "class" "code-toolbar" ++ lit ">")
  ++ markup (lit "<span " ++ attr "class" "code-lang" ++ lit ">")
  ++ (match lang with [] => markup (lit "code") | _ => lang end)
  ++ markup (lit "</span>")
  ++ markup (lit "<div>")
  ++ markup (lit "<button " ++ attr "class" "copy-btn" ++ lit " "
             ++ attr "data-action" "copy" ++ lit ">Copy</button>")
  ++ markup (lit "<button " ++ attr "class" "copy-btn" ++ lit " "
             ++ attr "data-action" "insert" ++ lit ">Insert</button>")
  ++ markup (lit "</div>")
  ++ markup (lit "</div>")
  ++ markup (lit "<pre><code data-code=" ++ [DQUOTE])
  ++ dataCode
  ++ markup (DQUOTE :: lit ">")
  ++ safeCode
  ++ markup (lit "</code></pre>")
  ++ markup (lit "</div>").

(** The fence pattern: three backticks, an optional run of word characters,
    a line feed, the shortest body, three backticks.  The language group is
    greedy and must be followed by the line feed, so it can only be the
    whole run of word characters. *)
Definition match_fence (s : list A) : option (list A * nat) :=
  match after_fence s with
  | None => None
  | Some s1 =>
      let '(lang, s2) := span is_word s1 in
      match s2 with
      | nl :: s3 =>
          if N.eqb (code nl) LF then
            match until_fence s3 with
            | Some body =>
                Some (code_block lang body,
                      3 + List.length lang + 1 + List.length body + 3)
            | None => None
            end
          else None
      | [] => None
      end
  end.

(** The inline pattern: a backtick, one or more characters that are neither
    a backtick nor a line feed, a backtick. *)
Definition match_inline (s : list A) : option (list A * nat) :=
  match s with
  | a :: s1 =>
      if N.eqb (code a) BACKTICK then
        let '(body, s2) :=
          span (fun c => negb (N.eqb c BACKTICK || N.eqb c LF)) s1 in
        match body, s2 with
        | _ :: _, b :: _ =>
            if N.eqb (code b) BACKTICK then
              Some (markup (lit "<code " ++ attr "class" "inline" ++ lit ">")
                    ++ body ++ markup (lit "</code>"),
                    List.length body + 2)
            else None
        | _, _ => None
        end
      else None
  | [] => None
  end.

(** The paragraph pattern: a run of two or more line feeds. *)
Definition match_paragraph (s : list A) : option (list A * nat) :=
  let '(run, _) := span (fun c => N.eqb c LF) s in
  if 2 <=? List.length run then Some (markup (lit "</p><p>"), List.length run)
  else None.

(** The substitutions of [renderMarkdown], lines 593-614, on the escaped
    text. *)
Definition substitute (safeAll : list A) : list A :=
  let html := replace_matches match_fence 0 safeAll in
  let html := replace_matches match_inline 0 html in
  let html := replace_matches match_paragraph 0 html in
  markup (lit "<p>") ++ replace_char LF (markup (lit "<br>")) html
  ++ markup (lit "</p>").

(** [renderMarkdown], lines 589-616, on the string of its argument. *)
Definition render (md : list A) : list A :=
  let safeAll := escapeHtml md in
  substitute safeAll.

(** What [escapeHtml] writes for one character. *)
Definition escape_one (a : A) : list A :=
  if N.eqb (code a) 38 then entity "&amp;"
  else if N.eqb (code a) 60 then entity "&lt;"
  else if N.eqb (code a) 62 then entity "&gt;"
  else if N.eqb (code a) 34 then entity "&quot;"
  else [a].

End Render.

(** The renderer on plain strings. *)
Definition escapeHtml_text (s : jstring) : jstring :=
  escapeHtml (fun c => c) (fun c => c) s.

Definition render_text (s : jstring) : jstring :=
  render (fun c => c) (fun c => c) (fun c => c) s.

(** [renderMarkdown(md)]: a falsy argument gives the empty string; [None]
    stands for the TypeError of [String(md)]. *)
Definition renderMarkdown (md : json) : option jstring :=
  if negb (truthy md) then Some []
  else match js_String md with
       | Some s => Some (render_text s)
       | None => None
       end.

(** Where a character of the rendered text comes from. *)
Inductive mark :=
| Input     (* a character of the text given to the renderer *)
| Entity    (* written by escapeHtml in place of a character of the input *)
| Markup.   (* written by renderMarkdown itself *)

Definition marked := (char * mark)%type.

Definition from_input (s : jstring) : list marked :=
  List.map (fun c => (c, Input)) s.

(** The renderer on an input whose characters are marked as such. *)
Definition render_marked (s : jstring) : list marked :=
  render fst (fun c => (c, Entity)) (fun c => (c, Markup)) (from_input s).

Definition erase (s : list marked) : jstring := List.map fst s.

(** The characters [escapeHtml] replaces. *)
Definition is_special (c : char) : bool :=
  (N.eqb c 38 || N.eqb c 60 || N.eqb c 62 || N.eqb c 34)%bool.

(** The characters that open or close a tag or an attribute value. *)
Definition is_structural (c : char) : bool :=
  (N.eqb c 60 || N.eqb c 62 || N.eqb c 34)%bool.

(** A marked character is harmless when it is not a character of the input
    that [escapeHtml] should have replaced, nor a structural character
    inside an entity. *)
Definition harmless (a : marked) : Prop :=
  match snd a with
  | Input => is_special (fst a) = false
  | Entity => is_structural (fst a) = false
  | Markup => True
  end.

End Webview.

(* ------------------------------------------------------------------ *)
(** * The webview script: pending bubbles and the message listener *)
(* ------------------------------------------------------------------ *)

Module Panel.

Import Json Relay Webview.

(** What a bubble shows: text set through [textContent] or markup set
    through [innerHTML]. *)
Inductive content :=
| Text (s : jstring)
| Html (h : jstring).

Record bubble := { role : jstring; body : content }.

(** The children of [chat] in order, the [pending] map from a correlation
    id to its bubble (the position of the bubble in [chat]), and
    [counter]. *)
Record webview := {
  chat : list bubble;
  pending : JsMap.t nat;
  counter : N
}.

Definition initial : webview :=
  {| chat := [ {| role := lit "ai";
                  body := Text (lit "Welcome! Ask about your code, or paste a snippet and ask for analysis.") |} ];
     pending := [];
     counter := 0 |}.

(** The horizontal ellipsis of a placeholder, U+2026. *)
Definition ELLIPSIS : char := 8230%N.

(** [addMessage(role, text)]: the new state and the new bubble.  [None]
    stands for the TypeError of the conversion of [text] to a string, thrown
    before the bubble joins the chat. *)
Definition addMessage (r : jstring) (text : json) (w : webview)
  : option (webview * nat) :=
  match js_String (if truthy text then text else JString []) with
  | Some s =>
      Some ({| chat := chat w ++ [ {| role := r; body := Text s |} ];
               pending := pending w;
               counter := counter w |},
            List.length (chat w))
  | None => None
  end.

Fixpoint set_nth (A : Type) (n : nat) (x : A) (l : list A) : list A :=
  match l, n with
  | [], _ => []
  | _ :: r, O => x :: r
  | y :: r, S n' => y :: set_nth n' x r
  end.

Definition set_body (ix : nat) (c : content) (w : webview) : webview :=
  match nth_error (chat w) ix with
  | Some b =>
      {| chat := set_nth ix {| role := role b; body := c |} (chat w);
         pending := pending w;
         counter := counter w |}
  | None => w
  end.

(** [id && pending.has(id)], with the bubble [pending.get(id)]. *)
Definition pending_bubble (id : option jstring) (w : webview) : option nat :=
  match id with
  | Some i =>
      if (str_truthy i && JsMap.has i (pending w))%bool
      then JsMap.get i (pending w) else None
  | None => None
  end.

Definition drop_pending (id : option jstring) (w : webview) : webview :=
  match id with
  | Some i =>
      {| chat := chat w; pending := JsMap.delete i (pending w);
         counter := counter w |}
  | None => w
  end.

(** The [aiDelta] branch of the listener, lines 711-723.  A conversion that
    throws ends the listener and leaves the state as it was.  A pending
    bubble always holds text (see [Panel_facts.pending_holds_text]); the
    branch for markup is not reached. *)
Definition on_delta (id : option jstring) (d : json) (w : webview) : webview :=
  let delta := if truthy d then d else JString [] in
  match pending_bubble id w with
  | Some ix =>
      match nth_error (chat w) ix, js_String delta with
      | Some {| role := _; body := Text s |}, Some t =>
          set_body ix (Text (s ++ t)) w
      | _, _ => w
      end
  | None =>
      match addMessage (lit "ai") delta w with
      | Some (w', _) => w'
      | None => w
      end
  end.

(** The [aiDone] branch of the listener, lines 726-740. *)
Definition on_done (id : option jstring) (finalText : json) (w : webview)
  : webview :=
  match pending_bubble id w with
  | Some ix =>
      let w1 :=
        match finalText with
        | JString _ =>
            match renderMarkdown finalText with
            | Some h => set_body ix (Html h) w
            | None => w
            end
        | _ => w
        end in
      drop_pending id w1
  | None =>
      if truthy finalText then
        match addMessage (lit "ai") (JString []) w with
        | Some (w1, ix) =>
            match renderMarkdown finalText with
            | Some h => set_body ix (Html h) w1
            | None => w1
            end
        | None => w
        end
      else w
  end.

Definition on_message (w : webview) (m : message) : webview :=
  match m with
  | AiDelta id d => on_delta id d w
  | AiDone id t => on_done id t w
  end.

Definition deliver (w : webview) (ms : list message) : webview :=
  fold_left on_message ms w.

(** ['m' + (++counter)]. *)
Definition fresh_id (n : N) : jstring :=
  lit "m" ++ Double.to_string (Double.of_decimal false (Z.of_N n) 0).

(** [handleSend] for the text [val], lines 633-648: the new
    state and the [userMessage] posted to the host. *)
Definition handleSend (val : jstring) (w : webview)
  : webview * option (jstring * jstring) :=
  if str_truthy val then
    let n := (counter w + 1)%N in
    let id := fresh_id n in
    let user := {| role := lit "user"; body := Text val |} in
    let placeholder := {| role := lit "ai"; body := Text [ELLIPSIS] |} in
    ({| chat := chat w ++ [user; placeholder];
        pending := JsMap.set id (S (List.length (chat w))) (pending w);
        counter := n |},
     Some (id, val))
  else (w, None).

(** ** The states the panel goes through *)

(** Every pending bubble holds text, and no two correlation ids share a
    bubble. *)
Definition consistent (w : webview) : Prop :=
  JsMap.wf (pending w)
  /\ (forall i ix, JsMap.get i (pending w) = Some ix ->
       exists r s, nth_error (chat w) ix = Some {| role := r; body := Text s |})
  /\ (forall i j ix, JsMap.get i (pending w) = Some ix ->
       JsMap.get j (pending w) = Some ix -> i = j).

(** The states reached from the initial one by sending messages and
    handling the host's. *)
Inductive reachable : webview -> Prop :=
| reach_initial : reachable initial
| reach_send w val : reachable w -> reachable (fst (handleSend val w))
| reach_message w m : reachable w -> reachable (on_message w m).

End Panel.

(* ------------------------------------------------------------------ *)
(** * The host: [handleExplain] *)
(* ------------------------------------------------------------------ *)

Module Host.

Import Json.

(** How [postJson] settles. *)
Inductive fetched :=
| Threw (message : jstring)
| Returned (data : json).

(** What the user is shown. *)
Inductive notice :=
| ShowResult (term languageId : jstring) (markdown : json)
| Warning (data : json)
| ErrorMessage (message : jstring).

Definition cacheKey (term languageId : jstring) : jstring :=
  term ++ lit "::" ++ languageId.

Record explained := {
  cache_after : Cache.cache json;
  requested : bool;               (* was the backend asked? *)
  shown : notice
}.

(** [handleExplain] when the extension is enabled, lines 106-145, for a
    capacity [cap] of the cache; [reply] is how the request settles if it
    is made.  The cache is read before the request and written after it. *)
Definition handleExplain_cap (cap : nat) (term languageId : jstring)
  (reply : fetched) (c : Cache.cache json) : explained :=
  let key := cacheKey term languageId in
  if JsMap.has key c then
    match JsMap.get key c with
    | Some md =>
        {| cache_after := c; requested := false;
           shown := ShowResult term languageId md |}
    | None => {| cache_after := c; requested := false;
                 shown := ShowResult term languageId JNull |}
    end
  else
    match reply with
    | Threw m =>
        {| cache_after := c; requested := true; shown := ErrorMessage m |}
    | Returned data =>
        match get_prop data (lit "detail") with
        | Some detail =>
            if (truthy_opt (get_prop data (lit "ok")) && truthy detail)%bool
            then
              {| cache_after := Cache.put_cap cap key detail c;
                 requested := true;
                 shown := ShowResult term languageId detail |}
            else {| cache_after := c; requested := true;
                    shown := Warning data |}
        | None => {| cache_after := c; requested := true;
                     shown := Warning data |}
        end
    end.

Definition handleExplain := handleExplain_cap Cache.MAX_CACHE.

End Host.

(* ------------------------------------------------------------------ *)
(** * The backend: validation and replies of [server.js] *)
(* ------------------------------------------------------------------ *)

Module Backend.

Import Json.

(** A reply: a status with a JSON body, or status 200 with an
    [application/x-ndjson] body written piece by piece. *)
Inductive reply :=
| JsonReply (status : N) (body : json)
| Ndjson (writes : list jstring).

(** The prompts given to [model.generateContent], in order, and the
    reply. *)
Record outcome := { model_calls : list jstring; response : reply }.

Definition failure (status : N) (msg : string) : outcome :=
  {| model_calls := [];
     response := JsonReply status
       (JObject [(lit "ok", JBool false); (lit "error", JString (lit msg))]) |}.

Definition is_string (v : option json) : bool :=
  match v with
  | Some (JString _) => true
  | _ => false
  end.

Definition text_length (v : option json) : N :=
  match v with
  | Some (JString s) => N.of_nat (List.length s)
  | _ => 0%N
  end.

(** [!v || typeof v !== "string" || v.length > limit]. *)
Definition invalid_text (limit : N) (v : option json) : bool :=
  (negb (truthy_opt v) || negb (is_string v)
   || N.ltb limit (text_length v))%bool.

Definition status_of (r : reply) : N :=
  match r with
  | JsonReply status _ => status
  | Ndjson _ => 200%N
  end.

(** [req.body || {}], with [None] for a body that was not parsed. *)
Definition body_or_empty (body : option json) : json :=
  match body with
  | Some b => if truthy b then b else JObject []
  | None => JObject []
  end.

(** [v || fallback] inside a template literal. *)
Definition or_text (v : option json) (fallback : string) : option jstring :=
  match v with
  | Some x => if truthy x then js_String x else Some (lit fallback)
  | None => Some (lit fallback)
  end.

Definition explain_prompt (query context example : jstring) : jstring :=
  [LF] ++ lit "You are " ++ [DQUOTE] ++ lit "AI Dev Mentor" ++ [DQUOTE] ++
  lit ", a concise programming tutor." ++ [LF; LF] ++ lit "Term: " ++
  [DQUOTE] ++ query ++ [DQUOTE; LF] ++ lit "Language/Context: " ++ context ++
  [LF; LF] ++ lit "Write Markdown with this structure:" ++ [LF; LF] ++
  lit "- First line: **one bold sentence** definition of the term in this context." ++
  [LF] ++ lit "- Then exactly one short " ++ example ++
  lit " code example in a fenced block." ++ [LF] ++
  lit "- One short tip line." ++ [LF] ++
  lit "- If not programming-related, say: " ++ [DQUOTE] ++
  lit "Not a programming term." ++ [DQUOTE; LF; LF] ++
  lit "Keep it < 180 words total." ++ [LF].

Definition chat_sys : jstring :=
  [LF] ++ lit "You are " ++ [DQUOTE] ++ lit "AI Dev Mentor" ++ [DQUOTE] ++
  lit ", a helpful coding assistant inside VS Code." ++ [LF] ++
  lit "- Answer concisely but completely." ++ [LF] ++
  lit "- Prefer Markdown with code fences." ++ [LF] ++
  lit "- When code is provided, explain before suggesting changes." ++
  [LF] ++
  lit "- If asked to write code, include a brief rationale and a runnable snippet." ++
  [LF].

Definition stream_sys : jstring :=
  [LF] ++
  lit "You are a cheerful AI coding mentor who teaches step by step, like a supportive senior dev." ++
  [LF] ++ lit "Your goals:" ++ [LF] ++
  lit "- Start with a friendly greeting or encouragement." ++ [LF] ++
  lit "- Always break explanations into clear steps (1, 2, 3" ++ [8230%N] ++
  lit ") or bullet points." ++ [LF] ++
  lit "- Format responses in Markdown for readability:" ++ [LF] ++
  lit "  - Use **bold** for key terms." ++ [LF] ++
  lit "  - Use bullet points for lists." ++ [LF] ++
  lit "  - Use numbered steps for processes." ++ [LF] ++
  lit "  - Always wrap code in triple backticks with the correct language tag." ++
  [LF] ++ lit "  - When showing code:" ++ [LF] ++
  lit "  - First explain the concept." ++ [LF] ++
  lit "  - Then show a small runnable snippet." ++ [LF] ++
  lit "  - Finally, explain what the snippet does." ++ [LF] ++
  lit "- Keep tone conversational, light, and motivating (use emojis sparingly " ++
  [55357%N; 56960%N] ++ lit " " ++ [55357%N; 56481%N] ++ lit " " ++
  [9989%N] ++ lit ")." ++ [LF] ++
  lit "- Always end with a reflective or guiding question to keep the learner engaged." ++
  [LF] ++ lit "- Be concise, but never robotic " ++ [8212%N] ++
  lit " add some personality." ++ [LF].

Definition chat_prompt (sys message : jstring) : jstring :=
  sys ++ [LF; LF] ++ lit "User:" ++ [LF] ++ message ++ [LF; LF]
  ++ lit "Assistant:".

Definition model_error (calls : list jstring) : outcome :=
  {| model_calls := calls;
     response := JsonReply 500
       (JObject [(lit "ok", JBool false);
                 (lit "error", JString (lit "Model error"))]) |}.

(** [s.slice(0, n)]. *)
Definition slice0 (n : nat) (s : jstring) : jstring := firstn n s.

(** The first line that is not blank, or the empty string. *)
Fixpoint first_line (ls : list jstring) : jstring :=
  match ls with
  | [] => []
  | l :: r => if 0 <? List.length (trim l) then l else first_line r
  end.

(** [POST /v1/explain], lines 32-77.  [apiKey] is the environment variable,
    [generate] the model: [None] when the call fails. *)
Definition explain (body : option json) (apiKey : option jstring)
  (generate : jstring -> option jstring) : outcome :=
  let b := body_or_empty body in
  let query := get_prop b (lit "query") in
  let languageId := get_prop b (lit "languageId") in
  if invalid_text 120 query then failure 400 "Invalid 'query'."
  else
    match apiKey with
    | Some (_ :: _) =>
        match query, or_text languageId "general", or_text languageId "language" with
        | Some (JString q), Some context, Some example =>
            let prompt := explain_prompt q context example in
            match generate prompt with
            | Some text =>
                let detail := trim text in
                let summary :=
                  slice0 200 (trim (first_line (split_lines detail))) in
                {| model_calls := [prompt];
                   response := JsonReply 200
                     (JObject [(lit "ok", JBool true);
                               (lit "summary", JString summary);
                               (lit "detail", JString detail)]) |}
            | None => model_error [prompt]
            end
        | _, _, _ => model_error []
        end
    | _ => failure 500 "Server missing GEMINI_API_KEY."
    end.

(** [POST /v1/chat], lines 80-115. *)
Definition chat (body : option json) (apiKey : option jstring)
  (generate : jstring -> option jstring) : outcome :=
  let b := body_or_empty body in
  let message := get_prop b (lit "message") in
  if invalid_text 20000 message then failure 400 "Invalid 'message'."
  else
    match apiKey with
    | Some (_ :: _) =>
        match message with
        | Some (JString m) =>
            let prompt := chat_prompt chat_sys m in
            match generate prompt with
            | Some text =>
                {| model_calls := [prompt];
                   response := JsonReply 200
                     (JObject [(lit "ok", JBool true);
                               (lit "text", JString (trim text))]) |}
            | None => model_error [prompt]
            end
        | _ => model_error []
        end
    | _ => failure 500 "Server missing GEMINI_API_KEY."
    end.

(** ** [JSON.stringify] of the two records of the stream *)

Definition hex_digit (n : N) : char :=
  if N.ltb n 10 then (48 + n)%N else (87 + n)%N.

(** [\uXXXX] with lower-case digits. *)
Definition unicode_escape (c : char) : jstring :=
  [92%N; 117%N; hex_digit (c / 4096 mod 16); hex_digit (c / 256 mod 16);
   hex_digit (c / 16 mod 16); hex_digit (c mod 16)]%N.

Definition is_high_surrogate (c : char) : bool :=
  (N.leb 55296 c && N.leb c 56319)%bool.

Definition is_low_surrogate (c : char) : bool :=
  (N.leb 56320 c && N.leb c 57343)%bool.

Definition quote_unit (c : char) : jstring :=
  if N.eqb c 8 then lit "\b"
  else if N.eqb c 9 then lit "\t"
  else if N.eqb c 10 then lit "\n"
  else if N.eqb c 12 then lit "\f"
  else if N.eqb c 13 then lit "\r"
  else if N.eqb c DQUOTE then [92%N; DQUOTE]
  else if N.eqb c 92 then [92%N; 92%N]
  else if N.ltb c 32 then unicode_escape c
  else [c].

(** The characters between the quotes; [after_high] tells that the
    previous code unit was the first half of a surrogate pair. *)
Fixpoint quote_units (after_high : bool) (s : jstring) : jstring :=
  match s with
  | [] => []
  | c :: r =>
      if is_high_surrogate c then
        match r with
        | d :: _ =>
            if is_low_surrogate d then c :: quote_units true r
            else unicode_escape c ++ quote_units false r
        | [] => unicode_escape c
        end
      else if is_low_surrogate c then
        (if after_high then [c] else unicode_escape c) ++ quote_units false r
      else quote_unit c ++ quote_units false r
  end.

Definition quote (s : jstring) : jstring :=
  [DQUOTE] ++ quote_units false s ++ [DQUOTE].

(** [JSON.stringify({ delta: chunk }) + "\n"]. *)
Definition delta_record (chunk : jstring) : jstring :=
  lit "{" ++ quote (lit "delta") ++ lit ":" ++ quote chunk ++ lit "}" ++ [LF].

(** [JSON.stringify({ done: true, text }) + "\n"]. *)
Definition done_record (text : jstring) : jstring :=
  lit "{" ++ quote (lit "done") ++ lit ":true," ++ quote (lit "text")
  ++ lit ":" ++ quote text ++ lit "}" ++ [LF].

(** The pieces [text.slice(i, i + 120)] for [i = 0, 120, ...]; [fuel]
    bounds their number. *)
Fixpoint pieces (fuel : nat) (text : jstring) : list jstring :=
  match fuel, text with
  | _, [] => []
  | O, _ => []
  | S f, _ => firstn 120 text :: pieces f (skipn 120 text)
  end.

(** [POST /v1/chat-stream], lines 121-195.  Nothing throws once the headers
    are set, so the second half of the [catch] block is not reached. *)
Definition chat_stream (body : option json) (apiKey : option jstring)
  (generate : jstring -> option jstring) : outcome :=
  let b := body_or_empty body in
  let message := get_prop b (lit "message") in
  if invalid_text 20000 message then failure 400 "Invalid 'message'."
  else
    match apiKey with
    | Some (_ :: _) =>
        match message with
        | Some (JString m) =>
            let prompt := chat_prompt stream_sys m in
            match generate prompt with
            | Some raw =>
                let text := trim raw in
                {| model_calls := [prompt];
                   response := Ndjson
                     (List.map delta_record (pieces (List.length text) text)
                      ++ [done_record text]) |}
            | None => model_error [prompt]
            end
        | _ => model_error []
        end
    | _ => failure 500 "Server missing GEMINI_API_KEY."
    end.

End Backend.

(* ------------------------------------------------------------------ *)
(** * Several explanations in a row *)
(* ------------------------------------------------------------------ *)

Module Sessions.

Import Json.

(** A call of [handleExplain]: the term, the language, and how the request
    settles if it is made. *)
Definition call := (jstring * jstring * Host.fetched)%type.

(** The cache after calls that run one after the other (none starts before
    the one before it has written the cache). *)
Fixpoint explain_all (cap : nat) (calls : list call) (c : Cache.cache json)
  : Cache.cache json :=
  match calls with
  | [] => c
  | (term, languageId, reply) :: r =>
      explain_all cap r
        (Host.cache_after (Host.handleExplain_cap cap term languageId reply c))
  end.

End Sessions.

(* ------------------------------------------------------------------ *)
(** * A chat turn from the backend to the panel *)
(* ------------------------------------------------------------------ *)

Module Wire.

Import Json Relay.

(** What the host posts for an answer streamed in pieces of 120 code
    units: a delta for each piece, then the terminal message, whose text is
    [null] when the answer is empty. *)
Definition streamed (id : option jstring) (text : jstring) : list message :=
  List.map (fun p => AiDelta id (JString p))
    (Backend.pieces (List.length text) text)
  ++ [AiDone id (if str_truthy text then JString text else JNull)].

(** The line of a record: the record without its line feed. *)
Definition delta_line (chunk : jstring) : jstring :=
  lit "{" ++ Backend.quote (lit "delta") ++ lit ":" ++ Backend.quote chunk
  ++ lit "}".

Definition done_line (text : jstring) : jstring :=
  lit "{" ++ Backend.quote (lit "done") ++ lit ":true,"
  ++ Backend.quote (lit "text") ++ lit ":" ++ Backend.quote text ++ lit "}".

(** [JSON.stringify({ ok: false, error: msg })], the body [res.json]
    sends with the statuses 400 and 500. *)
Definition error_body (msg : jstring) : jstring :=
  lit "{" ++ Backend.quote (lit "ok") ++ lit ":false,"
  ++ Backend.quote (lit "error") ++ lit ":" ++ Backend.quote msg ++ lit "}".

(** [JSON.stringify({ message })], the payload of [streamChatToWebview],
    line 262. *)
Definition chat_request (message : jstring) : jstring :=
  lit "{" ++ Backend.quote (lit "message") ++ lit ":" ++ Backend.quote message
  ++ lit "}".

(** [msg.id] of a message of the host. *)
Definition addressee (m : message) : option jstring :=
  match m with
  | AiDelta id _ => id
  | AiDone id _ => id
  end.

End Wire.

(* ------------------------------------------------------------------ *)
(** * The webview script: the seed of an explanation *)
(* ------------------------------------------------------------------ *)

Module Seed.

Import Json Relay Panel.

Definition seed_prompt (term lang : jstring) : jstring :=
  lit "Deeply explain the term " ++ [DQUOTE] ++ term ++ [DQUOTE]
  ++ lit " in the context of " ++ lang
  ++ lit ". Provide a clear definition, multiple short examples, typical pitfalls, and a quick tip. Keep practical.".

(** The [seedFromExplain] branch of the listener, lines 743-755, for a
    message whose [term] is a string: the new state and the [userMessage]
    posted to the host.  The bubbles and the pending entry are there before
    [languageId] is converted to a string; no message is posted when that
    conversion throws. *)
Definition seedFromExplain (term : jstring) (languageId : option json)
  (w : webview) : webview * option (jstring * jstring) :=
  let n := (counter w + 1)%N in
  let id := fresh_id n in
  let user := {| role := lit "user"; body := Text (lit "Explain: " ++ term) |} in
  let placeholder := {| role := lit "ai"; body := Text [ELLIPSIS] |} in
  ({| chat := chat w ++ [user; placeholder];
      pending := JsMap.set id (S (List.length (chat w))) (pending w);
      counter := n |},
   match Backend.or_text languageId "general" with
   | Some lang => Some (id, seed_prompt term lang)
   | None => None
   end).

(** The buttons [btn-refresh] and [btn-settings], lines 669-675: a text is
    added as a message of the assistant. *)
Definition notice (text : jstring) (w : webview) : webview :=
  match addMessage (lit "ai") (JString text) w with
  | Some (w', _) => w'
  | None => w
  end.

(** One step of the panel: a message is sent, an explanation is seeded, a
    button adds its text, or a message of the host is handled.  (The button
    [btn-new], which empties the chat, is not a step.) *)
Inductive step : webview -> webview -> Prop :=
| step_send w val : step w (fst (handleSend val w))
| step_seed w term languageId :
    step w (fst (seedFromExplain term languageId w))
| step_notice w text : step w (notice text w)
| step_message w m : step w (on_message w m).

Inductive reachable : webview -> Prop :=
| start : reachable initial
| after w w' : reachable w -> step w w' -> reachable w'.

End Seed.

(* ------------------------------------------------------------------ *)
(** * The explain request: [postJson], the popup, the selection watcher *)
(* ------------------------------------------------------------------ *)

Module Explain.

Import Json.

(** [JSON.stringify({ query: term, languageId })], the payload
    [handleExplain] gives to [postJson]. *)
Definition explain_request (term languageId : jstring) : jstring :=
  lit "{" ++ Backend.quote (lit "query") ++ lit ":" ++ Backend.quote term
  ++ lit "," ++ Backend.quote (lit "languageId") ++ lit ":"
  ++ Backend.quote languageId ++ lit "}".

(** [JSON.stringify({ ok: true, summary, detail })], the body [res.json]
    sends with the status 200. *)
Definition ok_body (summary detail : jstring) : jstring :=
  lit "{" ++ Backend.quote (lit "ok") ++ lit ":true,"
  ++ Backend.quote (lit "summary") ++ lit ":" ++ Backend.quote summary
  ++ lit "," ++ Backend.quote (lit "detail") ++ lit ":"
  ++ Backend.quote detail ++ lit "}".

(** A status code inside a template literal. *)
Definition number_text (n : N) : jstring :=
  Double.to_string (Double.of_decimal false (Z.of_N n) 0).

(** [postJson], lines 353-403, for a response that ends: how the promise
    settles for the status code and the chunks of the body. *)
Definition postJson (status : N) (chunks : list jstring) : Host.fetched :=
  let body := List.concat chunks in
  if N.leb 400 status then
    Host.Threw (lit "HTTP " ++ number_text status ++ lit ": " ++ body)
  else
    match JSON_parse body with
    | Some json => Host.Returned json
    | None => Host.Threw (lit "Invalid JSON from server")
    end.

(** [markdown.split("\n").find((l) => l.trim().length > 0) || term], lines
    156-157. *)
Definition firstLine (markdown term : jstring) : jstring :=
  match List.find (fun l => 0 <? List.length (trim l)) (split_lines markdown) with
  | Some l => l
  | None => term
  end.

(** The text of the popup of [showResult], line 160. *)
Definition popup (term markdown : jstring) : jstring :=
  term ++ lit ": " ++ firstLine markdown term.

End Explain.

Module Selection.

(** [editor.document.languageId || "plaintext"]. *)
Definition language (languageId : jstring) : jstring :=
  if str_truthy languageId then languageId else lit "plaintext".

(** [word.includes("\n")]. *)
Definition includes_LF (s : jstring) : bool := existsb (N.eqb LF) s.

(** The timer callback of the selection watcher, lines 62-76, for the
    selected text and the language of the document: the new
    [lastSelectionKey] and the arguments of the call of [handleExplain], if
    it is made. *)
Definition on_selection (lastSelectionKey selected languageId : jstring)
  : jstring * option (jstring * jstring) :=
  let word := trim selected in
  if (negb (str_truthy word) || (80 <? List.length word) || includes_LF word)%bool
  then (lastSelectionKey, None)
  else
    let lang := language languageId in
    let key := word ++ lit "::" ++ lang in
    if str_eqb key lastSelectionKey then (lastSelectionKey, None)
    else (key, Some (word, lang)).

(** The calls of [handleExplain] for the callbacks that run, in order. *)
Fixpoint watch (lastSelectionKey : jstring)
  (selections : list (jstring * jstring)) : list (jstring * jstring) :=
  match selections with
  | [] => []
  | (selected, languageId) :: r =>
      match on_selection lastSelectionKey selected languageId with
      | (key, Some call) => call :: watch key r
      | (key, None) => watch key r
      end
  end.

(** The command [ai-dev-mentor.explainSelection], lines 43-55: the arguments
    of the call of [handleExplain], or [None] when the user is told to
    select something first. *)
Definition manual (selected languageId : jstring) : option (jstring * jstring) :=
  let selection := trim selected in
  if str_truthy selection then Some (selection, language languageId) else None.

End Selection.

(* ------------------------------------------------------------------ *)
(** * The compiled extension of the first version: its renderer *)
(* ------------------------------------------------------------------ *)

Module Legacy.

Import Json Webview.

Section Render.

Variable A : Type.
Variable code : A -> char.
Variable ent : char -> A.
Variable mk : char -> A.

(** The three replacements of [renderMarkdownToHtml], lines 961-964: the
    double quote is left as it is. *)
Definition escape (md : list A) : list A :=
  replace_char code 62%N (entity ent "&gt;")
    (replace_char code 60%N (entity ent "&lt;")
      (replace_char code 38%N (entity ent "&amp;") md)).

(** The block pattern: three backticks, the shortest text, three
    backticks. *)
Definition match_block (s : list A) : option (list A * nat) :=
  match after_fence code s with
  | None => None
  | Some s1 =>
      match until_fence code s1 with
      | Some body =>
          Some (markup mk (lit "<pre><code>") ++ body
                ++ markup mk (lit "</code></pre>"),
                3 + List.length body + 3)
      | None => None
      end
  end.

(** The characters the dot of a pattern does not match. *)
Definition is_line_terminator (c : char) : bool :=
  (N.eqb c 10 || N.eqb c 13 || N.eqb c 8232 || N.eqb c 8233)%bool.

(** The text after two asterisks at the start of [s]. *)
Definition after_stars (s : list A) : option (list A) :=
  match s with
  | a :: b :: r =>
      if (N.eqb (code a) 42 && N.eqb (code b) 42)%bool then Some r else None
  | _ => None
  end.

(** [(.*?)] before the closing asterisks: the text up to the first two
    asterisks, if no line terminator comes before them. *)
Fixpoint until_stars (s : list A) : option (list A) :=
  match s with
  | [] => None
  | a :: r =>
      match after_stars s with
      | Some _ => Some []
      | None =>
          if is_line_terminator (code a) then None
          else match until_stars r with
               | Some body => Some (a :: body)
               | None => None
               end
      end
  end.

(** The bold pattern with its replacement [<strong>$1</strong>]. *)
Definition match_bold (s : list A) : option (list A * nat) :=
  match after_stars s with
  | None => None
  | Some s1 =>
      match until_stars s1 with
      | Some body =>
          Some (markup mk (lit "<strong>") ++ body ++ markup mk (lit "</strong>"),
                2 + List.length body + 2)
      | None => None
      end
  end.

Definition page_head : jstring :=
  lit "<!doctype html><html><body style=" ++ [DQUOTE]
  ++ lit "font-family: -apple-system, BlinkMacSystemFont, 'Segoe UI', Roboto, Helvetica, Arial; padding:12px;"
  ++ [DQUOTE] ++ lit ">".

(** The body of the page, lines 966-969. *)
Definition page_body (md : list A) : list A :=
  replace_char code LF (markup mk (lit "<br/>"))
    (replace_matches match_bold 0
       (replace_matches match_block 0 (escape md))).

(** [renderMarkdownToHtml], lines 957-971. *)
Definition renderMarkdownToHtml (md : list A) : list A :=
  markup mk page_head ++ page_body md ++ markup mk (lit "</body></html>").

End Render.

(** The renderer on plain strings, and on an input whose characters are
    marked as such. *)
Definition render_text (md : jstring) : jstring :=
  renderMarkdownToHtml (fun c => c) (fun c => c) (fun c => c) md.

Definition render_marked (md : jstring) : list marked :=
  renderMarkdownToHtml fst (fun c => (c, Entity)) (fun c => (c, Markup))
    (from_input md).

(** The characters that open a tag, close one, or start an entity. *)
Definition is_tag_char (c : char) : bool :=
  (N.eqb c 38 || N.eqb c 60 || N.eqb c 62)%bool.

(** A marked character cannot change the structure of the page when it is
    not one of the three characters coming from the input, nor an angle
    bracket inside an entity. *)
Definition inert (a : marked) : Prop :=
  match snd a with
  | Input => is_tag_char (fst a) = false
  | Entity => (N.eqb (fst a) 60 || N.eqb (fst a) 62)%bool = false
  | Markup => True
  end.

End Legacy.

(* ------------------------------------------------------------------ *)
(** * Sample data *)
(* ------------------------------------------------------------------ *)

Module Samples.

Import Json Relay.

(** A cache filled to its capacity: a thousand keys of one character. *)
Definition full_cache : Cache.cache nat :=
  List.map (fun i => ([N.of_nat i], i)) (seq 0 Cache.MAX_CACHE).

Definition closure_js : jstring := Host.cacheKey (lit "closure") (lit "javascript").
Definition map_py : jstring := Host.cacheKey (lit "map") (lit "python").

(** The same key put three times. *)
Definition repeated_puts : list (jstring * nat) :=
  [(closure_js, 1); (closure_js, 2); (closure_js, 3)].

(** A key put again after it was evicted. *)
Definition evicted_then_put : list (jstring * nat) :=
  [(closure_js, 1); (map_py, 2); (closure_js, 3)].

Definition m1 : option jstring := Some (lit "m1").

Definition quoted (s : string) : jstring := [DQUOTE] ++ lit s ++ [DQUOTE].

(** The records of the second end-to-end scenario. *)
Definition rec_Hel : jstring :=
  lit "{" ++ quoted "delta" ++ lit ":" ++ quoted "Hel" ++ lit "}" ++ [LF].
Definition rec_lo : jstring :=
  lit "{" ++ quoted "delta" ++ lit ":" ++ quoted "lo" ++ lit "}" ++ [LF].
Definition rec_done : jstring :=
  lit "{" ++ quoted "done" ++ lit ":true," ++ quoted "text" ++ lit ":"
  ++ quoted "Hello" ++ lit "}" ++ [LF].

(** A terminal record whose text is the empty string, without line feed. *)
Definition done_empty_text : jstring :=
  lit "{" ++ quoted "done" ++ lit ":true," ++ quoted "text" ++ lit ":"
  ++ [DQUOTE; DQUOTE] ++ lit "}".

(** The panel after the user sent a message. *)
Definition sent : Panel.webview :=
  fst (Panel.handleSend (lit "hi") Panel.initial).

(** The panel after the user sent a message and two fragments arrived. *)
Definition streaming : Panel.webview :=
  Panel.deliver sent
    [AiDelta m1 (JString (lit "Hel")); AiDelta m1 (JString (lit "lo"))].

(** A connection reset. *)
Definition reset : js_error :=
  {| err_name := lit "Error"; err_message := lit "read ECONNRESET" |}.

(** Request bodies whose text has a given length. *)
Definition body_with (field : string) (n : N) : option json :=
  Some (JObject [(lit field, JString (repeat 97%N (N.to_nat n)))]).

Definition api_key : option jstring := Some (lit "key").

(** A model that answers every prompt with the same short text. *)
Definition canned_model (prompt : jstring) : option jstring :=
  Some (lit "**A closure** keeps its scope.").

(** A fenced block: three backticks, the language, a line feed, the body,
    a line feed, three backticks. *)
Definition fenced (lang : string) (body : jstring) : jstring :=
  lit "```" ++ lit lang ++ [LF] ++ body ++ [LF] ++ lit "```".

(** The markup of a code block whose [data-code] attribute holds [data] and
    whose [code] element holds [shown]. *)
Definition block_html (lang : string) (data shown : jstring) : jstring :=
  lit "<div " ++ Webview.attr "class" "code-block" ++ lit ">"
  ++ lit "<div " ++ Webview.attr "class" "code-toolbar" ++ lit ">"
  ++ lit "<span " ++ Webview.attr "class" "code-lang" ++ lit ">"
  ++ lit lang ++ lit "</span>"
  ++ lit "<div>"
  ++ lit "<button " ++ Webview.attr "class" "copy-btn" ++ lit " "
  ++ Webview.attr "data-action" "copy" ++ lit ">Copy</button>"
  ++ lit "<button " ++ Webview.attr "class" "copy-btn" ++ lit " "
  ++ Webview.attr "data-action" "insert" ++ lit ">Insert</button>"
  ++ lit "</div>" ++ lit "</div>"
  ++ lit "<pre><code data-code=" ++ [DQUOTE] ++ data ++ [DQUOTE] ++ lit ">"
  ++ shown ++ lit "</code></pre>" ++ lit "</div>".

Definition inline_html (s : jstring) : jstring :=
  lit "<code " ++ Webview.attr "class" "inline" ++ lit ">" ++ s
  ++ lit "</code>".

(** Bodies of two lines, with a blank line, and with single backticks. *)
Definition two_lines : jstring := lit "a = 1" ++ [LF] ++ lit "b = 2".
Definition blank_line : jstring := lit "a = 1" ++ [LF; LF] ++ lit "b = 2".
Definition backticks : jstring := lit "s = `x`".

(** A record that is neither a delta nor a terminal one. *)
Definition rec_other : jstring :=
  lit "{" ++ quoted "note" ++ lit ":" ++ quoted "hi" ++ lit "}".

(** A successful reply of the backend to an explain request. *)
Definition explained (detail : string) : Host.fetched :=
  Host.Returned
    (JObject [(lit "ok", JBool true);
              (lit "summary", JString (lit detail));
              (lit "detail", JString (lit detail))]).

(** A cache of capacity two that is full. *)
Definition two_entries : Cache.cache json :=
  [(closure_js, JString (lit "A closure.")); (map_py, JString (lit "A map."))].

(** A model whose answer is longer than one piece: 250 characters. *)
Definition long_model (prompt : jstring) : option jstring :=
  Some (repeat 120%N 250).

(** A model that answers with nothing but white space. *)
Definition blank_model (prompt : jstring) : option jstring :=
  Some (lit "  ").

End Samples.

(* ================================================================== *)
(** * Properties *)
(* ================================================================== *)

(* ------------------------------------------------------------------ *)
(** ** Strings *)
(* ------------------------------------------------------------------ *)

Module Double_examples.

Import Double.

Local Open Scope Z_scope.

(** Literals and how JavaScript prints the numbers they denote. *)
Example prints_shortest :
  to_string (of_decimal false 15 (-1)) = lit "1.5"
  /\ to_string (of_decimal false 10 (-1)) = lit "1"
  /\ to_string (of_decimal false 1 (-1)) = lit "0.1"
  /\ to_string (of_decimal false 30000000000000004 (-17))
     = lit "0.30000000000000004"
  /\ to_string (of_decimal false 9007199254740993 0) = lit "9007199254740992"
  /\ to_string (of_decimal false 1 21) = lit "1e+21"
  /\ to_string (of_decimal false 123456789 (-15)) = lit "1.23456789e-7"
  /\ to_string (of_decimal true 25 (-1)) = lit "-2.5"
  /\ to_string (of_decimal false 3 (-324)) = lit "5e-324"
  /\ to_string (of_decimal false 1 400) = lit "Infinity"
  /\ to_string (of_decimal true 0 0) = lit "0"
  /\ is_zero (of_decimal false 1 (-400)) = true.
Proof. vm_compute. repeat split. Qed.

End Double_examples.

Module JS_facts.

Lemma str_eqb_refl (a : jstring) : str_eqb a a = true.
Proof.
  induction a as [|x a IH]; simpl; [reflexivity|].
  now rewrite N.eqb_refl, IH.
Qed.

Lemma str_eqb_eq (a b : jstring) : str_eqb a b = true <-> a = b.
Proof.
  split.
  - revert b; induction a as [|x a IH]; intros [|y b]; simpl; try discriminate.
    + reflexivity.
    + intros H. apply andb_true_iff in H as [Hx Hr].
      apply N.eqb_eq in Hx. apply IH in Hr. now subst.
  - intros ->. apply str_eqb_refl.
Qed.

Lemma str_eqb_neq (a b : jstring) : str_eqb a b = false <-> a <> b.
Proof.
  split.
  - intros H E. apply str_eqb_eq in E. congruence.
  - intros H. destruct (str_eqb a b) eqn:E; [|reflexivity].
    apply str_eqb_eq in E. contradiction.
Qed.

Lemma split_lines_nonempty (s : jstring) : split_lines s <> [].
Proof.
  destruct s as [|c s]; simpl; [discriminate|].
  destruct (N.eqb c LF); [discriminate|].
  destruct (split_lines s); discriminate.
Qed.

(** Splitting a concatenation: the lines of [x] but the last, then the lines
    of the last one continued by [y]. *)
Lemma split_lines_app (x y : jstring) :
  split_lines (x ++ y)
  = removelast (split_lines x) ++ split_lines (last (split_lines x) [] ++ y).
Proof.
  induction x as [|c x IH]; [reflexivity|].
  cbn [app split_lines].
  pose proof (split_lines_nonempty x) as Hne.
  destruct (N.eqb c LF) eqn:Ec.
  - rewrite IH.
    destruct (split_lines x) as [|l ls]; [contradiction|].
    reflexivity.
  - rewrite IH.
    destruct (split_lines x) as [|l ls]; [contradiction|].
    destruct ls as [|m ls'].
    + cbn [removelast last app split_lines]. rewrite Ec.
      destruct (split_lines (l ++ y)) eqn:E; [|reflexivity].
      now apply split_lines_nonempty in E.
    + reflexivity.
Qed.

(** A text without a line feed is its own single line. *)
Lemma split_lines_single (s : jstring) :
  ~ In LF s -> split_lines s = [s].
Proof.
  induction s as [|c s IH]; intros H; [reflexivity|].
  simpl. destruct (N.eqb c LF) eqn:Ec.
  - apply N.eqb_eq in Ec. exfalso. apply H. now left.
  - rewrite IH; [reflexivity|]. intros Hin. apply H. now right.
Qed.

Lemma split_lines_no_LF (s l : jstring) :
  In l (split_lines s) -> ~ In LF l.
Proof.
  revert l. induction s as [|c s IH]; intros l Hin.
  - destruct Hin as [<-|[]]. intros [].
  - simpl in Hin. destruct (N.eqb c LF) eqn:Ec.
    + destruct Hin as [<-|Hin]; [intros []|now apply IH].
    + pose proof (split_lines_nonempty s) as Hne.
      destruct (split_lines s) as [|m ms]; [contradiction|].
      destruct Hin as [<-|Hin].
      * intros [E|Hm].
        -- subst c. discriminate Ec.
        -- revert Hm. apply IH. now left.
      * apply IH. now right.
Qed.

Lemma last_split_no_LF (s : jstring) : ~ In LF (last (split_lines s) []).
Proof.
  apply split_lines_no_LF with (s := s).
  pose proof (split_lines_nonempty s) as Hne.
  destruct (split_lines s) as [|l ls]; [contradiction|].
  clear Hne. revert l. induction ls as [|m ls IH]; intros l.
  - now left.
  - right. apply IH.
Qed.

End JS_facts.

(* ------------------------------------------------------------------ *)
(** ** The map operations and the cache *)
(* ------------------------------------------------------------------ *)

Module Cache_facts.

Import JS_facts.

Section WithValues.

Variable V : Type.

Implicit Types (m : JsMap.t V) (k : jstring) (v : V).

Lemma set_fresh m k v :
  JsMap.has k m = false -> JsMap.set k v m = m ++ [(k, v)].
Proof.
  induction m as [|[k' v'] m IH]; simpl; intros H; [reflexivity|].
  apply orb_false_iff in H as [Hk Hm].
  rewrite Hk, IH by assumption. reflexivity.
Qed.

Lemma set_present m k v :
  JsMap.has k m = true -> JsMap.size (JsMap.set k v m) = JsMap.size m.
Proof.
  induction m as [|[k' v'] m IH]; simpl; intros H; [discriminate|].
  destruct (str_eqb k k') eqn:E; simpl in *; [reflexivity|].
  unfold JsMap.size in *. simpl. f_equal. now apply IH.
Qed.

Lemma set_size m k v :
  JsMap.size (JsMap.set k v m)
  = if JsMap.has k m then JsMap.size m else S (JsMap.size m).
Proof.
  destruct (JsMap.has k m) eqn:H.
  - now apply set_present.
  - rewrite set_fresh by assumption. unfold JsMap.size.
    rewrite length_app. simpl. lia.
Qed.

Lemma delete_first k v m : JsMap.delete k ((k, v) :: m) = m.
Proof. simpl. now rewrite str_eqb_refl. Qed.

(** A put never leaves more entries than the capacity allows. *)
Lemma put_cap_size cap m k v :
  JsMap.size m <= cap -> JsMap.size (Cache.put_cap cap k v m) <= cap.
Proof.
  intros Hm. unfold Cache.put_cap.
  pose proof (set_size m k v) as Hs.
  destruct (cap <? JsMap.size (JsMap.set k v m)) eqn:Hc.
  - apply Nat.ltb_lt in Hc.
    destruct (JsMap.set k v m) as [|[k0 v0] rest] eqn:E; simpl in *; [lia|].
    rewrite str_eqb_refl. unfold JsMap.size in *. simpl in *.
    destruct (JsMap.has k m); lia.
  - apply Nat.ltb_ge in Hc. exact Hc.
Qed.

(** A put of an absent key appends it, and drops the oldest entry when the
    cache was full. *)
Lemma put_cap_fresh cap m k v :
  JsMap.has k m = false ->
  Cache.put_cap cap k v m
  = if cap <? S (JsMap.size m) then tl (m ++ [(k, v)]) else m ++ [(k, v)].
Proof.
  intros H. unfold Cache.put_cap. rewrite set_fresh by assumption.
  replace (JsMap.size (m ++ [(k, v)])) with (S (JsMap.size m))
    by (unfold JsMap.size; rewrite length_app; simpl; lia).
  destruct (cap <? S (JsMap.size m)); [|reflexivity].
  destruct m as [|[k0 v0] m]; simpl.
  - now rewrite str_eqb_refl.
  - now rewrite str_eqb_refl.
Qed.

Lemma puts_size cap (s : list (jstring * V)) m :
  JsMap.size m <= cap -> JsMap.size (Cache.puts cap s m) <= cap.
Proof.
  revert m. induction s as [|[k v] s IH]; intros m Hm; simpl; [exact Hm|].
  apply IH. now apply put_cap_size.
Qed.

(** From the empty cache no sequence of puts exceeds the capacity. *)
Lemma puts_from_empty cap (s : list (jstring * V)) :
  JsMap.size (Cache.puts cap s []) <= cap.
Proof. apply puts_size. unfold JsMap.size. simpl. lia. Qed.

Lemma lastn_all (A : Type) n (l : list A) :
  List.length l <= n -> Cache.lastn n l = l.
Proof.
  intros H. unfold Cache.lastn.
  replace (List.length l - n) with 0 by lia. reflexivity.
Qed.

Lemma lastn_length (A : Type) n (l : list A) :
  List.length (Cache.lastn n l) = Nat.min n (List.length l).
Proof. unfold Cache.lastn. rewrite length_skipn. lia. Qed.

Lemma lastn_snoc_full (A : Type) n (l : list A) (x : A) :
  List.length l = n -> Cache.lastn n (l ++ [x]) = tl (l ++ [x]).
Proof.
  intros H. unfold Cache.lastn. rewrite length_app. simpl.
  replace (List.length l + 1 - n) with 1 by lia.
  destruct (l ++ [x]); reflexivity.
Qed.

Lemma lastn_lastn_app (A : Type) n (a b : list A) :
  Cache.lastn n (Cache.lastn n a ++ b) = Cache.lastn n (a ++ b).
Proof.
  unfold Cache.lastn.
  rewrite !length_app, length_skipn.
  rewrite !skipn_app, length_skipn, skipn_skipn.
  f_equal; f_equal; lia.
Qed.

(** Puts of absent keys keep the last [cap] entries put, in order. *)
Lemma puts_fresh cap (s : list (jstring * V)) m :
  JsMap.size m <= cap -> Cache.all_fresh cap s m ->
  Cache.puts cap s m = Cache.lastn cap (m ++ s).
Proof.
  revert m. induction s as [|[k v] s IH]; intros m Hm Hf; simpl.
  - rewrite app_nil_r. symmetry. now apply lastn_all.
  - destruct Hf as [Hk Hf].
    rewrite IH; [|now apply put_cap_size|exact Hf].
    rewrite put_cap_fresh by assumption.
    replace (m ++ (k, v) :: s) with ((m ++ [(k, v)]) ++ s)
      by (now rewrite <- app_assoc).
    destruct (cap <? S (JsMap.size m)) eqn:Hc.
    + apply Nat.ltb_lt in Hc.
      rewrite <- (lastn_snoc_full (n := cap)) by (unfold JsMap.size in *; lia).
      apply lastn_lastn_app.
    + reflexivity.
Qed.

End WithValues.

End Cache_facts.

Module Cache_claims.

Import JS_facts Cache_facts.

(** C2.  A put into a cache that holds at most [MAX_CACHE] = 1000 entries
    leaves at most 1000 entries; between the [set] and the eviction the map
    holds at most 1001; and a new key put into a cache that holds exactly
    1000 entries evicts the first entry in insertion order and nothing
    else. *)
Theorem put_keeps_capacity (V : Type) (m : Cache.cache V) (k : jstring) (v : V) :
  JsMap.size m <= Cache.MAX_CACHE ->
  JsMap.size (Cache.put k v m) <= Cache.MAX_CACHE
  /\ JsMap.size (JsMap.set k v m) <= S Cache.MAX_CACHE
  /\ (JsMap.size m = Cache.MAX_CACHE -> JsMap.has k m = false ->
      exists k0 v0 rest,
        m = (k0, v0) :: rest /\ Cache.put k v m = rest ++ [(k, v)]).
Proof.
  intros Hm. split; [|split].
  - now apply put_cap_size.
  - rewrite set_size. destruct (JsMap.has k m); lia.
  - intros Hfull Hk. unfold Cache.put.
    rewrite put_cap_fresh by assumption.
    rewrite Hfull.
    replace (Cache.MAX_CACHE <? S Cache.MAX_CACHE) with true
      by (symmetry; apply Nat.ltb_lt; lia).
    destruct m as [|[k0 v0] rest].
    + discriminate Hfull.
    + exists k0, v0, rest. split; reflexivity.
Qed.

Lemma put_keeps_capacity_witness :
  JsMap.size Samples.full_cache <= Cache.MAX_CACHE
  /\ JsMap.size (Cache.put (lit "new") 0 Samples.full_cache) <= Cache.MAX_CACHE
  /\ JsMap.size (JsMap.set (lit "new") 0 Samples.full_cache)
     <= S Cache.MAX_CACHE
  /\ (JsMap.size Samples.full_cache = Cache.MAX_CACHE ->
      JsMap.has (lit "new") Samples.full_cache = false ->
      exists k0 v0 rest,
        Samples.full_cache = (k0, v0) :: rest
        /\ Cache.put (lit "new") 0 Samples.full_cache
           = rest ++ [(lit "new", 0)]).
Proof.
  assert (H : JsMap.size Samples.full_cache <= Cache.MAX_CACHE).
  { apply Nat.leb_le. vm_compute. reflexivity. }
  split; [exact H|].
  exact (@put_keeps_capacity nat Samples.full_cache (lit "new") 0 H).
Defined.

(** C3, as amended.  For every capacity and every sequence of more puts than
    the capacity, each of a key that the cache does not hold when it is put,
    the cache started empty ends with exactly [cap] entries: the last [cap]
    entries put, in the order they were put. *)
Theorem puts_keep_most_recent (V : Type) (cap : nat) (s : list (jstring * V)) :
  cap < List.length s -> Cache.all_fresh cap s [] ->
  JsMap.size (Cache.puts cap s []) = cap
  /\ Cache.puts cap s [] = Cache.lastn cap s
  /\ JsMap.keys (Cache.puts cap s []) = Cache.lastn cap (List.map fst s).
Proof.
  intros Hlen Hf.
  assert (E : Cache.puts cap s [] = Cache.lastn cap s).
  { rewrite puts_fresh; [reflexivity| |exact Hf].
    unfold JsMap.size. simpl. lia. }
  split; [|split].
  - rewrite E. unfold JsMap.size. rewrite lastn_length. lia.
  - exact E.
  - rewrite E. unfold JsMap.keys, Cache.lastn.
    rewrite length_map. symmetry. apply skipn_map.
Qed.

Lemma puts_keep_most_recent_witness :
  1 < List.length Samples.evicted_then_put
  /\ Cache.all_fresh 1 Samples.evicted_then_put []
  /\ JsMap.size (Cache.puts 1 Samples.evicted_then_put []) = 1
  /\ Cache.puts 1 Samples.evicted_then_put []
     = Cache.lastn 1 Samples.evicted_then_put
  /\ JsMap.keys (Cache.puts 1 Samples.evicted_then_put [])
     = Cache.lastn 1 (List.map fst Samples.evicted_then_put).
Proof.
  assert (H1 : 1 < List.length Samples.evicted_then_put) by (simpl; lia).
  assert (H2 : Cache.all_fresh 1 Samples.evicted_then_put []).
  { vm_compute. repeat split. }
  split; [exact H1|]. split; [exact H2|].
  exact (@puts_keep_most_recent nat 1 Samples.evicted_then_put H1 H2).
Defined.

(** C3 as stated fails when keys repeat: three puts of one key into a cache
    of capacity two leave one entry. *)
Lemma puts_repeated_keys_counterexample :
  ~ (forall (cap : nat) (s : list (jstring * nat)),
       cap < List.length s ->
       JsMap.size (Cache.puts cap s []) = cap
       /\ JsMap.keys (Cache.puts cap s []) = Cache.lastn cap (List.map fst s)).
Proof.
  intros H.
  destruct (H 2 Samples.repeated_puts) as [Hsize _]; [simpl; lia|].
  vm_compute in Hsize. discriminate Hsize.
Qed.

(** [handleExplain] writes the cache only through a put of a key that the
    cache does not hold. *)
Lemma handleExplain_puts_absent_key cap term languageId reply c :
  Host.cache_after (Host.handleExplain_cap cap term languageId reply c) = c
  \/ exists detail,
       JsMap.has (Host.cacheKey term languageId) c = false
       /\ Host.cache_after (Host.handleExplain_cap cap term languageId reply c)
          = Cache.put_cap cap (Host.cacheKey term languageId) detail c.
Proof.
  unfold Host.handleExplain_cap.
  destruct (JsMap.has (Host.cacheKey term languageId) c) eqn:Hhas.
  - left. destruct (JsMap.get _ c); reflexivity.
  - destruct reply as [msg|data]; [now left|].
    destruct (Json.get_prop data (lit "detail")) as [detail|]; [|now left].
    destruct (Json.truthy_opt _ && Json.truthy detail)%bool; [|now left].
    right. exists detail. split; [reflexivity|reflexivity].
Qed.

(** The first end-to-end scenario: the first request for a term asks the
    backend and fills the cache, the second is served from the cache.  The
    third: a request that fails leaves the cache as it was. *)
Example explain_twice :
  let reply :=
    Host.Returned
      (Json.JObject [(lit "ok", Json.JBool true);
                     (lit "summary", Json.JString (lit "A closure."));
                     (lit "detail", Json.JString (lit "A closure."))]) in
  let first :=
    Host.handleExplain (lit "closure") (lit "javascript") reply [] in
  let second :=
    Host.handleExplain (lit "closure") (lit "javascript") reply
      (Host.cache_after first) in
  Host.requested first = true
  /\ Host.cache_after first
     = [(Samples.closure_js, Json.JString (lit "A closure."))]
  /\ Host.requested second = false
  /\ Host.shown second
     = Host.ShowResult (lit "closure") (lit "javascript")
         (Json.JString (lit "A closure."))
  /\ Host.cache_after
       (Host.handleExplain (lit "closure") (lit "javascript")
          (Host.Threw (lit "HTTP 500: boom")) [])
     = [].
Proof. vm_compute. repeat split. Qed.

End Cache_claims.

(* ------------------------------------------------------------------ *)
(** ** Blank text is not JSON *)
(* ------------------------------------------------------------------ *)

Module Json_facts.

Import Json.

Lemma tokenize_blank (s : jstring) :
  forallb is_space s = true ->
  tokenize LStart s = None \/ tokenize LStart s = Some [].
Proof.
  induction s as [|c s IH]; intros H; [now right|].
  simpl in H. apply andb_true_iff in H as [Hc Hs].
  cbn [tokenize lex_step]. unfold start_step.
  destruct (is_json_space c) eqn:Ej.
  - destruct (IH Hs) as [->| ->]; [now left|now right].
  - left.
    assert (Hne : forall n : N, is_space n = true -> is_json_space n = false ->
                   (n <> 123 /\ n <> 125 /\ n <> 91 /\ n <> 93 /\ n <> 58
                    /\ n <> 44 /\ n <> 34 /\ n <> 45 /\ n <> 48
                    /\ is_digit n = false /\ n <> 116 /\ n <> 102
                    /\ n <> 110)%N).
    { intros n Hn _. unfold is_space, is_digit in *.
      repeat rewrite orb_true_iff in Hn. rewrite andb_true_iff in Hn.
      rewrite ?N.eqb_eq, ?N.leb_le in Hn.
      repeat split; try lia.
      apply andb_false_iff. rewrite !N.leb_gt. lia. }
    destruct (Hne c Hc Ej) as (H1 & H2 & H3 & H4 & H5 & H6 & H7 & H8 & H9
                               & H10 & H11 & H12 & H13).
    apply N.eqb_neq in H1, H2, H3, H4, H5, H6, H7, H8, H9, H11, H12, H13.
    unfold DQUOTE.
    now rewrite H1, H2, H3, H4, H5, H6, H7, H8, H9, H10, H11, H12, H13.
Qed.

Lemma trimStartBy_nil (A : Type) (p : A -> bool) (s : list A) :
  trimStartBy p s = [] <-> forallb p s = true.
Proof.
  induction s as [|c s IH]; simpl; [tauto|].
  destruct (p c); simpl; [exact IH|].
  split; discriminate.
Qed.

Lemma trim_nil (s : jstring) : trim s = [] <-> forallb is_space s = true.
Proof.
  unfold trim, trimBy, trimEndBy. split.
  - intros H. apply trimStartBy_nil.
    destruct (trimStartBy is_space s) as [|c t] eqn:E; [reflexivity|].
    exfalso.
    assert (Hrev : trimStartBy is_space (rev (c :: t)) = []).
    { apply (f_equal (@rev _)) in H. rewrite rev_involutive in H. exact H. }
    apply trimStartBy_nil in Hrev. rewrite forallb_forall in Hrev.
    assert (Hc : is_space c = true) by (apply Hrev, in_rev; rewrite rev_involutive; now left).
    clear -E Hc. induction s as [|x s IH]; simpl in E; [discriminate|].
    destruct (is_space x) eqn:Ex; [now apply IH|].
    injection E as -> _. congruence.
  - intros H. apply trimStartBy_nil in H. now rewrite H.
Qed.

(** [JSON.parse] rejects every blank text. *)
Lemma blank_not_json (s : jstring) :
  str_truthy (trim s) = false -> JSON_parse s = None.
Proof.
  intros H.
  assert (Hb : forallb is_space s = true).
  { apply trim_nil. destruct (trim s); [reflexivity|discriminate]. }
  unfold JSON_parse. destruct (tokenize_blank s Hb) as [-> | ->]; reflexivity.
Qed.

End Json_facts.

(* ------------------------------------------------------------------ *)
(** ** The stream relay *)
(* ------------------------------------------------------------------ *)

Module Relay_facts.

Import Json Relay JS_facts.

Lemma removelast_app_nonempty (A : Type) (a b : list A) :
  b <> [] -> removelast (a ++ b) = a ++ removelast b.
Proof. intros H. now apply removelast_app. Qed.

Lemma last_app_nonempty (A : Type) (a b : list A) (d : A) :
  b <> [] -> last (a ++ b) d = last b d.
Proof.
  intros H. induction a as [|x a IH]; [reflexivity|].
  simpl. destruct (a ++ b) eqn:E; [|exact IH].
  apply app_eq_nil in E as [_ E]. contradiction.
Qed.

Lemma on_data_eq id buf chunk :
  on_data id buf chunk
  = (trailing (buf ++ chunk),
     flat_map (forward_complete id) (complete_lines (buf ++ chunk))).
Proof. reflexivity. Qed.

(** The buffer never holds a line feed. *)
Lemma on_data_buffer id buf chunk :
  ~ In LF (fst (on_data id buf chunk)).
Proof. rewrite on_data_eq. apply last_split_no_LF. Qed.

(** Feeding chunks to the data handler posts what the complete lines of the
    whole text give, and leaves what follows the last line feed in the
    buffer. *)
Lemma feed_eq id chunks : forall buf,
  ~ In LF buf ->
  feed id buf chunks
  = (trailing (buf ++ List.concat chunks),
     flat_map (forward_complete id)
       (complete_lines (buf ++ List.concat chunks))).
Proof.
  induction chunks as [|c r IH]; intros buf Hbuf.
  - simpl. rewrite app_nil_r. unfold trailing, complete_lines.
    rewrite split_lines_single by assumption. reflexivity.
  - cbn [feed List.concat]. rewrite on_data_eq.
    rewrite IH by apply last_split_no_LF.
    unfold trailing, complete_lines.
    rewrite (app_assoc buf c (List.concat r)).
    rewrite (split_lines_app (buf ++ c) (List.concat r)).
    set (P := split_lines (buf ++ c)).
    set (Q := split_lines (last P [] ++ List.concat r)).
    assert (HQ : Q <> []) by apply split_lines_nonempty.
    rewrite last_app_nonempty by assumption.
    rewrite removelast_app_nonempty by assumption.
    rewrite flat_map_app. reflexivity.
Qed.

(** The messages of a response, whatever its chunks. *)
Lemma relay_eq id chunks :
  streamChatToWebview id chunks
  = flat_map (forward_complete id) (complete_lines (List.concat chunks))
    ++ on_end id (trailing (List.concat chunks)).
Proof.
  unfold streamChatToWebview. rewrite feed_eq by (intros []). reflexivity.
Qed.

(** C1.  However the body of a response is cut into chunks, the relay posts
    the messages it posts when the body arrives as one chunk, in the same
    order; and after the chunks the buffer holds the part of the body that
    follows its last line feed. *)
Theorem relay_chunking (id : option jstring) (chunks : list jstring) :
  streamChatToWebview id chunks = streamChatToWebview id [List.concat chunks]
  /\ fst (feed id [] chunks) = trailing (List.concat chunks).
Proof.
  split.
  - rewrite !relay_eq. simpl. now rewrite app_nil_r.
  - rewrite feed_eq by (intros []). reflexivity.
Qed.

(** The second end-to-end scenario: three records in three chunks, and the
    same bytes cut inside the records. *)
Example relay_three_records :
  streamChatToWebview Samples.m1 [Samples.rec_Hel; Samples.rec_lo; Samples.rec_done]
  = [AiDelta Samples.m1 (JString (lit "Hel"));
     AiDelta Samples.m1 (JString (lit "lo"));
     AiDone Samples.m1 (JString (lit "Hello"))]
  /\ streamChatToWebview Samples.m1
       [firstn 5 Samples.rec_Hel;
        skipn 5 Samples.rec_Hel ++ Samples.rec_lo ++ firstn 3 Samples.rec_done;
        skipn 3 Samples.rec_done]
     = [AiDelta Samples.m1 (JString (lit "Hel"));
        AiDelta Samples.m1 (JString (lit "lo"));
        AiDone Samples.m1 (JString (lit "Hello"))].
Proof. split; vm_compute; reflexivity. Qed.

(** A line that does not parse and is not blank is posted as it is. *)
Lemma forward_complete_unparsed id line :
  str_truthy (trim line) = true -> JSON_parse line = None ->
  forward_complete id line = [AiDelta id (JString line)].
Proof.
  intros Ht Hp. unfold forward_complete, forward_line.
  now rewrite Ht, Hp.
Qed.

(** C5, as amended.  Every complete line of the response that is not blank
    and that [JSON.parse] rejects is posted verbatim as a delta, whatever
    the chunks. *)
Theorem unparsed_line_forwarded (id : option jstring) (chunks : list jstring)
  (line : jstring) :
  In line (complete_lines (List.concat chunks)) ->
  str_truthy (trim line) = true ->
  JSON_parse line = None ->
  In (AiDelta id (JString line)) (streamChatToWebview id chunks).
Proof.
  intros Hin Ht Hp. rewrite relay_eq. apply in_or_app. left.
  apply in_flat_map. exists line. split; [exact Hin|].
  rewrite forward_complete_unparsed by assumption. now left.
Qed.

Lemma unparsed_line_forwarded_witness :
  In (lit "oops") (complete_lines (List.concat [lit "oo"; lit "ps" ++ [LF]]))
  /\ str_truthy (trim (lit "oops")) = true
  /\ JSON_parse (lit "oops") = None
  /\ In (AiDelta Samples.m1 (JString (lit "oops")))
        (streamChatToWebview Samples.m1 [lit "oo"; lit "ps" ++ [LF]]).
Proof.
  assert (H1 : In (lit "oops")
                 (complete_lines (List.concat [lit "oo"; lit "ps" ++ [LF]])))
    by (vm_compute; left; reflexivity).
  assert (H2 : str_truthy (trim (lit "oops")) = true) by reflexivity.
  assert (H3 : JSON_parse (lit "oops") = None) by reflexivity.
  repeat split; try assumption.
  exact (@unparsed_line_forwarded Samples.m1 _ _ H1 H2 H3).
Defined.

(** C5 as stated fails for a blank line: [JSON.parse] rejects it and the
    relay posts nothing for it. *)
Lemma blank_line_dropped_counterexample :
  ~ (forall (id : option jstring) (chunks : list jstring) (line : jstring),
       In line (complete_lines (List.concat chunks)) ->
       JSON_parse line = None ->
       In (AiDelta id (JString line)) (streamChatToWebview id chunks)).
Proof.
  intros H.
  specialize (H Samples.m1 [lit " " ++ [LF]] (lit " ")).
  vm_compute in H. apply H; [left|]; reflexivity.
Qed.




End Relay_facts.

(* ------------------------------------------------------------------ *)
(** ** The panel: pending bubbles *)
(* ------------------------------------------------------------------ *)

Module Panel_facts.

Import Json Relay Panel JS_facts Relay_facts.

Section MapFacts.

Variable V : Type.

Implicit Types (m : JsMap.t V) (k : jstring).

Lemma has_in_keys m k : JsMap.has k m = true <-> In k (JsMap.keys m).
Proof.
  induction m as [|[k' v'] m IH]; simpl.
  - split; [discriminate|intros []].
  - rewrite orb_true_iff, IH, str_eqb_eq. intuition congruence.
Qed.

Lemma delete_keys_incl m k x :
  In x (JsMap.keys (JsMap.delete k m)) -> In x (JsMap.keys m).
Proof.
  induction m as [|[k' v'] m IH]; simpl; [tauto|].
  destruct (str_eqb k k'); simpl; [now right|].
  intros [H|H]; [now left|right; now apply IH].
Qed.

Lemma delete_wf m k : JsMap.wf m -> JsMap.wf (JsMap.delete k m).
Proof.
  unfold JsMap.wf.
  induction m as [|[k' v'] m IH]; simpl; intros H; [exact H|].
  inversion H as [|? ? Hnin Hnd]; subst.
  destruct (str_eqb k k'); [exact Hnd|].
  simpl. constructor; [|now apply IH].
  intros Hin. apply Hnin. now apply delete_keys_incl in Hin.
Qed.

(** A deleted key is gone. *)
Lemma has_delete m k : JsMap.wf m -> JsMap.has k (JsMap.delete k m) = false.
Proof.
  unfold JsMap.wf.
  induction m as [|[k' v'] m IH]; simpl; intros H; [reflexivity|].
  inversion H as [|? ? Hnin Hnd]; subst.
  destruct (str_eqb k k') eqn:E.
  - apply str_eqb_eq in E. subst k'.
    destruct (JsMap.has k m) eqn:Hh; [|reflexivity].
    apply has_in_keys in Hh. contradiction.
  - simpl. rewrite E. now apply IH.
Qed.

Lemma get_absent m k : ~ In k (JsMap.keys m) -> JsMap.get k m = None.
Proof.
  induction m as [|[k' v'] m IH]; simpl; intros H; [reflexivity|].
  destruct (str_eqb k k') eqn:E.
  - apply str_eqb_eq in E. subst. exfalso. apply H. now left.
  - apply IH. intros Hin. apply H. now right.
Qed.

Lemma get_has m k (v : V) : JsMap.get k m = Some v -> JsMap.has k m = true.
Proof.
  induction m as [|[k' v'] m IH]; simpl; [discriminate|].
  destruct (str_eqb k k'); [reflexivity|exact IH].
Qed.

Lemma get_set m k (v : V) j :
  JsMap.get j (JsMap.set k v m)
  = if str_eqb j k then Some v else JsMap.get j m.
Proof.
  induction m as [|[k' v'] m IH]; simpl.
  - destruct (str_eqb j k); reflexivity.
  - destruct (str_eqb k k') eqn:E; simpl.
    + apply str_eqb_eq in E. subst k'.
      destruct (str_eqb j k); reflexivity.
    + rewrite IH. destruct (str_eqb j k') eqn:E'; [|reflexivity].
      apply str_eqb_eq in E'. subst k'.
      destruct (str_eqb j k) eqn:E2; [|reflexivity].
      apply str_eqb_eq in E2. subst. rewrite str_eqb_refl in E. discriminate.
Qed.

Lemma get_delete m k j :
  JsMap.wf m ->
  JsMap.get j (JsMap.delete k m)
  = if str_eqb j k then None else JsMap.get j m.
Proof.
  unfold JsMap.wf.
  induction m as [|[k' v'] m IH]; simpl; intros H.
  - destruct (str_eqb j k); reflexivity.
  - inversion H as [|? ? Hnin Hnd]; subst.
    destruct (str_eqb k k') eqn:E.
    + apply str_eqb_eq in E. subst k'.
      destruct (str_eqb j k) eqn:E2; [|reflexivity].
      apply str_eqb_eq in E2. subst. now apply get_absent.
    + simpl. rewrite IH by assumption.
      destruct (str_eqb j k') eqn:E'; [|reflexivity].
      apply str_eqb_eq in E'. subst k'.
      destruct (str_eqb j k) eqn:E2; [|reflexivity].
      apply str_eqb_eq in E2. subst. rewrite str_eqb_refl in E. discriminate.
Qed.

Lemma set_keys m k (v : V) :
  JsMap.keys (JsMap.set k v m)
  = if JsMap.has k m then JsMap.keys m else JsMap.keys m ++ [k].
Proof.
  induction m as [|[k' v'] m IH]; simpl; [reflexivity|].
  destruct (str_eqb k k') eqn:E; simpl; [reflexivity|].
  unfold JsMap.keys in *. rewrite IH.
  destruct (JsMap.has k m); reflexivity.
Qed.

Lemma set_wf m k (v : V) : JsMap.wf m -> JsMap.wf (JsMap.set k v m).
Proof.
  unfold JsMap.wf. intros H. rewrite set_keys.
  destruct (JsMap.has k m) eqn:E; [exact H|].
  apply NoDup_app; [exact H|constructor; [intros []|constructor]|].
  intros x Hx [<-|[]]. apply has_in_keys in Hx. congruence.
Qed.

End MapFacts.

Lemma nth_error_set_nth (A : Type) (l : list A) n x :
  n < List.length l -> nth_error (set_nth n x l) n = Some x.
Proof.
  revert n. induction l as [|y l IH]; intros [|n] H; simpl in *; try lia.
  - reflexivity.
  - apply IH. lia.
Qed.

(** [pending_bubble] only looks at the pending map. *)
Lemma pending_bubble_ext id w w' :
  pending w = pending w' -> pending_bubble id w = pending_bubble id w'.
Proof. intros H. unfold pending_bubble. now rewrite H. Qed.

Lemma set_body_pending ix c w : pending (set_body ix c w) = pending w.
Proof. unfold set_body. destruct (nth_error (chat w) ix); reflexivity. Qed.

Lemma addMessage_pending r t w w' ix :
  addMessage r t w = Some (w', ix) -> pending w' = pending w.
Proof.
  unfold addMessage. destruct (js_String _); [|discriminate].
  intros H. injection H as <- _. reflexivity.
Qed.

Lemma on_delta_pending id d w : pending (on_delta id d w) = pending w.
Proof.
  unfold on_delta. destruct (pending_bubble id w) as [ix|].
  - destruct (nth_error (chat w) ix) as [[r [s|h]]|]; try reflexivity.
    destruct (js_String _); [apply set_body_pending|reflexivity].
  - destruct (addMessage _ _ w) as [[w' ix]|] eqn:E; [|reflexivity].
    now apply addMessage_pending in E.
Qed.

(** The terminal message closes out its correlation id. *)
Lemma on_done_not_pending id t w :
  JsMap.wf (pending w) -> pending_bubble id (on_done id t w) = None.
Proof.
  intros Hwf. unfold on_done.
  destruct (pending_bubble id w) as [ix|] eqn:Hp.
  - match goal with |- pending_bubble id (drop_pending id ?w1) = None =>
      assert (Hw1 : pending w1 = pending w) end.
    { destruct t; try reflexivity.
      destruct (Webview.renderMarkdown _); [apply set_body_pending|reflexivity]. }
    destruct id as [i|]; [|reflexivity].
    unfold pending_bubble, drop_pending. cbn [pending].
    rewrite Hw1, has_delete by assumption.
    now rewrite andb_false_r.
  - destruct (truthy t); [|exact Hp].
    destruct (addMessage _ _ w) as [[w1 ix]|] eqn:E; [|exact Hp].
    apply addMessage_pending in E.
    rewrite <- Hp.
    apply pending_bubble_ext.
    destruct (Webview.renderMarkdown t); [rewrite set_body_pending|]; exact E.
Qed.

Lemma on_message_wf w m : JsMap.wf (pending w) -> JsMap.wf (pending (on_message w m)).
Proof.
  intros Hwf. destruct m as [id d|id t]; simpl.
  - now rewrite on_delta_pending.
  - unfold on_done.
    destruct (pending_bubble id w) as [ix|].
    + match goal with |- JsMap.wf (pending (drop_pending id ?w1)) =>
        assert (Hw1 : pending w1 = pending w) end.
      { destruct t; try reflexivity.
        destruct (Webview.renderMarkdown _); [apply set_body_pending|reflexivity]. }
      destruct id as [i|]; simpl; rewrite ?Hw1; [now apply delete_wf|exact Hwf].
    + destruct (truthy t); [|exact Hwf].
      destruct (addMessage _ _ w) as [[w1 ix]|] eqn:E; [|exact Hwf].
      apply addMessage_pending in E.
      destruct (Webview.renderMarkdown t); [rewrite set_body_pending|];
        now rewrite E.
Qed.

Lemma deliver_wf ms : forall w,
  JsMap.wf (pending w) -> JsMap.wf (pending (deliver w ms)).
Proof.
  unfold deliver. induction ms as [|m ms IH]; intros w H; simpl; [exact H|].
  apply IH. now apply on_message_wf.
Qed.

Lemma deliver_app w a b : deliver w (a ++ b) = deliver (deliver w a) b.
Proof. unfold deliver. apply fold_left_app. Qed.

(** A text fragment for a pending bubble is appended to its text. *)
Lemma on_delta_appends id w ix r s t :
  pending_bubble id w = Some ix ->
  nth_error (chat w) ix = Some {| role := r; body := Text s |} ->
  pending_bubble id (on_delta id (JString t) w) = Some ix
  /\ nth_error (chat (on_delta id (JString t) w)) ix
     = Some {| role := r; body := Text (s ++ t) |}.
Proof.
  intros Hp Hn. split.
  - rewrite <- Hp. apply pending_bubble_ext, on_delta_pending.
  - unfold on_delta. rewrite Hp, Hn.
    assert (E : js_String (if truthy (JString t) then JString t else JString [])
                = Some t).
    { destruct t; reflexivity. }
    rewrite E. unfold set_body. rewrite Hn. cbn [chat role].
    apply nth_error_set_nth. apply nth_error_Some. now rewrite Hn.
Qed.

Lemma deliver_fragments id ds : forall w ix r s,
  pending_bubble id w = Some ix ->
  nth_error (chat w) ix = Some {| role := r; body := Text s |} ->
  let w' := deliver w (List.map (fun t => AiDelta id (JString t)) ds) in
  pending_bubble id w' = Some ix
  /\ nth_error (chat w') ix
     = Some {| role := r; body := Text (s ++ List.concat ds) |}.
Proof.
  induction ds as [|t ds IH]; intros w ix r s Hp Hn; cbn.
  - rewrite app_nil_r. now split.
  - destruct (@on_delta_appends id w ix r s t Hp Hn) as [Hp' Hn'].
    destruct (IH _ _ _ _ Hp' Hn') as [Hp2 Hn2].
    unfold deliver in *. cbn in *.
    split; [exact Hp2|]. rewrite Hn2. now rewrite <- app_assoc.
Qed.

(** A terminal message with text [null] leaves every bubble as it is. *)
Lemma on_done_null_chat id w : chat (on_done id JNull w) = chat w.
Proof.
  unfold on_done. destruct (pending_bubble id w); [|reflexivity].
  destruct id; reflexivity.
Qed.

(** *** Pending bubbles hold text *)

Lemma nth_error_set_nth_other (A : Type) (l : list A) n k x :
  n <> k -> nth_error (set_nth n x l) k = nth_error l k.
Proof.
  revert n k. induction l as [|y l IH]; intros [|n] [|k] H; simpl;
    try reflexivity; try contradiction.
  apply IH. congruence.
Qed.

Lemma set_body_other ix c w k :
  ix <> k -> nth_error (chat (set_body ix c w)) k = nth_error (chat w) k.
Proof.
  intros H. unfold set_body.
  destruct (nth_error (chat w) ix); [|reflexivity].
  cbn [chat]. now apply nth_error_set_nth_other.
Qed.

Lemma pending_bubble_get id w ix :
  pending_bubble id w = Some ix ->
  exists i, id = Some i /\ JsMap.get i (pending w) = Some ix.
Proof.
  unfold pending_bubble. destruct id as [i|]; [|discriminate].
  destruct (str_truthy i && JsMap.has i (pending w))%bool; [|discriminate].
  intros H. now exists i.
Qed.

Lemma addMessage_chat r t w w' ix :
  addMessage r t w = Some (w', ix) ->
  ix = List.length (chat w)
  /\ exists s, chat w' = chat w ++ [ {| role := r; body := Text s |} ].
Proof.
  unfold addMessage. destruct (js_String _) as [s|]; [|discriminate].
  intros H. injection H as <- <-. split; [reflexivity|]. now exists s.
Qed.

(** A state that differs from a consistent one only in bubbles that are not
    pending, or that still hold text, is consistent. *)
Lemma consistent_same_pending w w' :
  consistent w -> pending w' = pending w ->
  (forall i ix r s,
     JsMap.get i (pending w) = Some ix ->
     nth_error (chat w) ix = Some {| role := r; body := Text s |} ->
     exists r' s', nth_error (chat w') ix
                   = Some {| role := r'; body := Text s' |}) ->
  consistent w'.
Proof.
  intros (Hwf & Htext & Hsep) Hp Hkeep. unfold consistent. rewrite Hp.
  split; [exact Hwf|]. split; [|exact Hsep].
  intros i ix Hi. destruct (Htext i ix Hi) as (r & s & Hn).
  now apply (Hkeep i ix r s).
Qed.

Lemma addMessage_consistent r t w w' ix :
  consistent w -> addMessage r t w = Some (w', ix) -> consistent w'.
Proof.
  intros Hc Ha. pose proof (addMessage_pending _ _ _ Ha) as Hp.
  destruct (addMessage_chat _ _ _ Ha) as (_ & s0 & Hchat).
  eapply consistent_same_pending; [exact Hc|exact Hp|].
  intros i jx r' s' _ Hn. exists r', s'. rewrite Hchat.
  rewrite nth_error_app1; [exact Hn|].
  apply nth_error_Some. now rewrite Hn.
Qed.

Lemma on_delta_consistent id d w : consistent w -> consistent (on_delta id d w).
Proof.
  intros Hc. unfold on_delta.
  destruct (pending_bubble id w) as [ix|] eqn:Hp.
  - destruct (nth_error (chat w) ix) as [[r [s|h]]|] eqn:Hn; try exact Hc.
    destruct (js_String _) as [t|]; [|exact Hc].
    eapply consistent_same_pending; [exact Hc|apply set_body_pending|].
    intros i jx r' s' _ Hj.
    destruct (Nat.eq_dec ix jx) as [<-|Hne].
    + exists r, (s ++ t). unfold set_body. rewrite Hn. cbn [chat role].
      apply nth_error_set_nth. apply nth_error_Some. now rewrite Hn.
    + exists r', s'. now rewrite set_body_other.
  - destruct (addMessage _ _ w) as [[w' ix]|] eqn:E; [|exact Hc].
    eapply addMessage_consistent; [exact Hc|exact E].
Qed.

Lemma drop_pending_consistent id w ix :
  consistent w -> pending_bubble id w = Some ix ->
  forall w1, pending w1 = pending w ->
    (forall k, k <> ix -> nth_error (chat w1) k = nth_error (chat w) k) ->
    consistent (drop_pending id w1).
Proof.
  intros (Hwf & Htext & Hsep) Hp w1 Hp1 Hchat.
  destruct (pending_bubble_get _ _ Hp) as (i & -> & Hi).
  unfold consistent, drop_pending. cbn [pending chat]. rewrite Hp1.
  split; [now apply delete_wf|]. split.
  - intros j jx Hj. rewrite get_delete in Hj by assumption.
    destruct (str_eqb j i) eqn:E; [discriminate|].
    destruct (Htext j jx Hj) as (r & s & Hn). exists r, s.
    rewrite Hchat; [exact Hn|].
    intros ->. apply str_eqb_neq in E. apply E. now apply (Hsep j i ix).
  - intros j k jx Hj Hk. rewrite get_delete in Hj, Hk by assumption.
    destruct (str_eqb j i); [discriminate|].
    destruct (str_eqb k i); [discriminate|].
    now apply (Hsep j k jx).
Qed.

Lemma on_done_consistent id t w : consistent w -> consistent (on_done id t w).
Proof.
  intros Hc. unfold on_done.
  destruct (pending_bubble id w) as [ix|] eqn:Hp.
  - eapply drop_pending_consistent; [exact Hc|exact Hp| |].
    + destruct t; try reflexivity.
      destruct (Webview.renderMarkdown _); [apply set_body_pending|reflexivity].
    + intros k Hk. destruct t; try reflexivity.
      destruct (Webview.renderMarkdown _); [|reflexivity].
      apply set_body_other. congruence.
  - destruct (truthy t); [|exact Hc].
    destruct (addMessage _ _ w) as [[w1 ix]|] eqn:E; [|exact Hc].
    assert (Hc1 : consistent w1)
      by (eapply addMessage_consistent; [exact Hc|exact E]).
    destruct (Webview.renderMarkdown t) as [h|]; [|exact Hc1].
    destruct (addMessage_chat _ _ _ E) as (-> & s0 & Hchat).
    pose proof (addMessage_pending _ _ _ E) as Hp1.
    eapply consistent_same_pending; [exact Hc1|apply set_body_pending|].
    intros i jx r' s' Hi Hn. exists r', s'.
    rewrite set_body_other; [exact Hn|].
    (* the new bubble is not pending: pending bubbles are older *)
    intros <-. rewrite Hp1 in Hi.
    destruct Hc as (_ & Htext & _).
    destruct (Htext i _ Hi) as (r2 & s2 & Hold).
    assert (Hlt : List.length (chat w) < List.length (chat w))
      by (apply nth_error_Some; now rewrite Hold).
    lia.
Qed.

Lemma handleSend_consistent val w :
  consistent w -> consistent (fst (handleSend val w)).
Proof.
  intros Hc. unfold handleSend.
  destruct (str_truthy val); [|exact Hc].
  destruct Hc as (Hwf & Htext & Hsep).
  cbn [fst]. unfold consistent. cbn [pending chat].
  set (id := fresh_id (counter w + 1)).
  set (n := S (List.length (chat w))).
  assert (Hold : forall i ix, JsMap.get i (pending w) = Some ix ->
                              ix < List.length (chat w)).
  { intros i ix Hi. destruct (Htext i ix Hi) as (r & s & Hn).
    apply nth_error_Some. now rewrite Hn. }
  split; [now apply set_wf|]. split.
  - intros i ix. rewrite get_set.
    destruct (str_eqb i id).
    + intros E. injection E as <-.
      exists (lit "ai"), [ELLIPSIS]. unfold n.
      rewrite nth_error_app2 by lia.
      replace (S (List.length (chat w)) - List.length (chat w)) with 1 by lia.
      reflexivity.
    + intros Hi. destruct (Htext i ix Hi) as (r & s & Hn). exists r, s.
      rewrite nth_error_app1; [exact Hn|now apply (Hold i)].
  - intros i j ix. rewrite !get_set.
    destruct (str_eqb i id) eqn:Ei, (str_eqb j id) eqn:Ej.
    + intros _ _. apply str_eqb_eq in Ei, Ej. congruence.
    + intros E Hj. injection E as <-. apply Hold in Hj. unfold n in Hj. lia.
    + intros Hi E. injection E as <-. apply Hold in Hi. unfold n in Hi. lia.
    + apply Hsep.
Qed.

Lemma reachable_consistent w : reachable w -> consistent w.
Proof.
  induction 1 as [|w val _ IH|w m _ IH].
  - unfold consistent, initial. cbn [pending chat].
    split; [constructor|]. split; intros; discriminate.
  - now apply handleSend_consistent.
  - destruct m; [now apply on_delta_consistent|now apply on_done_consistent].
Qed.

(** In every state the panel reaches, a pending bubble holds text: the
    listener never reads the text of a bubble that holds markup. *)
Lemma pending_holds_text w id ix :
  reachable w -> pending_bubble id w = Some ix ->
  exists r s, nth_error (chat w) ix = Some {| role := r; body := Text s |}.
Proof.
  intros Hr Hp. destruct (reachable_consistent Hr) as (_ & Htext & _).
  destruct (pending_bubble_get _ _ Hp) as (i & _ & Hi).
  now apply (Htext i).
Qed.

End Panel_facts.

(* ------------------------------------------------------------------ *)
(** ** A request that fails, and a terminal record with empty text *)
(* ------------------------------------------------------------------ *)

Module Stream_claims.

Import Json Relay Panel JS_facts Json_facts Relay_facts Panel_facts.

Lemma run_events_app id a : forall s b,
  run_events id s (a ++ b)
  = let '(s1, out1) := run_events id s a in
    let '(s2, out2) := run_events id s1 b in
    (s2, out1 ++ out2).
Proof.
  induction a as [|ev a IH]; intros s b; cbn [app run_events].
  - destruct (run_events id s b). reflexivity.
  - destruct (on_event id s ev) as [s1 o1].
    rewrite IH.
    destruct (run_events id s1 a) as [s2 o2].
    destruct (run_events id s2 b) as [s3 o3].
    now rewrite app_assoc.
Qed.

(** Data events run the data handler and leave the promise as it is. *)
Lemma run_events_data id chunks : forall s,
  run_events id s (List.map Data chunks)
  = ({| buffer := fst (feed id (buffer s) chunks); settled := settled s |},
     snd (feed id (buffer s) chunks)).
Proof.
  induction chunks as [|c r IH]; intros s; cbn [List.map run_events feed].
  - destruct s. reflexivity.
  - cbn [on_event].
    destruct (on_data id (buffer s) c) as [b1 o1].
    rewrite IH. cbn [buffer settled].
    destruct (feed id b1 r) as [b2 o2]. reflexivity.
Qed.

Lemma filter_done_deltas (ms : list message) :
  forallb is_delta ms = true -> filter is_done ms = [].
Proof.
  induction ms as [|m ms IH]; simpl; intros H; [reflexivity|].
  apply andb_true_iff in H as [Hm Hr].
  unfold is_done at 1. rewrite Hm. simpl. now apply IH.
Qed.

(** C4.  When the request fails after some chunks, and the messages posted
    for these chunks were all deltas, the host posts these deltas, then a
    delta with the error text, then one terminal message with text [null],
    the only terminal message; the promise is rejected; and once the
    webview has handled them the correlation id is not pending.  When the
    deltas carried strings, the pending bubble shows its text followed by
    them and by the error text. *)
Theorem stream_failure_closes_message
  (id : option jstring) (chunks : list jstring) (e : js_error) (w : webview) :
  let delivered := snd (feed id [] chunks) in
  let result := handle_user_message id (List.map Data chunks ++ [ReqError e]) in
  forallb is_delta delivered = true ->
  JsMap.wf (pending w) ->
  snd result
  = delivered ++ [AiDelta id (JString (error_text e)); AiDone id JNull]
  /\ settled (fst result) = Rejected e
  /\ List.length (filter is_done (snd result)) = 1
  /\ pending_bubble id (deliver w (snd result)) = None
  /\ (forall ix r s ds,
        pending_bubble id w = Some ix ->
        nth_error (chat w) ix = Some {| role := r; body := Text s |} ->
        delivered = List.map (fun t => AiDelta id (JString t)) ds ->
        nth_error (chat (deliver w (snd result))) ix
        = Some {| role := r;
                  body := Text (s ++ List.concat ds ++ error_text e) |}).
Proof.
  intros delivered result Hd Hwf.
  assert (Hres : result
                 = ({| buffer := fst (feed id [] chunks); settled := Rejected e |},
                    delivered ++ on_reject id e)).
  { unfold result, handle_user_message. rewrite run_events_app.
    rewrite run_events_data. reflexivity. }
  rewrite Hres. cbn [fst snd settled]. unfold on_reject.
  split; [reflexivity|]. split; [reflexivity|]. split; [|split].
  - rewrite filter_app, filter_done_deltas by assumption. reflexivity.
  - replace (delivered ++ [AiDelta id (JString (error_text e)); AiDone id JNull])
      with ((delivered ++ [AiDelta id (JString (error_text e))])
            ++ [AiDone id JNull])
      by (now rewrite <- app_assoc).
    rewrite deliver_app. cbn.
    apply on_done_not_pending. now apply deliver_wf.
  - intros ix r s ds Hp Hn Hds.
    rewrite deliver_app. rewrite Hds.
    destruct (@deliver_fragments id ds w ix r s Hp Hn) as [Hp1 Hn1].
    cbn zeta in Hp1, Hn1.
    set (w1 := deliver w (List.map (fun t => AiDelta id (JString t)) ds)) in *.
    destruct (@on_delta_appends id w1 ix r (s ++ List.concat ds)
                (error_text e) Hp1 Hn1) as [_ Hn2].
    cbn. rewrite on_done_null_chat. rewrite Hn2.
    now rewrite <- app_assoc.
Qed.

Lemma stream_failure_closes_message_witness :
  forallb is_delta (snd (feed Samples.m1 [] [Samples.rec_Hel])) = true
  /\ JsMap.wf (pending Samples.sent)
  /\ snd (handle_user_message Samples.m1
            (List.map Data [Samples.rec_Hel] ++ [ReqError Samples.reset]))
     = [AiDelta Samples.m1 (JString (lit "Hel"));
        AiDelta Samples.m1
          (JString (CROSS :: lit " Backend error: read ECONNRESET"));
        AiDone Samples.m1 JNull]
  /\ pending_bubble Samples.m1
       (deliver Samples.sent
          (snd (handle_user_message Samples.m1
                  (List.map Data [Samples.rec_Hel] ++ [ReqError Samples.reset]))))
     = None
  /\ nth_error
       (chat (deliver Samples.sent
                (snd (handle_user_message Samples.m1
                        (List.map Data [Samples.rec_Hel]
                         ++ [ReqError Samples.reset]))))) 2
     = Some {| role := lit "ai";
               body := Text ([ELLIPSIS] ++ List.concat [lit "Hel"]
                             ++ error_text Samples.reset) |}.
Proof.
  assert (H1 : forallb is_delta (snd (feed Samples.m1 [] [Samples.rec_Hel]))
               = true) by (vm_compute; reflexivity).
  assert (H2 : JsMap.wf (pending Samples.sent)).
  { unfold JsMap.wf. vm_compute. constructor; [intros []|constructor]. }
  destruct (@stream_failure_closes_message Samples.m1 [Samples.rec_Hel]
              Samples.reset Samples.sent H1 H2)
    as (Hposted & _ & _ & Hclosed & Hbubble).
  split; [exact H1|]. split; [exact H2|]. split; [exact Hposted|].
  split; [exact Hclosed|].
  apply (Hbubble 2 (lit "ai") [ELLIPSIS] [lit "Hel"]);
    vm_compute; reflexivity.
Defined.

(** A record without [delta], with a truthy [done] and the empty string as
    [text], is posted as a terminal message with text [null]. *)
Lemma empty_text_is_null fields :
  get_prop (JObject fields) (lit "text") = Some (JString []) ->
  or_null (get_prop (JObject fields) (lit "text")) = JNull.
Proof. intros ->. reflexivity. Qed.

(** C9.  For a line that is a record without [delta], with a truthy [done]
    and the empty string as [text], both handlers post the terminal message
    with text [null]; the webview then leaves the pending bubble with the
    text accumulated from the fragments and closes out the id.  Had the
    empty string been posted, the bubble would have been replaced by the
    (empty) rendering of it. *)
Theorem empty_final_text_keeps_fragments
  (id : option jstring) (line : jstring) (fields : list (jstring * json))
  (w : webview) (ix : nat) (r s : jstring) :
  JSON_parse line = Some (JObject fields) ->
  get_prop (JObject fields) (lit "delta") = None ->
  truthy_opt (get_prop (JObject fields) (lit "done")) = true ->
  get_prop (JObject fields) (lit "text") = Some (JString []) ->
  JsMap.wf (pending w) ->
  pending_bubble id w = Some ix ->
  nth_error (chat w) ix = Some {| role := r; body := Text s |} ->
  forward_line id line = [AiDone id JNull]
  /\ on_end id line = [AiDone id JNull]
  /\ nth_error (chat (deliver w (forward_line id line))) ix
     = Some {| role := r; body := Text s |}
  /\ pending_bubble id (deliver w (forward_line id line)) = None
  /\ nth_error (chat (on_done id (JString []) w)) ix
     = Some {| role := r; body := Html [] |}.
Proof.
  intros Hparse Hdelta Hdone Htext Hwf Hp Hn.
  assert (Hf : forward_line id line = [AiDone id JNull]).
  { unfold forward_line. rewrite Hparse, Hdelta, Hdone.
    now rewrite empty_text_is_null. }
  assert (Hnb : str_truthy (trim line) = true).
  { destruct (str_truthy (trim line)) eqn:E; [reflexivity|].
    apply blank_not_json in E. congruence. }
  split; [exact Hf|]. split; [|split; [|split]].
  - unfold on_end. rewrite Hnb, Hparse, Hdelta, Hdone.
    now rewrite empty_text_is_null.
  - rewrite Hf. cbn. now rewrite on_done_null_chat.
  - rewrite Hf. cbn. now apply on_done_not_pending.
  - unfold on_done. rewrite Hp. cbn.
    assert (Hc : chat (drop_pending id (set_body ix (Html []) w))
                 = chat (set_body ix (Html []) w)) by (destruct id; reflexivity).
    rewrite Hc. unfold set_body. rewrite Hn. cbn [chat role].
    apply nth_error_set_nth. apply nth_error_Some. now rewrite Hn.
Qed.

Lemma empty_final_text_keeps_fragments_witness :
  pending_bubble Samples.m1 Samples.streaming = Some 2
  /\ forward_line Samples.m1 Samples.done_empty_text
     = [AiDone Samples.m1 JNull]
  /\ nth_error
       (chat (deliver Samples.streaming
                (forward_line Samples.m1 Samples.done_empty_text))) 2
     = Some {| role := lit "ai"; body := Text (ELLIPSIS :: lit "Hello") |}
  /\ pending_bubble Samples.m1
       (deliver Samples.streaming
          (forward_line Samples.m1 Samples.done_empty_text)) = None.
Proof.
  assert (Hparse : JSON_parse Samples.done_empty_text
                   = Some (JObject [(lit "done", JBool true);
                                    (lit "text", JString [])]))
    by (vm_compute; reflexivity).
  assert (Hwf : JsMap.wf (pending Samples.streaming)).
  { unfold JsMap.wf. vm_compute. constructor; [intros []|constructor]. }
  assert (Hp : pending_bubble Samples.m1 Samples.streaming = Some 2)
    by (vm_compute; reflexivity).
  assert (Hn : nth_error (chat Samples.streaming) 2
               = Some {| role := lit "ai";
                         body := Text (ELLIPSIS :: lit "Hello") |})
    by (vm_compute; reflexivity).
  destruct (@empty_final_text_keeps_fragments Samples.m1
              Samples.done_empty_text _ Samples.streaming 2 (lit "ai")
              (ELLIPSIS :: lit "Hello")
              Hparse eq_refl eq_refl eq_refl Hwf Hp Hn)
    as (Hf & _ & Hkept & Hclosed & _).
  repeat split; assumption.
Defined.

End Stream_claims.

(* ------------------------------------------------------------------ *)
(** ** The backend's validation *)
(* ------------------------------------------------------------------ *)

Module Backend_facts.

Import Json Backend.

Lemma invalid_text_string (limit : N) (s : jstring) :
  invalid_text limit (Some (JString s))
  = (negb (str_truthy s) || N.ltb limit (N.of_nat (List.length s)))%bool.
Proof. unfold invalid_text. simpl. now rewrite orb_false_r. Qed.

(** A text within the limit passes, unless it is empty. *)
Lemma valid_text (limit : N) (s : jstring) :
  (0 < N.of_nat (List.length s) <= limit)%N ->
  invalid_text limit (Some (JString s)) = false.
Proof.
  intros [Hpos Hle]. rewrite invalid_text_string.
  destruct s; [simpl in Hpos; lia|]. simpl negb. simpl orb.
  apply N.ltb_ge. exact Hle.
Qed.

(** What the validation rejects. *)
Lemma invalid_text_cases (limit : N) (v : option json) :
  v = None \/ is_string v = false \/ (limit < text_length v)%N ->
  invalid_text limit v = true.
Proof.
  unfold invalid_text. intros [->|[H|H]].
  - reflexivity.
  - rewrite H. simpl. now rewrite orb_true_r.
  - apply N.ltb_lt in H. rewrite H. now rewrite orb_true_r.
Qed.

Lemma model_error_status calls : status_of (response (model_error calls)) = 500%N.
Proof. reflexivity. Qed.

(** C8.  [/v1/explain] does not answer 400 to a query of exactly 120
    characters, and answers 200 with the model's text when the key is set,
    no language is given and the model answers; it answers 400 with
    [{ok:false, error}] and without a call to the model when the query is
    missing, is not a string or is longer than 120 characters.
    [/v1/chat-stream] does the same for its message with the limit 20000. *)
Theorem request_length_bounds
  (body : option json) (apiKey : option jstring)
  (generate : jstring -> option jstring) :
  let query := get_prop (body_or_empty body) (lit "query") in
  let languageId := get_prop (body_or_empty body) (lit "languageId") in
  let message := get_prop (body_or_empty body) (lit "message") in
  (forall q, query = Some (JString q) -> text_length query = 120%N ->
     status_of (response (explain body apiKey generate)) <> 400%N
     /\ forall k ks text,
          apiKey = Some (k :: ks) -> languageId = None ->
          generate (explain_prompt q (lit "general") (lit "language")) = Some text ->
          model_calls (explain body apiKey generate)
          = [explain_prompt q (lit "general") (lit "language")]
          /\ status_of (response (explain body apiKey generate)) = 200%N)
  /\ (query = None \/ is_string query = false \/ (120 < text_length query)%N ->
      explain body apiKey generate = failure 400 "Invalid 'query'.")
  /\ (forall m, message = Some (JString m) -> text_length message = 20000%N ->
      status_of (response (chat_stream body apiKey generate)) <> 400%N)
  /\ (message = None \/ is_string message = false
      \/ (20000 < text_length message)%N ->
      chat_stream body apiKey generate = failure 400 "Invalid 'message'.").
Proof.
  intros query languageId message.
  split; [|split; [|split]].
  - intros q Hq Hlen. unfold explain. fold query. fold languageId.
    rewrite Hq in *. simpl in Hlen.
    rewrite valid_text by lia.
    split.
    + destruct apiKey as [[|k ks]|]; try discriminate.
      destruct (or_text languageId "general"); [|discriminate].
      destruct (or_text languageId "language"); [|discriminate].
      destruct (generate _); discriminate.
    + intros k ks text -> Hl Hg. rewrite Hl. cbn [or_text].
      rewrite Hg. split; reflexivity.
  - intros H. unfold explain. fold query.
    now rewrite invalid_text_cases.
  - intros m Hm Hlen. unfold chat_stream. fold message.
    rewrite Hm in *. simpl in Hlen.
    rewrite valid_text by lia.
    destruct apiKey as [[|k ks]|]; try discriminate.
    destruct (generate _); discriminate.
  - intros H. unfold chat_stream. fold message.
    now rewrite invalid_text_cases.
Qed.

Lemma request_length_bounds_witness :
  status_of (response (explain (Samples.body_with "query" 120)
                         Samples.api_key Samples.canned_model)) = 200%N
  /\ explain (Samples.body_with "query" 121) Samples.api_key
       Samples.canned_model
     = failure 400 "Invalid 'query'."
  /\ status_of (response (chat_stream (Samples.body_with "message" 20000)
                            Samples.api_key Samples.canned_model)) <> 400%N
  /\ chat_stream (Samples.body_with "message" 20001) Samples.api_key
       Samples.canned_model
     = failure 400 "Invalid 'message'.".
Proof.
  split; [|split; [|split]].
  - destruct (@request_length_bounds (Samples.body_with "query" 120)
                Samples.api_key Samples.canned_model) as (Hok & _).
    assert (Hlen : text_length
                     (get_prop (body_or_empty (Samples.body_with "query" 120))
                        (lit "query")) = 120%N)
      by (vm_compute; reflexivity).
    destruct (Hok (repeat 97%N (N.to_nat 120)) eq_refl Hlen) as [_ H200].
    exact (proj2 (H200 _ _ _ eq_refl eq_refl eq_refl)).
  - destruct (@request_length_bounds (Samples.body_with "query" 121)
                Samples.api_key Samples.canned_model) as (_ & Hbad & _).
    apply Hbad. right. right. vm_compute. reflexivity.
  - destruct (@request_length_bounds (Samples.body_with "message" 20000)
                Samples.api_key Samples.canned_model) as (_ & _ & Hok & _).
    assert (Hlen : text_length
                     (get_prop (body_or_empty (Samples.body_with "message" 20000))
                        (lit "message")) = 20000%N)
      by (vm_compute; reflexivity).
    exact (Hok (repeat 97%N (N.to_nat 20000)) eq_refl Hlen).
  - destruct (@request_length_bounds (Samples.body_with "message" 20001)
                Samples.api_key Samples.canned_model) as (_ & _ & _ & Hbad).
    apply Hbad. right. right. vm_compute. reflexivity.
Defined.

(** The pieces of the stream make up the text: the fuel given by
    [chat_stream] is enough. *)
Lemma pieces_concat (fuel : nat) : forall text : jstring,
  List.length text <= fuel -> List.concat (pieces fuel text) = text.
Proof.
  induction fuel as [|f IH]; intros [|c t] H; try reflexivity.
  - simpl in H. lia.
  - cbn [pieces List.concat].
    rewrite IH; [apply firstn_skipn|].
    rewrite length_skipn. simpl in *. lia.
Qed.

(** The stream the backend writes for a short answer, relayed in the chunks
    the backend wrote: one delta with the text, then the terminal message
    with the text. *)
Example backend_stream_relayed :
  match response (chat_stream (Samples.body_with "message" 3) Samples.api_key
                    Samples.canned_model) with
  | Ndjson writes =>
      Relay.streamChatToWebview Samples.m1 writes
      = [Relay.AiDelta Samples.m1 (JString (lit "**A closure** keeps its scope."));
         Relay.AiDone Samples.m1 (JString (lit "**A closure** keeps its scope."))]
  | JsonReply _ _ => False
  end.
Proof. vm_compute. reflexivity. Qed.

End Backend_facts.

(* ------------------------------------------------------------------ *)
(** ** The renderer *)
(* ------------------------------------------------------------------ *)

Module Webview_facts.

Import Json Webview.

(** *** The renderer commutes with a change of marks *)

Section Naturality.

Variables A B : Type.
Variable codeA : A -> char.
Variables entA mkA : char -> A.
Variable codeB : B -> char.
Variables entB mkB : char -> B.
Variable h : A -> B.

Hypothesis h_code : forall a, codeB (h a) = codeA a.
Hypothesis h_ent : forall c, h (entA c) = entB c.
Hypothesis h_mk : forall c, h (mkA c) = mkB c.

Lemma entity_map s : List.map h (entity entA s) = entity entB s.
Proof.
  unfold entity. rewrite map_map. apply map_ext. exact h_ent.
Qed.

Lemma markup_map s : List.map h (markup mkA s) = markup mkB s.
Proof.
  unfold markup. rewrite map_map. apply map_ext. exact h_mk.
Qed.

Lemma replace_char_map c repl s :
  List.map h (replace_char codeA c repl s)
  = replace_char codeB c (List.map h repl) (List.map h s).
Proof.
  unfold replace_char. induction s as [|a s IH]; [reflexivity|].
  simpl. rewrite map_app, IH, h_code.
  destruct (N.eqb (codeA a) c); reflexivity.
Qed.

Lemma escapeHtml_map s :
  List.map h (escapeHtml codeA entA s) = escapeHtml codeB entB (List.map h s).
Proof.
  unfold escapeHtml. now rewrite !replace_char_map, !entity_map.
Qed.

Lemma span_map p s :
  span codeB p (List.map h s)
  = (List.map h (fst (span codeA p s)), List.map h (snd (span codeA p s))).
Proof.
  induction s as [|a s IH]; [reflexivity|].
  simpl. rewrite h_code. destruct (p (codeA a)); [|reflexivity].
  rewrite IH. destruct (span codeA p s). reflexivity.
Qed.

Lemma after_fence_map s :
  after_fence codeB (List.map h s) = option_map (List.map h) (after_fence codeA s).
Proof.
  destruct s as [|a [|b [|c r]]]; try reflexivity.
  simpl. rewrite !h_code.
  destruct (_ && _)%bool; reflexivity.
Qed.

Lemma until_fence_map s :
  until_fence codeB (List.map h s) = option_map (List.map h) (until_fence codeA s).
Proof.
  induction s as [|a s IH]; [reflexivity|].
  cbn [until_fence List.map].
  change (h a :: List.map h s) with (List.map h (a :: s)).
  rewrite after_fence_map.
  destruct (after_fence codeA (a :: s)); [reflexivity|].
  cbn [option_map]. rewrite IH.
  destruct (until_fence codeA s); reflexivity.
Qed.

Lemma trimStartBy_map s :
  trimStartBy (fun b => is_space (codeB b)) (List.map h s)
  = List.map h (trimStartBy (fun a => is_space (codeA a)) s).
Proof.
  induction s as [|a s IH]; [reflexivity|].
  simpl. rewrite h_code. destruct (is_space (codeA a)); [exact IH|reflexivity].
Qed.

Lemma trimBy_map s :
  trimBy (fun b => is_space (codeB b)) (List.map h s)
  = List.map h (trimBy (fun a => is_space (codeA a)) s).
Proof.
  unfold trimBy, trimEndBy.
  now rewrite trimStartBy_map, <- map_rev, trimStartBy_map, map_rev.
Qed.

Lemma code_block_map lang body :
  List.map h (code_block codeA entA mkA lang body)
  = code_block codeB entB mkB (List.map h lang) (List.map h body).
Proof.
  unfold code_block.
  rewrite !map_app, !markup_map, replace_char_map, entity_map, trimBy_map.
  destruct lang; [rewrite markup_map|]; reflexivity.
Qed.

(** What a change of marks does to the result of a pattern. *)
Definition map_match (r : option (list A * nat)) : option (list B * nat) :=
  match r with
  | Some (repl, n) => Some (List.map h repl, n)
  | None => None
  end.

Lemma match_fence_map s :
  match_fence codeB entB mkB (List.map h s)
  = map_match (match_fence codeA entA mkA s).
Proof.
  unfold match_fence. rewrite after_fence_map.
  destruct (after_fence codeA s) as [s1|]; [|reflexivity].
  cbn [option_map]. rewrite span_map.
  destruct (span codeA is_word s1) as [lang s2]. cbn [fst snd].
  destruct s2 as [|nl s3]; [reflexivity|].
  cbn [List.map]. rewrite h_code.
  destruct (N.eqb (codeA nl) LF); [|reflexivity].
  rewrite until_fence_map.
  destruct (until_fence codeA s3) as [body|]; [|reflexivity].
  cbn [option_map map_match]. now rewrite code_block_map, !length_map.
Qed.

Lemma match_inline_map s :
  match_inline codeB mkB (List.map h s) = map_match (match_inline codeA mkA s).
Proof.
  unfold match_inline. destruct s as [|a s1]; [reflexivity|].
  cbn [List.map]. rewrite h_code.
  destruct (N.eqb (codeA a) BACKTICK); [|reflexivity].
  rewrite span_map.
  destruct (span codeA _ s1) as [body s2]. cbn [fst snd].
  destruct body as [|x body]; [reflexivity|].
  destruct s2 as [|b s2]; [reflexivity|].
  cbn [List.map]. rewrite h_code.
  destruct (N.eqb (codeA b) BACKTICK); [|reflexivity].
  cbn [map_match]. rewrite !map_app, !markup_map.
  cbn [List.map List.length]. now rewrite length_map.
Qed.

Lemma match_paragraph_map s :
  match_paragraph codeB mkB (List.map h s)
  = map_match (match_paragraph codeA mkA s).
Proof.
  unfold match_paragraph. rewrite span_map.
  destruct (span codeA _ s) as [run rest]. cbn [fst snd].
  rewrite length_map.
  destruct (2 <=? List.length run); [|reflexivity].
  cbn [map_match]. now rewrite markup_map.
Qed.

Lemma replace_matches_map mA mB :
  (forall s, mB (List.map h s) = map_match (mA s)) ->
  forall s skip,
    List.map h (replace_matches mA skip s)
    = replace_matches mB skip (List.map h s).
Proof.
  intros Hm. induction s as [|a s IH]; intros skip; [reflexivity|].
  cbn [replace_matches List.map].
  destruct skip as [|k]; [|apply IH].
  change (h a :: List.map h s) with (List.map h (a :: s)).
  rewrite Hm.
  destruct (mA (a :: s)) as [[repl n]|]; cbn [map_match].
  - now rewrite map_app, IH.
  - cbn [List.map]. now rewrite IH.
Qed.

Lemma substitute_map s :
  List.map h (substitute codeA entA mkA s)
  = substitute codeB entB mkB (List.map h s).
Proof.
  unfold substitute.
  rewrite !map_app, !markup_map, replace_char_map, markup_map.
  rewrite replace_matches_map with (mB := match_paragraph codeB mkB)
    by apply match_paragraph_map.
  rewrite replace_matches_map with (mB := match_inline codeB mkB)
    by apply match_inline_map.
  rewrite replace_matches_map with (mB := match_fence codeB entB mkB)
    by apply match_fence_map.
  reflexivity.
Qed.

Lemma render_map s :
  List.map h (render codeA entA mkA s) = render codeB entB mkB (List.map h s).
Proof. unfold render. now rewrite substitute_map, escapeHtml_map. Qed.

End Naturality.

(** *** Every character of the rendering is one of the text or one the
        renderer writes *)

Section Provenance.

(** Reads the replacement out of the result of a pattern, without
    unfolding it. *)
Ltac take_replacement E :=
  apply (f_equal (fun o : option (list _ * nat) =>
                    match o with Some (r, _) => r | None => nil end)) in E;
  cbv beta iota in E; rewrite <- E; clear E.

Variable A : Type.
Variable code : A -> char.
Variables ent mk : char -> A.
Variable P : A -> Prop.

Hypothesis P_mk : forall c, P (mk c).
Hypothesis P_quot : Forall P (entity ent "&quot;").

Lemma markup_ok s : Forall P (markup mk s).
Proof. unfold markup. apply Forall_map, Forall_forall. intros; apply P_mk. Qed.

Lemma replace_char_ok c repl s :
  Forall P repl -> Forall P s -> Forall P (replace_char code c repl s).
Proof.
  intros Hr Hs. unfold replace_char. apply Forall_flat_map.
  apply Forall_forall. intros a Ha.
  destruct (N.eqb (code a) c); [exact Hr|].
  constructor; [|constructor].
  rewrite Forall_forall in Hs. now apply Hs.
Qed.

Lemma span_ok p s :
  Forall P s -> Forall P (fst (span code p s)) /\ Forall P (snd (span code p s)).
Proof.
  induction s as [|a s IH]; intros H; [now split|].
  simpl. inversion H as [|? ? Ha Hs]; subst.
  destruct (p (code a)); [|now split].
  destruct (IH Hs) as [H1 H2]. destruct (span code p s). simpl in *.
  split; [now constructor|exact H2].
Qed.

Lemma after_fence_ok s r :
  Forall P s -> after_fence code s = Some r -> Forall P r.
Proof.
  destruct s as [|a [|b [|c t]]]; try discriminate.
  simpl. intros H. destruct (_ && _)%bool; [|discriminate].
  intros E. injection E as <-.
  inversion H as [|? ? _ Hb]; inversion Hb as [|? ? _ Hc];
    now inversion Hc.
Qed.

Lemma until_fence_ok s body :
  Forall P s -> until_fence code s = Some body -> Forall P body.
Proof.
  revert body. induction s as [|a s IH]; intros body H; [discriminate|].
  cbn [until_fence]. destruct (after_fence code (a :: s)).
  - intros E. injection E as <-. constructor.
  - destruct (until_fence code s) as [b|]; [|discriminate].
    intros E. injection E as <-.
    inversion H; subst. constructor; [assumption|now apply IH].
Qed.

Lemma trimStartBy_ok (p : A -> bool) s :
  Forall P s -> Forall P (trimStartBy p s).
Proof.
  induction s as [|a s IH]; intros H; [constructor|].
  simpl. destruct (p a); [|exact H].
  inversion H; subst. now apply IH.
Qed.

Lemma trimBy_ok (p : A -> bool) s : Forall P s -> Forall P (trimBy p s).
Proof.
  intros H. unfold trimBy, trimEndBy.
  apply Forall_rev, trimStartBy_ok, Forall_rev, trimStartBy_ok, H.
Qed.

Lemma code_block_ok lang body :
  Forall P lang -> Forall P body -> Forall P (code_block code ent mk lang body).
Proof.
  intros Hl Hb. unfold code_block.
  repeat (apply Forall_app; split); try apply markup_ok.
  - destruct lang; [apply markup_ok|exact Hl].
  - apply replace_char_ok; [exact P_quot|now apply trimBy_ok].
  - now apply trimBy_ok.
Qed.

Lemma match_fence_ok s repl n :
  Forall P s -> match_fence code ent mk s = Some (repl, n) -> Forall P repl.
Proof.
  intros H. unfold match_fence.
  destruct (after_fence code s) as [s1|] eqn:E1; [|discriminate].
  pose proof (after_fence_ok H E1) as H1.
  destruct (span_ok is_word H1) as [Hlang H2].
  destruct (span code is_word s1) as [lang s2]. cbn [fst snd] in *.
  destruct s2 as [|nl s3]; [discriminate|].
  destruct (N.eqb (code nl) LF); [|discriminate].
  destruct (until_fence code s3) as [body|] eqn:E3; [|discriminate].
  intros E. take_replacement E.
  apply code_block_ok; [exact Hlang|].
  inversion H2; subst. now apply until_fence_ok with (s := s3).
Qed.

Lemma match_inline_ok s repl n :
  Forall P s -> match_inline code mk s = Some (repl, n) -> Forall P repl.
Proof.
  intros H. unfold match_inline.
  destruct s as [|a s1]; [discriminate|].
  destruct (N.eqb (code a) BACKTICK); [|discriminate].
  inversion H as [|? ? _ H1]; subst.
  destruct (span_ok (fun c => negb (N.eqb c BACKTICK || N.eqb c LF)) H1)
    as [Hbody _].
  destruct (span code _ s1) as [body s2]. cbn [fst] in Hbody.
  destruct body as [|x body]; [discriminate|].
  destruct s2 as [|b s2]; [discriminate|].
  destruct (N.eqb (code b) BACKTICK); [|discriminate].
  intros E. take_replacement E.
  apply Forall_app; split; [apply markup_ok|].
  apply Forall_app; split; [exact Hbody|apply markup_ok].
Qed.

Lemma match_paragraph_ok s repl n :
  Forall P s -> match_paragraph code mk s = Some (repl, n) -> Forall P repl.
Proof.
  intros _. unfold match_paragraph.
  destruct (span code _ s) as [run rest].
  destruct (2 <=? List.length run); [|discriminate].
  intros E. take_replacement E. apply markup_ok.
Qed.

Lemma replace_matches_ok (m : list A -> option (list A * nat)) :
  (forall s repl n, Forall P s -> m s = Some (repl, n) -> Forall P repl) ->
  forall s skip, Forall P s -> Forall P (replace_matches m skip s).
Proof.
  intros Hm. induction s as [|a s IH]; intros skip H; [constructor|].
  cbn [replace_matches]. inversion H as [|? ? Ha Hs]; subst.
  destruct skip as [|k]; [|now apply IH].
  destruct (m (a :: s)) as [[repl n]|] eqn:E.
  - apply Forall_app. split; [now apply (Hm _ _ _ H E)|now apply IH].
  - constructor; [exact Ha|now apply IH].
Qed.

Lemma substitute_ok s : Forall P s -> Forall P (substitute code ent mk s).
Proof.
  intros H. unfold substitute.
  apply Forall_app; split; [apply markup_ok|].
  apply Forall_app; split; [|apply markup_ok].
  apply replace_char_ok; [apply markup_ok|].
  apply replace_matches_ok; [apply match_paragraph_ok|].
  apply replace_matches_ok; [apply match_inline_ok|].
  apply replace_matches_ok; [apply match_fence_ok|].
  exact H.
Qed.

End Provenance.

(** *** [escapeHtml] character by character *)

Section Escape.

Variable A : Type.
Variable code : A -> char.
Variable ent : char -> A.

Hypothesis code_ent : forall c, code (ent c) = c.

Lemma replace_char_entity c repl s :
  forallb (fun x => negb (N.eqb x c)) (lit s) = true ->
  replace_char code c repl (entity ent s) = entity ent s.
Proof.
  unfold entity. induction (lit s) as [|x l IH]; intros H; [reflexivity|].
  simpl in H. apply andb_true_iff in H as [Hx Hl].
  cbn [List.map replace_char flat_map]. rewrite code_ent.
  apply negb_true_iff in Hx. rewrite Hx.
  cbn [app]. f_equal. now apply IH.
Qed.

Lemma replace_char_app c repl x y :
  replace_char code c repl (x ++ y)
  = replace_char code c repl x ++ replace_char code c repl y.
Proof. unfold replace_char. apply flat_map_app. Qed.

Lemma replace_char_one c repl a :
  replace_char code c repl [a] = if N.eqb (code a) c then repl else [a].
Proof.
  unfold replace_char. cbn [flat_map]. rewrite app_nil_r. reflexivity.
Qed.

(** The four passes of [escapeHtml] amount to one pass that replaces each
    of the four characters by its entity. *)
Lemma escapeHtml_flat s :
  escapeHtml code ent s = flat_map (escape_one code ent) s.
Proof.
  induction s as [|a s IH]; [reflexivity|].
  cbn [flat_map]. rewrite <- IH. unfold escapeHtml.
  change (a :: s) with ([a] ++ s).
  rewrite !replace_char_app. f_equal.
  unfold escape_one. rewrite replace_char_one.
  destruct (N.eqb (code a) 38) eqn:E38.
  { now rewrite (replace_char_entity 60), (replace_char_entity 62),
      (replace_char_entity 34). }
  rewrite replace_char_one.
  destruct (N.eqb (code a) 60) eqn:E60.
  { now rewrite (replace_char_entity 62), (replace_char_entity 34). }
  rewrite replace_char_one.
  destruct (N.eqb (code a) 62) eqn:E62.
  { now rewrite (replace_char_entity 34). }
  apply replace_char_one.
Qed.

End Escape.

(** *** The marked run *)

Lemma harmless_entity s :
  forallb (fun c => negb (is_structural c)) (lit s) = true ->
  Forall harmless (entity (fun c => (c, Entity)) s).
Proof.
  unfold entity. induction (lit s) as [|x l IH]; intros H; [constructor|].
  simpl in H. apply andb_true_iff in H as [Hx Hl].
  constructor; [|now apply IH].
  unfold harmless. simpl. now apply negb_true_iff.
Qed.

Lemma escaped_harmless (md : jstring) :
  Forall harmless
    (escapeHtml fst (fun c => (c, Entity)) (from_input md)).
Proof.
  rewrite escapeHtml_flat by reflexivity.
  apply Forall_flat_map, Forall_forall.
  intros [c m] Hin. unfold from_input in Hin.
  apply in_map_iff in Hin as (c' & E & _). injection E as -> <-.
  unfold escape_one. cbn [fst].
  destruct (N.eqb c 38) eqn:E38; [now apply harmless_entity|].
  destruct (N.eqb c 60) eqn:E60; [now apply harmless_entity|].
  destruct (N.eqb c 62) eqn:E62; [now apply harmless_entity|].
  destruct (N.eqb c 34) eqn:E34; [now apply harmless_entity|].
  constructor; [|constructor].
  unfold harmless, is_special. cbn [fst snd].
  now rewrite E38, E60, E62, E34.
Qed.

Lemma erase_from_input (md : jstring) : erase (from_input md) = md.
Proof.
  unfold erase, from_input. rewrite map_map. cbn [fst]. apply map_id.
Qed.

(** C6.  [renderMarkdown] of a string is the substitutions applied to the
    escaped string, in which each of the four characters stands as its
    entity.  Run on an input whose characters are marked, the renderer gives
    the same text, and in it no character of the input is one of the four,
    and no [<], [>] or double quote belongs to an entity: each of them was
    written by the renderer as markup. *)
Theorem rendered_input_is_escaped (md : jstring) :
  renderMarkdown (JString md)
  = Some (match md with
          | [] => []
          | _ => substitute (fun c => c) (fun c => c) (fun c => c)
                   (escapeHtml_text md)
          end)
  /\ escapeHtml_text md
     = flat_map (escape_one (fun c => c) (fun c => c)) md
  /\ erase (render_marked md) = render_text md
  /\ Forall harmless (render_marked md).
Proof.
  split; [|split; [|split]].
  - destruct md; reflexivity.
  - unfold escapeHtml_text. now apply escapeHtml_flat.
  - unfold erase, render_marked, render_text.
    rewrite render_map with (codeB := fun c : char => c)
                            (entB := fun c : char => c)
                            (mkB := fun c : char => c)
      by reflexivity.
    f_equal. apply erase_from_input.
  - unfold render_marked, render.
    apply substitute_ok.
    + intros c. exact I.
    + now apply harmless_entity.
    + apply escaped_harmless.
Qed.

(** A script tag comes out as text. *)
Example render_script :
  renderMarkdown (JString (lit "<script>alert(1)</script>"))
  = Some (lit "<p>&lt;script&gt;alert(1)&lt;/script&gt;</p>").
Proof. vm_compute. reflexivity. Qed.

(** C7 fails on the code.  The later substitutions also run over the code
    block that the first one wrote: in the body of a fenced block, both in
    the [data-code] attribute and in the [code] element, a line feed becomes
    a [br] tag, a blank line becomes a paragraph break, and a pair of
    backticks becomes an inline [code] element.  None of the three bodies
    comes out verbatim. *)
Theorem fenced_body_rewritten :
  render_text (Samples.fenced "python" Samples.two_lines)
  = lit "<p>"
    ++ Samples.block_html "python"
         (lit "a = 1<br>b = 2") (lit "a = 1<br>b = 2")
    ++ lit "</p>"
  /\ render_text (Samples.fenced "python" Samples.blank_line)
     = lit "<p>"
       ++ Samples.block_html "python"
            (lit "a = 1</p><p>b = 2") (lit "a = 1</p><p>b = 2")
       ++ lit "</p>"
  /\ render_text (Samples.fenced "python" Samples.backticks)
     = lit "<p>"
       ++ Samples.block_html "python"
            (lit "s = " ++ Samples.inline_html (lit "x"))
            (lit "s = " ++ Samples.inline_html (lit "x"))
       ++ lit "</p>"
  /\ render_text (Samples.fenced "python" Samples.blank_line)
     <> lit "<p>"
        ++ Samples.block_html "python" Samples.blank_line Samples.blank_line
        ++ lit "</p>".
Proof.
  repeat split; try (vm_compute; reflexivity).
  vm_compute. discriminate.
Qed.

(** A body of one line without backticks does come out verbatim. *)
Example fenced_one_line :
  render_text (Samples.fenced "python" (lit "print(1)"))
  = lit "<p>"
    ++ Samples.block_html "python" (lit "print(1)") (lit "print(1)")
    ++ lit "</p>".
Proof. vm_compute. reflexivity. Qed.

End Webview_facts.

(* ================================================================== *)
(** * Further properties of the code *)
(* ================================================================== *)

(* ------------------------------------------------------------------ *)
(** ** The relay: buffering, settling, and the two handlers *)
(* ------------------------------------------------------------------ *)

Module Relay_more.

Import Json Relay JS_facts Json_facts Relay_facts.

(** The first line of a text ends at its first line feed. *)
Lemma split_lines_line (l rest : jstring) :
  ~ In LF l -> split_lines (l ++ LF :: rest) = l :: split_lines rest.
Proof.
  induction l as [|c l IH]; intros H.
  - reflexivity.
  - cbn [app split_lines].
    destruct (N.eqb c LF) eqn:E.
    + apply N.eqb_eq in E. exfalso. apply H. now left.
    + rewrite IH; [reflexivity|]. intros Hin. apply H. now right.
Qed.

(** X1.  A chunk without a line feed posts nothing: it is appended to the
    buffer, after whatever the earlier chunks left there. *)
Theorem chunk_without_line_feed_is_buffered
  (id : option jstring) (chunks : list jstring) (t : jstring) :
  ~ In LF t ->
  feed id [] (chunks ++ [t])
  = (fst (feed id [] chunks) ++ t, snd (feed id [] chunks)).
Proof.
  intros Ht. rewrite !feed_eq by (intros []). cbn [fst snd app].
  rewrite concat_app. cbn [List.concat]. rewrite app_nil_r.
  unfold trailing, complete_lines.
  rewrite (split_lines_app (List.concat chunks) t).
  set (S0 := split_lines (List.concat chunks)).
  assert (Hz : ~ In LF (last S0 [] ++ t)).
  { intros Hin. apply in_app_or in Hin as [Hin|Hin]; [|now apply Ht].
    now apply (last_split_no_LF (List.concat chunks)). }
  rewrite (split_lines_single _ Hz).
  rewrite last_app_nonempty by discriminate.
  rewrite removelast_app_nonempty by discriminate.
  cbn [last removelast]. now rewrite app_nil_r.
Qed.

Lemma chunk_without_line_feed_is_buffered_witness :
  ~ In LF (firstn 9 Samples.rec_lo)
  /\ feed Samples.m1 [] ([Samples.rec_Hel; firstn 5 Samples.rec_lo]
                         ++ [skipn 5 (firstn 9 Samples.rec_lo)])
     = (firstn 9 Samples.rec_lo, [AiDelta Samples.m1 (JString (lit "Hel"))]).
Proof.
  assert (H : ~ In LF (skipn 5 (firstn 9 Samples.rec_lo))).
  { vm_compute. intuition discriminate. }
  split; [vm_compute; intuition discriminate|].
  etransitivity.
  - exact (@chunk_without_line_feed_is_buffered Samples.m1
             [Samples.rec_Hel; firstn 5 Samples.rec_lo] _ H).
  - vm_compute. reflexivity.
Defined.

(** X2.  A response that ends resolves the promise and posts exactly the
    messages of its lines: no error text, no terminal message of the
    [catch] block, also when the request reports an error after the end. *)
Theorem normal_end_resolves
  (id : option jstring) (chunks : list jstring) (e : js_error) :
  handle_user_message id (List.map Data chunks ++ [End])
  = ({| buffer := trailing (List.concat chunks); settled := Resolved |},
     streamChatToWebview id chunks)
  /\ handle_user_message id (List.map Data chunks ++ [End; ReqError e])
     = ({| buffer := trailing (List.concat chunks); settled := Resolved |},
        streamChatToWebview id chunks).
Proof.
  unfold handle_user_message.
  rewrite !Stream_claims.run_events_app, !Stream_claims.run_events_data.
  unfold streamChatToWebview, stream_start. cbn [buffer settled].
  assert (Hb : fst (feed id [] chunks) = trailing (List.concat chunks))
    by (rewrite feed_eq by (intros []); reflexivity).
  destruct (feed id [] chunks) as [b o]. cbn [fst snd] in *. subst b.
  cbn [run_events on_event buffer settled].
  now rewrite !app_nil_r.
Qed.

(** X3.  A line that parses to a value that is not [null], has no [delta]
    and no truthy [done] is posted as [String(obj)] when a line feed ends
    it, and is dropped when the response ends right after it: the end
    handler has no branch for it. *)
Theorem unknown_record_dropped_at_end
  (id : option jstring) (line : jstring) (obj : json) (s : jstring) :
  ~ In LF line ->
  JSON_parse line = Some obj ->
  obj <> JNull ->
  get_prop obj (lit "delta") = None ->
  truthy_opt (get_prop obj (lit "done")) = false ->
  js_String obj = Some s ->
  streamChatToWebview id [line ++ [LF]] = [AiDelta id (JString s)]
  /\ streamChatToWebview id [line] = [].
Proof.
  intros Hlf Hparse Hnull Hdelta Hdone Hstr.
  assert (Hnb : str_truthy (trim line) = true).
  { destruct (str_truthy (trim line)) eqn:E; [reflexivity|].
    apply blank_not_json in E. congruence. }
  rewrite !relay_eq. cbn [List.concat]. rewrite !app_nil_r.
  unfold complete_lines, trailing. split.
  - rewrite (@split_lines_line line [] Hlf).
    cbn [split_lines removelast last flat_map app].
    assert (He : on_end id [] = []) by reflexivity. rewrite He.
    unfold forward_complete, forward_line.
    rewrite Hnb, Hparse, Hdelta, Hdone, Hstr.
    destruct obj; try reflexivity. contradiction.
  - rewrite (split_lines_single _ Hlf).
    cbn [removelast last flat_map app].
    unfold on_end. rewrite Hnb, Hparse, Hdelta, Hdone.
    destruct obj; try reflexivity. contradiction.
Qed.

Lemma unknown_record_dropped_at_end_witness :
  ~ In LF Samples.rec_other
  /\ streamChatToWebview Samples.m1 [Samples.rec_other ++ [LF]]
     = [AiDelta Samples.m1 (JString (lit "[object Object]"))]
  /\ streamChatToWebview Samples.m1 [Samples.rec_other] = [].
Proof.
  assert (H : ~ In LF Samples.rec_other)
    by (vm_compute; intuition discriminate).
  split; [exact H|].
  apply (@unknown_record_dropped_at_end Samples.m1 Samples.rec_other
           (JObject [(lit "note", JString (lit "hi"))])
           (lit "[object Object]") H);
    try (vm_compute; reflexivity).
  discriminate.
Defined.


Lemma forward_line_id id line :
  Forall (fun m => Wire.addressee m = id) (forward_line id line).
Proof.
  unfold forward_line.
  destruct (JSON_parse line) as [obj|]; [|now repeat constructor].
  destruct (get_prop obj (lit "delta")), obj;
    try (now repeat constructor);
    destruct (truthy_opt _); try (now repeat constructor);
    destruct (js_String _); now repeat constructor.
Qed.

Lemma on_end_id id buf :
  Forall (fun m => Wire.addressee m = id) (on_end id buf).
Proof.
  unfold on_end.
  destruct (str_truthy (trim buf)); [|constructor].
  destruct (JSON_parse buf) as [obj|]; [|now repeat constructor].
  destruct (get_prop obj (lit "delta")), obj;
    try (now repeat constructor);
    destruct (truthy_opt _); now repeat constructor.
Qed.

(** X4.  Every message the [userMessage] handler posts for a request
    carries the correlation id of that request, whatever the backend sends
    and however the request ends: text of one answer is never posted under
    the id of another. *)
Theorem posted_messages_carry_id
  (id : option jstring) (evs : list event) (s : stream) :
  Forall (fun m => Wire.addressee m = id) (snd (run_events id s evs))
  /\ Forall (fun m => Wire.addressee m = id) (snd (handle_user_message id evs)).
Proof.
  assert (H : forall evs s,
            Forall (fun m => Wire.addressee m = id) (snd (run_events id s evs))).
  { clear. induction evs as [|ev evs IH]; intros s; [constructor|].
    cbn [run_events].
    assert (Hev : Forall (fun m => Wire.addressee m = id)
                    (snd (on_event id s ev))).
    { destruct ev as [chunk| |e]; cbn [on_event].
      - unfold on_data. cbn [snd].
        apply Forall_flat_map, Forall_forall. intros line _.
        destruct (str_truthy (trim line)); [apply forward_line_id|constructor].
      - destruct (settled s); cbn [snd]; apply on_end_id.
      - destruct (settled s); cbn [snd]; now repeat constructor. }
    destruct (on_event id s ev) as [s1 out1]. cbn [snd] in Hev.
    specialize (IH s1). destruct (run_events id s1 evs) as [s2 out2].
    cbn [snd] in *. apply Forall_app. now split. }
  split; [apply H|apply H].
Qed.

End Relay_more.

(* ------------------------------------------------------------------ *)
(** ** [handleExplain] and the cache *)
(* ------------------------------------------------------------------ *)

Module Cache_more.

Import Json JS_facts Cache_facts.

Section MapLemmas.

Variable V : Type.

Implicit Types (m : JsMap.t V) (k : jstring) (v : V).

Lemma has_snoc m k v : JsMap.has k (m ++ [(k, v)]) = true.
Proof.
  induction m as [|[k' v'] m IH]; simpl.
  - now rewrite str_eqb_refl.
  - rewrite IH. apply orb_true_r.
Qed.

Lemma get_snoc m k v :
  JsMap.has k m = false -> JsMap.get k (m ++ [(k, v)]) = Some v.
Proof.
  induction m as [|[k' v'] m IH]; simpl; intros H.
  - now rewrite str_eqb_refl.
  - apply orb_false_iff in H as [Hk Hm]. rewrite Hk. now apply IH.
Qed.

Lemma put_cap_wf cap m k v :
  JsMap.wf m -> JsMap.wf (Cache.put_cap cap k v m).
Proof.
  intros H. unfold Cache.put_cap.
  pose proof (@Panel_facts.set_wf V m k v H) as Hs.
  destruct (cap <? JsMap.size (JsMap.set k v m)); [|exact Hs].
  destruct (JsMap.first_key (JsMap.set k v m)); [|exact Hs].
  now apply Panel_facts.delete_wf.
Qed.

Lemma set_values (Q : V -> Prop) m k v :
  Q v -> Forall (fun e => Q (snd e)) m ->
  Forall (fun e => Q (snd e)) (JsMap.set k v m).
Proof.
  intros Hv. induction m as [|[k' v'] m IH]; simpl; intros H.
  - constructor; [exact Hv|constructor].
  - inversion H as [|? ? He Hm]; subst.
    destruct (str_eqb k k'); constructor; auto.
Qed.

Lemma delete_values (Q : V -> Prop) m k :
  Forall (fun e => Q (snd e)) m ->
  Forall (fun e => Q (snd e)) (JsMap.delete k m).
Proof.
  induction m as [|[k' v'] m IH]; simpl; intros H; [constructor|].
  inversion H as [|? ? He Hm]; subst.
  destruct (str_eqb k k'); [exact Hm|]. constructor; auto.
Qed.

Lemma put_cap_values (Q : V -> Prop) cap m k v :
  Q v -> Forall (fun e => Q (snd e)) m ->
  Forall (fun e => Q (snd e)) (Cache.put_cap cap k v m).
Proof.
  intros Hv H. unfold Cache.put_cap.
  pose proof (@set_values Q m k v Hv H) as Hs.
  destruct (cap <? JsMap.size (JsMap.set k v m)); [|exact Hs].
  destruct (JsMap.first_key (JsMap.set k v m)); [|exact Hs].
  now apply delete_values.
Qed.

(** With room for one entry at least, a key that was just put is there. *)
Lemma put_cap_then_get cap m k v :
  0 < cap -> JsMap.has k m = false ->
  JsMap.has k (Cache.put_cap cap k v m) = true
  /\ JsMap.get k (Cache.put_cap cap k v m) = Some v.
Proof.
  intros Hcap Hk. rewrite put_cap_fresh by assumption.
  destruct (cap <? S (JsMap.size m)) eqn:E.
  - destruct m as [|[k0 v0] m].
    + apply Nat.ltb_lt in E. unfold JsMap.size in E. simpl in E. lia.
    + simpl in Hk. apply orb_false_iff in Hk as [_ Hm].
      cbn [app tl]. split; [apply has_snoc|now apply get_snoc].
  - split; [apply has_snoc|now apply get_snoc].
Qed.

End MapLemmas.

(** What [handleExplain] does on a miss that the backend answers. *)
Lemma handleExplain_miss cap term languageId data detail c :
  JsMap.has (Host.cacheKey term languageId) c = false ->
  get_prop data (lit "detail") = Some detail ->
  truthy_opt (get_prop data (lit "ok")) = true ->
  truthy detail = true ->
  Host.handleExplain_cap cap term languageId (Host.Returned data) c
  = {| Host.cache_after :=
         Cache.put_cap cap (Host.cacheKey term languageId) detail c;
       Host.requested := true;
       Host.shown := Host.ShowResult term languageId detail |}.
Proof.
  intros Hk Hd Hok Ht. unfold Host.handleExplain_cap.
  now rewrite Hk, Hd, Hok, Ht.
Qed.

(** What it does on a hit. *)
Lemma handleExplain_hit cap term languageId reply c md :
  JsMap.has (Host.cacheKey term languageId) c = true ->
  JsMap.get (Host.cacheKey term languageId) c = Some md ->
  Host.handleExplain_cap cap term languageId reply c
  = {| Host.cache_after := c; Host.requested := false;
       Host.shown := Host.ShowResult term languageId md |}.
Proof.
  intros Hk Hg. unfold Host.handleExplain_cap. now rewrite Hk, Hg.
Qed.

(** X5.  Once a term has been explained, the same term in the same language
    is answered from the cache: the backend is not asked again, the cache
    is left as it is, and the text shown is the one the backend gave the
    first time, whatever the backend would answer now. *)
Theorem explained_term_is_cached
  (term languageId : jstring) (data detail : json) (again : Host.fetched)
  (c : Cache.cache json) :
  JsMap.has (Host.cacheKey term languageId) c = false ->
  get_prop data (lit "detail") = Some detail ->
  truthy_opt (get_prop data (lit "ok")) = true ->
  truthy detail = true ->
  let first := Host.handleExplain term languageId (Host.Returned data) c in
  Host.requested first = true
  /\ Host.handleExplain term languageId again (Host.cache_after first)
     = {| Host.cache_after := Host.cache_after first;
          Host.requested := false;
          Host.shown := Host.ShowResult term languageId detail |}.
Proof.
  intros Hk Hd Hok Ht first. unfold first, Host.handleExplain.
  rewrite (@handleExplain_miss Cache.MAX_CACHE term languageId data detail c)
    by assumption.
  cbn [Host.cache_after Host.requested]. split; [reflexivity|].
  assert (Hcap : 0 < Cache.MAX_CACHE) by (unfold Cache.MAX_CACHE; lia).
  destruct (@put_cap_then_get json Cache.MAX_CACHE c
              (Host.cacheKey term languageId) detail Hcap Hk) as [Hh Hg].
  now apply handleExplain_hit.
Qed.

Lemma explained_term_is_cached_witness :
  let first :=
    Host.handleExplain (lit "closure") (lit "javascript")
      (Samples.explained "A closure.") [] in
  Host.requested first = true
  /\ Host.handleExplain (lit "closure") (lit "javascript")
       (Host.Threw (lit "HTTP 500: boom")) (Host.cache_after first)
     = {| Host.cache_after := Host.cache_after first;
          Host.requested := false;
          Host.shown := Host.ShowResult (lit "closure") (lit "javascript")
                          (JString (lit "A closure.")) |}.
Proof.
  exact (@explained_term_is_cached (lit "closure") (lit "javascript")
           (JObject [(lit "ok", JBool true);
                     (lit "summary", JString (lit "A closure."));
                     (lit "detail", JString (lit "A closure."))])
           (JString (lit "A closure.")) (Host.Threw (lit "HTTP 500: boom"))
           [] eq_refl eq_refl eq_refl eq_refl).
Defined.

(** X6.  A hit does not refresh an entry.  In a full cache whose oldest
    entry is the one for [term], explaining [term] again leaves the cache
    as it is, and the next new explanation evicts that entry all the
    same. *)
Theorem cache_hit_does_not_refresh
  (cap : nat) (term languageId : jstring) (reply : Host.fetched)
  (v0 : json) (rest : Cache.cache json)
  (term2 languageId2 : jstring) (data detail : json) :
  let c := (Host.cacheKey term languageId, v0) :: rest in
  JsMap.wf c ->
  JsMap.size c = cap ->
  JsMap.has (Host.cacheKey term2 languageId2) c = false ->
  get_prop data (lit "detail") = Some detail ->
  truthy_opt (get_prop data (lit "ok")) = true ->
  truthy detail = true ->
  let c1 := Host.cache_after
              (Host.handleExplain_cap cap term languageId reply c) in
  let c2 := Host.cache_after
              (Host.handleExplain_cap cap term2 languageId2
                 (Host.Returned data) c1) in
  c1 = c
  /\ c2 = rest ++ [(Host.cacheKey term2 languageId2, detail)]
  /\ JsMap.has (Host.cacheKey term languageId) c2 = false.
Proof.
  intros c Hwf Hsize Hk2 Hd Hok Ht c1 c2.
  assert (E1 : c1 = c).
  { unfold c1, Host.handleExplain_cap, c. cbn [JsMap.has JsMap.get].
    now rewrite str_eqb_refl. }
  assert (E2 : c2 = rest ++ [(Host.cacheKey term2 languageId2, detail)]).
  { unfold c2. rewrite E1.
    rewrite (@handleExplain_miss cap term2 languageId2 data detail c)
      by assumption.
    cbn [Host.cache_after]. rewrite put_cap_fresh by assumption.
    rewrite Hsize.
    replace (cap <? S cap) with true by (symmetry; apply Nat.ltb_lt; lia).
    reflexivity. }
  split; [exact E1|]. split; [exact E2|].
  rewrite E2.
  destruct (JsMap.has (Host.cacheKey term languageId)
              (rest ++ [(Host.cacheKey term2 languageId2, detail)])) eqn:Hh;
    [|reflexivity].
  exfalso. apply Panel_facts.has_in_keys in Hh.
  unfold JsMap.keys in Hh. rewrite map_app in Hh.
  apply in_app_or in Hh as [Hin|[Heq|[]]].
  - unfold JsMap.wf, c in Hwf. cbn in Hwf. inversion Hwf. contradiction.
  - cbn in Heq. unfold c in Hk2. cbn [JsMap.has] in Hk2.
    rewrite <- Heq, str_eqb_refl in Hk2. discriminate.
Qed.

Lemma cache_hit_does_not_refresh_witness :
  JsMap.wf Samples.two_entries
  /\ Host.cache_after
       (Host.handleExplain_cap 2 (lit "promise") (lit "javascript")
          (Samples.explained "A promise.")
          (Host.cache_after
             (Host.handleExplain_cap 2 (lit "closure") (lit "javascript")
                (Samples.explained "Not used.") Samples.two_entries)))
     = [(Samples.map_py, JString (lit "A map."));
        (Host.cacheKey (lit "promise") (lit "javascript"),
         JString (lit "A promise."))].
Proof.
  assert (Hwf : JsMap.wf Samples.two_entries).
  { unfold JsMap.wf. vm_compute.
    repeat constructor; simpl; intuition discriminate. }
  split; [exact Hwf|].
  exact (proj1 (proj2
    (@cache_hit_does_not_refresh 2 (lit "closure") (lit "javascript")
       (Samples.explained "Not used.") (JString (lit "A closure."))
       [(Samples.map_py, JString (lit "A map."))]
       (lit "promise") (lit "javascript")
       (JObject [(lit "ok", JBool true);
                 (lit "summary", JString (lit "A promise."));
                 (lit "detail", JString (lit "A promise."))])
       (JString (lit "A promise."))
       Hwf eq_refl eq_refl eq_refl eq_refl eq_refl))).
Defined.

(** A character that two texts hold first at the same place cuts them
    alike. *)
Lemma app_cut (A : Type) (c : A) (a b x y : list A) :
  ~ In c a -> ~ In c b -> a ++ c :: x = b ++ c :: y -> a = b /\ x = y.
Proof.
  revert b. induction a as [|p a IH]; intros [|q b] Ha Hb E; simpl in E.
  - injection E as ->. now split.
  - injection E as <- _. exfalso. apply Hb. now left.
  - injection E as -> _. exfalso. apply Ha. now left.
  - injection E as -> E.
    destruct (IH b) as [-> ->]; try assumption.
    + intros H. apply Ha. now right.
    + intros H. apply Hb. now right.
    + now split.
Qed.

(** X7.  Two different pairs of a term and a language have different cache
    keys as long as the languages hold no colon; with a colon in the
    language they can share a key, and then share a cache entry. *)
Theorem cacheKey_injective (t1 l1 t2 l2 : jstring) :
  (~ In 58%N l1 -> ~ In 58%N l2 ->
   Host.cacheKey t1 l1 = Host.cacheKey t2 l2 -> t1 = t2 /\ l1 = l2)
  /\ Host.cacheKey (lit "a") (lit "b::c") = Host.cacheKey (lit "a::b") (lit "c").
Proof.
  split; [|reflexivity].
  intros H1 H2 E. unfold Host.cacheKey in E.
  apply (f_equal (@rev char)) in E.
  rewrite !rev_app_distr in E.
  change (rev (lit "::")) with [58%N; 58%N] in E.
  rewrite <- !app_assoc in E. cbn [app] in E.
  apply app_cut in E as [El Et]; try (rewrite <- in_rev; assumption).
  injection Et as Et.
  apply (f_equal (@rev char)) in El, Et.
  rewrite !rev_involutive in El, Et. now split.
Qed.

Lemma cacheKey_injective_witness :
  ~ In 58%N (lit "javascript") /\ ~ In 58%N (lit "python")
  /\ (Host.cacheKey (lit "map") (lit "javascript")
      = Host.cacheKey (lit "map") (lit "python") -> False).
Proof.
  assert (H1 : ~ In 58%N (lit "javascript"))
    by (vm_compute; intuition discriminate).
  assert (H2 : ~ In 58%N (lit "python"))
    by (vm_compute; intuition discriminate).
  split; [exact H1|]. split; [exact H2|].
  intros E.
  destruct (proj1 (@cacheKey_injective (lit "map") (lit "javascript")
                     (lit "map") (lit "python")) H1 H2 E) as [_ El].
  discriminate El.
Defined.

Lemma handleExplain_invariant cap term languageId reply c :
  JsMap.wf c -> JsMap.size c <= cap ->
  Forall (fun e => truthy (snd e) = true) c ->
  let c' := Host.cache_after
              (Host.handleExplain_cap cap term languageId reply c) in
  JsMap.wf c' /\ JsMap.size c' <= cap
  /\ Forall (fun e => truthy (snd e) = true) c'.
Proof.
  intros Hwf Hsize Hval c'. unfold c', Host.handleExplain_cap.
  destruct (JsMap.has _ c).
  - destruct (JsMap.get _ c); cbn [Host.cache_after]; auto.
  - destruct reply as [m|data]; cbn [Host.cache_after]; auto.
    destruct (get_prop data (lit "detail")) as [detail|];
      cbn [Host.cache_after]; auto.
    destruct (truthy_opt (get_prop data (lit "ok"))); cbn [andb];
      [|cbn [Host.cache_after]; auto].
    destruct (truthy detail) eqn:Ht; cbn [Host.cache_after]; auto.
    split; [now apply put_cap_wf|]. split; [now apply put_cap_size|].
    apply (@put_cap_values json (fun v => truthy v = true)); assumption.
Qed.

(** X8.  Whatever is asked and whatever the backend answers, explanations
    that run one after the other from an empty cache leave a cache that
    holds each key once, holds at most [cap] entries, and holds no empty
    explanation: every value in it is truthy. *)
Theorem explain_all_invariant (cap : nat) (calls : list Sessions.call) :
  let c := Sessions.explain_all cap calls [] in
  JsMap.wf c /\ JsMap.size c <= cap
  /\ Forall (fun e => truthy (snd e) = true) c.
Proof.
  assert (H : forall cs c0,
             JsMap.wf c0 -> JsMap.size c0 <= cap ->
             Forall (fun e => truthy (snd e) = true) c0 ->
             JsMap.wf (Sessions.explain_all cap cs c0)
             /\ JsMap.size (Sessions.explain_all cap cs c0) <= cap
             /\ Forall (fun e => truthy (snd e) = true)
                  (Sessions.explain_all cap cs c0)).
  { induction cs as [|[[term lang] reply] cs IH]; intros c0 H1 H2 H3.
    - cbn. auto.
    - cbn [Sessions.explain_all].
      destruct (@handleExplain_invariant cap term lang reply c0 H1 H2 H3)
        as (Ha & Hb & Hc).
      now apply IH. }
  apply H.
  - constructor.
  - unfold JsMap.size. simpl. lia.
  - constructor.
Qed.

End Cache_more.

(* ------------------------------------------------------------------ *)
(** ** The wire: what the backend writes and the relay reads *)
(* ------------------------------------------------------------------ *)

Module Wire_facts.

Import Json Relay Backend JS_facts Json_facts Relay_facts.

Local Open Scope N_scope.

(** *** The scanner on a quoted string *)

Lemma tokenize_silent st c st' r :
  lex_step st c = Some (st', []) -> tokenize st (c :: r) = tokenize st' r.
Proof.
  intros H. cbn [tokenize]. rewrite H.
  destruct (tokenize st' r); reflexivity.
Qed.

Lemma tokenize_emit st c st' t r :
  lex_step st c = Some (st', [t]) ->
  tokenize st (c :: r) = option_map (cons t) (tokenize st' r).
Proof.
  intros H. cbn [tokenize]. rewrite H.
  destruct (tokenize st' r); reflexivity.
Qed.

Lemma hex_roundtrip n : n < 16 -> hex_value (hex_digit n) = Some n.
Proof.
  intros H. unfold hex_digit, hex_value, is_digit.
  destruct (N.ltb n 10) eqn:E.
  - apply N.ltb_lt in E.
    replace (N.leb 48 (48 + n)) with true by (symmetry; apply N.leb_le; lia).
    replace (N.leb (48 + n) 57) with true by (symmetry; apply N.leb_le; lia).
    cbn [andb]. f_equal. lia.
  - apply N.ltb_ge in E.
    replace (N.leb (87 + n) 57) with false by (symmetry; apply N.leb_gt; lia).
    rewrite andb_false_r.
    replace (N.leb 97 (87 + n)) with true by (symmetry; apply N.leb_le; lia).
    replace (N.leb (87 + n) 102) with true by (symmetry; apply N.leb_le; lia).
    cbn [andb]. f_equal. lia.
Qed.

Lemma hex_digits_value c : c < 65536 ->
  ((c / 4096 mod 16 * 16 + c / 256 mod 16) * 16 + c / 16 mod 16) * 16
  + c mod 16 = c.
Proof.
  intros H.
  pose proof (N.div_mod c 16 ltac:(lia)) as H1.
  pose proof (N.div_mod (c / 16) 16 ltac:(lia)) as H2.
  pose proof (N.div_mod (c / 16 / 16) 16 ltac:(lia)) as H3.
  pose proof (N.mod_lt c 16 ltac:(lia)).
  pose proof (N.mod_lt (c / 16) 16 ltac:(lia)).
  pose proof (N.mod_lt (c / 16 / 16) 16 ltac:(lia)).
  replace (c / 256) with (c / 16 / 16)
    by (rewrite N.Div0.div_div; reflexivity).
  replace (c / 4096) with (c / 16 / 16 / 16)
    by (rewrite !N.Div0.div_div; reflexivity).
  assert (c / 16 / 16 / 16 < 16)
    by (repeat (apply N.Div0.div_lt_upper_bound); lia).
  rewrite (N.mod_small (c / 16 / 16 / 16) 16) by assumption.
  lia.
Qed.

Lemma lex_hex acc hex d :
  d < 16 ->
  lex_step (LUnicode acc hex) (hex_digit d)
  = Some (match hex with
          | [a; b; e] => LString ((((a * 16 + b) * 16 + e) * 16 + d) :: acc)
          | _ => LUnicode acc (hex ++ [d])
          end, []).
Proof.
  intros H. cbn [lex_step]. rewrite hex_roundtrip by assumption.
  destruct hex as [|a [|b [|e [|f hex]]]]; reflexivity.
Qed.

(** The scanner reads an escape [\uXXXX] back as the code unit. *)
Lemma lex_unicode_escape c acc r :
  c < 65536 ->
  tokenize (LString acc) (unicode_escape c ++ r)
  = tokenize (LString (c :: acc)) r.
Proof.
  intros H. unfold unicode_escape. cbn [app].
  rewrite (@tokenize_silent (LString acc) 92 (LEscape acc)) by reflexivity.
  rewrite (@tokenize_silent (LEscape acc) 117 (LUnicode acc [])) by reflexivity.
  assert (Hd : forall x, x mod 16 < 16) by (intros; apply N.mod_lt; lia).
  rewrite (@tokenize_silent _ _ _ _ (@lex_hex acc [] _ (Hd _))).
  cbv beta iota. cbn [app].
  rewrite (@tokenize_silent _ _ _ _ (@lex_hex acc _ _ (Hd _))).
  cbv beta iota. cbn [app].
  rewrite (@tokenize_silent _ _ _ _ (@lex_hex acc _ _ (Hd _))).
  cbv beta iota. cbn [app].
  rewrite (@tokenize_silent _ _ _ _ (@lex_hex acc _ _ (Hd _))).
  cbv beta iota. now rewrite hex_digits_value.
Qed.

(** A character that needs no escape is read as it is. *)
Lemma lex_raw c acc :
  32 <= c -> c <> DQUOTE -> c <> 92 ->
  lex_step (LString acc) c = Some (LString (c :: acc), []).
Proof.
  intros H32 Hq Hb. cbn [lex_step].
  apply N.eqb_neq in Hq, Hb. rewrite Hq, Hb.
  replace (N.ltb c 32) with false by (symmetry; apply N.ltb_ge; lia).
  reflexivity.
Qed.

Lemma lex_quote_unit c acc r :
  tokenize (LString acc) (quote_unit c ++ r) = tokenize (LString (c :: acc)) r.
Proof.
  unfold quote_unit.
  assert (Hshort : forall x y : N,
             escape_char x = Some y -> N.eqb x 117 = false ->
             tokenize (LString acc) (92 :: x :: r)
             = tokenize (LString (y :: acc)) r).
  { intros x y Hx Hu.
    rewrite (@tokenize_silent (LString acc) 92 (LEscape acc)) by reflexivity.
    apply tokenize_silent. cbn [lex_step]. now rewrite Hu, Hx. }
  destruct (N.eqb c 8) eqn:E8.
  { apply N.eqb_eq in E8. subst c. now apply (Hshort 98 8). }
  destruct (N.eqb c 9) eqn:E9.
  { apply N.eqb_eq in E9. subst c. now apply (Hshort 116 9). }
  destruct (N.eqb c 10) eqn:E10.
  { apply N.eqb_eq in E10. subst c. now apply (Hshort 110 10). }
  destruct (N.eqb c 12) eqn:E12.
  { apply N.eqb_eq in E12. subst c. now apply (Hshort 102 12). }
  destruct (N.eqb c 13) eqn:E13.
  { apply N.eqb_eq in E13. subst c. now apply (Hshort 114 13). }
  destruct (N.eqb c DQUOTE) eqn:Eq.
  { apply N.eqb_eq in Eq. subst c. now apply (Hshort DQUOTE DQUOTE). }
  destruct (N.eqb c 92) eqn:Eb.
  { apply N.eqb_eq in Eb. subst c. now apply (Hshort 92 92). }
  destruct (N.ltb c 32) eqn:E32.
  { apply N.ltb_lt in E32. apply lex_unicode_escape. lia. }
  apply N.ltb_ge in E32. apply N.eqb_neq in Eq, Eb.
  cbn [app]. apply tokenize_silent. now apply lex_raw.
Qed.

Lemma lex_quote_units s : forall after_high acc r,
  tokenize (LString acc) (quote_units after_high s ++ r)
  = tokenize (LString (rev s ++ acc)) r.
Proof.
  induction s as [|c s IH]; intros ah acc r; [reflexivity|].
  assert (Hrev : forall x, rev (c :: s) ++ x = rev s ++ c :: x).
  { intros x. cbn [rev]. now rewrite <- app_assoc. }
  rewrite Hrev. cbn [quote_units].
  destruct (is_high_surrogate c) eqn:Ehi.
  - unfold is_high_surrogate in Ehi. apply andb_true_iff in Ehi as [H1 H2].
    apply N.leb_le in H1, H2.
    assert (Hraw : lex_step (LString acc) c = Some (LString (c :: acc), []))
      by (apply lex_raw; unfold DQUOTE; lia).
    destruct s as [|d s'].
    + rewrite lex_unicode_escape by lia. reflexivity.
    + destruct (is_low_surrogate d).
      * cbn [app]. rewrite (@tokenize_silent _ _ _ _ Hraw). apply IH.
      * rewrite <- app_assoc, lex_unicode_escape by lia. apply IH.
  - destruct (is_low_surrogate c) eqn:Elo.
    + unfold is_low_surrogate in Elo.
      apply andb_true_iff in Elo as [H1 H2]. apply N.leb_le in H1, H2.
      rewrite <- app_assoc.
      destruct ah.
      * cbn [app].
        rewrite (@tokenize_silent (LString acc) c (LString (c :: acc)))
          by (apply lex_raw; unfold DQUOTE; lia).
        apply IH.
      * rewrite lex_unicode_escape by lia. apply IH.
    + rewrite <- app_assoc, lex_quote_unit. apply IH.
Qed.

(** [JSON.parse] reads what [JSON.stringify] writes for a string: the
    scanner gives the string back as one token. *)
Lemma tokenize_quote s r ts :
  tokenize LStart r = Some ts ->
  tokenize LStart (quote s ++ r) = Some (TValue (JString s) :: ts).
Proof.
  intros Hr. unfold quote. rewrite <- !app_assoc. cbn [app].
  rewrite (@tokenize_silent LStart DQUOTE (LString [])) by reflexivity.
  rewrite lex_quote_units. rewrite app_nil_r.
  rewrite (@tokenize_emit (LString (rev s)) DQUOTE LStart
             (TValue (JString (rev (rev s))))) by reflexivity.
  rewrite Hr, rev_involutive. reflexivity.
Qed.

(** A quoted string holds no control character. *)
Lemma quote_printable s : Forall (fun c => 32 <= c) (quote s).
Proof.
  assert (Hesc : forall c, Forall (fun x => 32 <= x) (unicode_escape c)).
  { intros c.
    assert (Hh : forall n, 32 <= hex_digit n)
      by (intros n; unfold hex_digit; destruct (N.ltb n 10); lia).
    unfold unicode_escape.
    repeat (apply Forall_cons; [first [apply Hh|lia]|]). constructor. }
  assert (Hchk : forall l, forallb (N.leb 32) l = true ->
                             Forall (fun x => 32 <= x) l).
  { intros l H. apply Forall_forall. intros x Hx.
    rewrite forallb_forall in H. now apply N.leb_le, H. }
  assert (Hunit : forall c, Forall (fun x => 32 <= x) (quote_unit c)).
  { intros c. unfold quote_unit.
    destruct (N.eqb c 8); [now apply Hchk|].
    destruct (N.eqb c 9); [now apply Hchk|].
    destruct (N.eqb c 10); [now apply Hchk|].
    destruct (N.eqb c 12); [now apply Hchk|].
    destruct (N.eqb c 13); [now apply Hchk|].
    destruct (N.eqb c DQUOTE); [now apply Hchk|].
    destruct (N.eqb c 92); [now apply Hchk|].
    destruct (N.ltb c 32) eqn:E; [apply Hesc|].
    apply N.ltb_ge in E. constructor; [exact E|constructor]. }
  assert (Hunits : forall t ah, Forall (fun x => 32 <= x) (quote_units ah t)).
  { induction t as [|c t IH]; intros ah; [constructor|].
    cbn [quote_units].
    destruct (is_high_surrogate c) eqn:Ehi.
    - unfold is_high_surrogate in Ehi. apply andb_true_iff in Ehi as [H1 _].
      apply N.leb_le in H1.
      destruct t as [|d t']; [apply Hesc|].
      destruct (is_low_surrogate d).
      + constructor; [lia|apply IH].
      + apply Forall_app. split; [apply Hesc|apply IH].
    - destruct (is_low_surrogate c) eqn:Elo.
      + unfold is_low_surrogate in Elo. apply andb_true_iff in Elo as [H1 _].
        apply N.leb_le in H1.
        apply Forall_app. split; [|apply IH].
        destruct ah; [constructor; [lia|constructor]|apply Hesc].
      + apply Forall_app. split; [apply Hunit|apply IH]. }
  unfold quote. apply Forall_app. split; [now apply Hchk|].
  apply Forall_app. split; [apply Hunits|now apply Hchk].
Qed.

End Wire_facts.

Module Wire_more.

Import Json Relay Backend JS_facts Json_facts Relay_facts Wire_facts.

(** *** The two records *)

Lemma delta_record_line chunk :
  delta_record chunk = Wire.delta_line chunk ++ [LF].
Proof.
  unfold delta_record, Wire.delta_line. now rewrite <- !app_assoc.
Qed.

Lemma done_record_line text :
  done_record text = Wire.done_line text ++ [LF].
Proof.
  unfold done_record, Wire.done_line. now rewrite <- !app_assoc.
Qed.

Lemma printable_no_LF (l : jstring) :
  Forall (fun c => (32 <= c)%N) l -> ~ In LF l.
Proof.
  intros H Hin. rewrite Forall_forall in H. apply H in Hin.
  unfold LF in Hin. lia.
Qed.

Lemma lit_printable (s : string) :
  forallb (N.leb 32) (lit s) = true -> Forall (fun c => (32 <= c)%N) (lit s).
Proof.
  intros H. apply Forall_forall. intros x Hx.
  rewrite forallb_forall in H. now apply N.leb_le, H.
Qed.

Lemma delta_line_printable chunk :
  Forall (fun c => (32 <= c)%N) (Wire.delta_line chunk).
Proof.
  unfold Wire.delta_line.
  apply Forall_app; split; [now apply lit_printable|].
  apply Forall_app; split; [apply quote_printable|].
  apply Forall_app; split; [now apply lit_printable|].
  apply Forall_app; split; [apply quote_printable|now apply lit_printable].
Qed.

Lemma done_line_printable text :
  Forall (fun c => (32 <= c)%N) (Wire.done_line text).
Proof.
  unfold Wire.done_line.
  apply Forall_app; split; [now apply lit_printable|].
  apply Forall_app; split; [apply quote_printable|].
  apply Forall_app; split; [now apply lit_printable|].
  apply Forall_app; split; [apply quote_printable|].
  apply Forall_app; split; [now apply lit_printable|].
  apply Forall_app; split; [apply quote_printable|now apply lit_printable].
Qed.

(** [JSON.parse] reads a delta record back as the object that was
    written. *)
Lemma delta_line_parses chunk :
  JSON_parse (Wire.delta_line chunk)
  = Some (JObject [(lit "delta", JString chunk)]).
Proof.
  unfold JSON_parse, Wire.delta_line.
  change (lit "{" ++ quote (lit "delta") ++ lit ":" ++ quote chunk ++ lit "}")
    with (123%N :: (quote (lit "delta") ++ 58%N :: (quote chunk ++ [125%N]))).
  rewrite (@tokenize_emit LStart 123%N LStart TLBrace) by reflexivity.
  rewrite (@tokenize_quote (lit "delta") _
             [TColon; TValue (JString chunk); TRBrace]).
  - reflexivity.
  - rewrite (@tokenize_emit LStart 58%N LStart TColon) by reflexivity.
    now rewrite (@tokenize_quote chunk [125%N] [TRBrace]).
Qed.

Lemma done_line_parses text :
  JSON_parse (Wire.done_line text)
  = Some (JObject [(lit "done", JBool true); (lit "text", JString text)]).
Proof.
  unfold JSON_parse, Wire.done_line.
  change (lit "{" ++ quote (lit "done") ++ lit ":true," ++ quote (lit "text")
          ++ lit ":" ++ quote text ++ lit "}")
    with (123%N :: (quote (lit "done")
                    ++ lit ":true,"
                    ++ (quote (lit "text") ++ 58%N :: (quote text ++ [125%N])))).
  rewrite (@tokenize_emit LStart 123%N LStart TLBrace) by reflexivity.
  rewrite (@tokenize_quote (lit "done") _
             [TColon; TValue (JBool true); TComma;
              TValue (JString (lit "text")); TColon;
              TValue (JString text); TRBrace]).
  - reflexivity.
  - assert (Hrest : tokenize LStart
                      (quote (lit "text") ++ 58%N :: (quote text ++ [125%N]))
                    = Some [TValue (JString (lit "text")); TColon;
                            TValue (JString text); TRBrace]).
    { apply tokenize_quote.
      rewrite (@tokenize_emit LStart 58%N LStart TColon) by reflexivity.
      now rewrite (@tokenize_quote text [125%N] [TRBrace]). }
    change (lit ":true," ++ quote (lit "text")
            ++ 58%N :: (quote text ++ [125%N]))
      with (58%N :: 116%N :: 114%N :: 117%N :: 101%N :: 44%N
            :: (quote (lit "text") ++ 58%N :: (quote text ++ [125%N]))).
    rewrite (@tokenize_emit LStart 58%N LStart TColon) by reflexivity.
    rewrite (@tokenize_silent LStart 116%N (LWord (lit "rue") (JBool true)))
      by reflexivity.
    rewrite (@tokenize_silent (LWord (lit "rue") (JBool true)) 114%N
               (LWord (lit "ue") (JBool true))) by reflexivity.
    rewrite (@tokenize_silent (LWord (lit "ue") (JBool true)) 117%N
               (LWord (lit "e") (JBool true))) by reflexivity.
    rewrite (@tokenize_emit (LWord (lit "e") (JBool true)) 101%N LStart
               (TValue (JBool true))) by reflexivity.
    rewrite (@tokenize_emit LStart 44%N LStart TComma) by reflexivity.
    now rewrite Hrest.
Qed.

Lemma parsed_not_blank line v :
  JSON_parse line = Some v -> str_truthy (trim line) = true.
Proof.
  intros H. destruct (str_truthy (trim line)) eqn:E; [reflexivity|].
  apply blank_not_json in E. congruence.
Qed.

Lemma forward_delta_line id chunk :
  forward_complete id (Wire.delta_line chunk) = [AiDelta id (JString chunk)].
Proof.
  unfold forward_complete, forward_line.
  rewrite (parsed_not_blank _ (delta_line_parses chunk)), delta_line_parses.
  reflexivity.
Qed.

Lemma forward_done_line id text :
  forward_complete id (Wire.done_line text)
  = [AiDone id (if str_truthy text then JString text else JNull)].
Proof.
  unfold forward_complete, forward_line.
  rewrite (parsed_not_blank _ (done_line_parses text)), done_line_parses.
  reflexivity.
Qed.

(** *** Lines that each end with a line feed *)

Lemma lines_of_records (ls : list jstring) :
  Forall (fun l => ~ In LF l) ls ->
  split_lines (List.concat (List.map (fun l => l ++ [LF]) ls)) = ls ++ [[]].
Proof.
  induction ls as [|l ls IH]; intros H; [reflexivity|].
  inversion H as [|? ? Hl Hls]; subst.
  cbn [List.map List.concat]. rewrite <- app_assoc. cbn [app].
  rewrite Relay_more.split_lines_line by assumption.
  now rewrite IH.
Qed.

(** *** The pieces *)

Lemma pieces_bounds (fuel : nat) : forall text : jstring,
  Forall (fun p => 1 <= List.length p <= 120) (pieces fuel text).
Proof.
  induction fuel as [|f IH]; intros [|c t]; try constructor.
  - cbn [pieces].
    rewrite length_firstn. simpl List.length. lia.
  - apply IH.
Qed.

(** X9.  The body of [/v1/chat-stream] is NDJSON.  When the handler
    streams, it writes a delta record for each piece of the trimmed answer
    and then one terminal record with the whole of it.  The pieces hold
    between 1 and 120 code units and make up the answer.  Every record is
    one line that ends with the only line feed in it, holds no control
    character, and is read back by [JSON.parse] as the object that was
    written. *)
Theorem stream_is_ndjson
  (body : option json) (apiKey : option jstring)
  (generate : jstring -> option jstring) (writes : list jstring) :
  response (chat_stream body apiKey generate) = Ndjson writes ->
  exists m raw,
    get_prop (body_or_empty body) (lit "message") = Some (JString m)
    /\ generate (chat_prompt stream_sys m) = Some raw
    /\ let text := trim raw in
       let ps := pieces (List.length text) text in
       writes = List.map (fun p => Wire.delta_line p ++ [LF]) ps
                ++ [Wire.done_line text ++ [LF]]
       /\ List.concat ps = text
       /\ Forall (fun p => 1 <= List.length p <= 120) ps
       /\ (forall p, Forall (fun c => (32 <= c)%N) (Wire.delta_line p)
                     /\ JSON_parse (Wire.delta_line p)
                        = Some (JObject [(lit "delta", JString p)]))
       /\ Forall (fun c => (32 <= c)%N) (Wire.done_line text)
       /\ JSON_parse (Wire.done_line text)
          = Some (JObject [(lit "done", JBool true);
                           (lit "text", JString text)]).
Proof.
  unfold chat_stream.
  destruct (invalid_text 20000 _); [discriminate|].
  destruct apiKey as [[|k ks]|]; try discriminate.
  destruct (get_prop (body_or_empty body) (lit "message")) as [[]|];
    try discriminate.
  destruct (generate (chat_prompt stream_sys s)) as [raw|] eqn:Hg;
    [|discriminate].
  cbn [response]. intros E. injection E as <-.
  exists s, raw. split; [reflexivity|]. split; [exact Hg|].
  cbv zeta. split; [|split; [|split; [|split; [|split]]]].
  - rewrite <- done_record_line. f_equal.
    apply map_ext. intros p. apply delta_record_line.
  - now apply Backend_facts.pieces_concat.
  - apply pieces_bounds.
  - intros p. split; [apply delta_line_printable|apply delta_line_parses].
  - apply done_line_printable.
  - apply done_line_parses.
Qed.

Lemma stream_is_ndjson_witness :
  response (chat_stream (Samples.body_with "message" 3) Samples.api_key
              Samples.long_model)
  = Ndjson [Wire.delta_line (repeat 120%N 120) ++ [LF];
            Wire.delta_line (repeat 120%N 120) ++ [LF];
            Wire.delta_line (repeat 120%N 10) ++ [LF];
            Wire.done_line (repeat 120%N 250) ++ [LF]].
Proof.
  assert (H : response (chat_stream (Samples.body_with "message" 3)
                          Samples.api_key Samples.long_model)
              = Ndjson (List.map delta_record
                          (pieces 250 (repeat 120%N 250))
                        ++ [done_record (repeat 120%N 250)]))
    by (vm_compute; reflexivity).
  destruct (@stream_is_ndjson _ _ _ _ H) as (m & raw & _ & Hraw & Hw & _).
  injection Hraw as <-.
  rewrite H. apply f_equal. etransitivity; [exact Hw|].
  vm_compute. reflexivity.
Defined.

(** What the relay posts for a body made of the records of an answer. *)
Lemma relay_of_records id text chunks :
  List.concat chunks
  = List.concat (List.map (fun p => Wire.delta_line p ++ [LF])
                   (pieces (List.length text) text)
                 ++ [Wire.done_line text ++ [LF]]) ->
  streamChatToWebview id chunks = Wire.streamed id text.
Proof.
  intros Hbody. rewrite relay_eq. rewrite Hbody.
  set (ps := pieces (List.length text) text).
  assert (Hlines :
    List.map (fun p => Wire.delta_line p ++ [LF]) ps
    ++ [Wire.done_line text ++ [LF]]
    = List.map (fun l => l ++ [LF])
        (List.map Wire.delta_line ps ++ [Wire.done_line text])).
  { rewrite map_app, map_map. reflexivity. }
  rewrite Hlines. unfold complete_lines, trailing.
  rewrite lines_of_records.
  - rewrite removelast_last, last_last.
    rewrite flat_map_app. cbn [flat_map]. rewrite !app_nil_r.
    unfold Wire.streamed. fold ps. f_equal.
    + generalize ps. intros l.
      induction l as [|p l IH]; [reflexivity|].
      cbn [List.map flat_map]. rewrite forward_delta_line. cbn [app].
      now rewrite IH.
    + apply forward_done_line.
  - apply Forall_app. split.
    + apply Forall_map, Forall_forall. intros p _.
      apply printable_no_LF, delta_line_printable.
    + constructor; [|constructor].
      apply printable_no_LF, done_line_printable.
Qed.

(** X10.  Whatever the model answers and however the network cuts the
    body of [/v1/chat-stream] into chunks, the host posts one delta for
    each piece of the trimmed answer, in order, and then one terminal
    message with the whole answer, or with [null] when the answer is empty;
    the deltas put together are the answer. *)
Theorem backend_stream_is_relayed
  (id : option jstring) (body : option json) (apiKey : option jstring)
  (generate : jstring -> option jstring) (writes chunks : list jstring) :
  response (chat_stream body apiKey generate) = Ndjson writes ->
  List.concat chunks = List.concat writes ->
  exists m raw,
    get_prop (body_or_empty body) (lit "message") = Some (JString m)
    /\ generate (chat_prompt stream_sys m) = Some raw
    /\ streamChatToWebview id chunks = Wire.streamed id (trim raw)
    /\ List.concat (pieces (List.length (trim raw)) (trim raw)) = trim raw.
Proof.
  intros Hresp Hchunks.
  unfold chat_stream in Hresp.
  destruct (invalid_text 20000 _); [discriminate|].
  destruct apiKey as [[|k ks]|]; try discriminate.
  destruct (get_prop (body_or_empty body) (lit "message")) as [[]|];
    try discriminate.
  destruct (generate (chat_prompt stream_sys s)) as [raw|] eqn:Hg;
    [|discriminate].
  cbn [response] in Hresp. injection Hresp as <-.
  exists s, raw. split; [reflexivity|]. split; [exact Hg|].
  split; [|now apply Backend_facts.pieces_concat].
  apply relay_of_records. rewrite Hchunks. f_equal. f_equal.
  - apply map_ext. intros p. apply delta_record_line.
  - f_equal. apply done_record_line.
Qed.

Lemma backend_stream_is_relayed_witness :
  streamChatToWebview Samples.m1
    [firstn 7 (Wire.delta_line (lit "**A closure** keeps its scope.") ++ [LF]);
     skipn 7 (Wire.delta_line (lit "**A closure** keeps its scope.") ++ [LF])
     ++ Wire.done_line (lit "**A closure** keeps its scope.") ++ [LF]]
  = [AiDelta Samples.m1 (JString (lit "**A closure** keeps its scope."));
     AiDone Samples.m1 (JString (lit "**A closure** keeps its scope."))].
Proof.
  assert (H1 : response (chat_stream (Samples.body_with "message" 3)
                           Samples.api_key Samples.canned_model)
               = Ndjson [delta_record (lit "**A closure** keeps its scope.");
                         done_record (lit "**A closure** keeps its scope.")])
    by (vm_compute; reflexivity).
  destruct (@backend_stream_is_relayed Samples.m1 _ _ _ _
              [firstn 7 (Wire.delta_line (lit "**A closure** keeps its scope.")
                         ++ [LF]);
               skipn 7 (Wire.delta_line (lit "**A closure** keeps its scope.")
                        ++ [LF])
               ++ Wire.done_line (lit "**A closure** keeps its scope.") ++ [LF]]
              H1)
    as (m & raw & _ & Hraw & Hrel & _).
  - vm_compute. reflexivity.
  - injection Hraw as <-. rewrite Hrel. vm_compute. reflexivity.
Defined.


(** *** A request the backend refuses *)

Lemma error_body_printable msg :
  Forall (fun c => (32 <= c)%N) (Wire.error_body msg).
Proof.
  unfold Wire.error_body.
  apply Forall_app; split; [now apply lit_printable|].
  apply Forall_app; split; [apply quote_printable|].
  apply Forall_app; split; [now apply lit_printable|].
  apply Forall_app; split; [apply quote_printable|].
  apply Forall_app; split; [now apply lit_printable|].
  apply Forall_app; split; [apply quote_printable|now apply lit_printable].
Qed.

Lemma error_body_parses msg :
  JSON_parse (Wire.error_body msg)
  = Some (JObject [(lit "ok", JBool false); (lit "error", JString msg)]).
Proof.
  unfold JSON_parse, Wire.error_body.
  assert (Hrest : tokenize LStart
                    (quote (lit "error") ++ 58%N :: (quote msg ++ [125%N]))
                  = Some [TValue (JString (lit "error")); TColon;
                          TValue (JString msg); TRBrace]).
  { apply tokenize_quote.
    rewrite (@tokenize_emit LStart 58%N LStart TColon) by reflexivity.
    now rewrite (@tokenize_quote msg [125%N] [TRBrace]). }
  change (lit "{" ++ quote (lit "ok") ++ lit ":false," ++ quote (lit "error")
          ++ lit ":" ++ quote msg ++ lit "}")
    with (123%N :: (quote (lit "ok")
                    ++ 58%N :: 102%N :: 97%N :: 108%N :: 115%N :: 101%N :: 44%N
                    :: (quote (lit "error") ++ 58%N :: (quote msg ++ [125%N])))).
  rewrite (@tokenize_emit LStart 123%N LStart TLBrace) by reflexivity.
  rewrite (@tokenize_quote (lit "ok") _
             [TColon; TValue (JBool false); TComma;
              TValue (JString (lit "error")); TColon;
              TValue (JString msg); TRBrace]).
  - reflexivity.
  - rewrite (@tokenize_emit LStart 58%N LStart TColon) by reflexivity.
    rewrite (@tokenize_silent LStart 102%N (LWord (lit "alse") (JBool false)))
      by reflexivity.
    rewrite (@tokenize_silent (LWord (lit "alse") (JBool false)) 97%N
               (LWord (lit "lse") (JBool false))) by reflexivity.
    rewrite (@tokenize_silent (LWord (lit "lse") (JBool false)) 108%N
               (LWord (lit "se") (JBool false))) by reflexivity.
    rewrite (@tokenize_silent (LWord (lit "se") (JBool false)) 115%N
               (LWord (lit "e") (JBool false))) by reflexivity.
    rewrite (@tokenize_emit (LWord (lit "e") (JBool false)) 101%N LStart
               (TValue (JBool false))) by reflexivity.
    rewrite (@tokenize_emit LStart 44%N LStart TComma) by reflexivity.
    now rewrite Hrest.
Qed.

Lemma relay_of_error id msg chunks :
  List.concat chunks = Wire.error_body msg ->
  streamChatToWebview id chunks = [].
Proof.
  intros H. rewrite relay_eq, H. unfold complete_lines, trailing.
  rewrite split_lines_single
    by apply printable_no_LF, error_body_printable.
  cbn [removelast last flat_map app]. unfold on_end.
  rewrite (parsed_not_blank _ (error_body_parses msg)), error_body_parses.
  reflexivity.
Qed.

(** X11.  When [/v1/chat-stream] refuses a request or the model fails, it
    answers with status 400 or 500 and the body [{ok: false, error}].  The
    relay reads that body as a record that has neither a delta nor a done
    mark and posts nothing for it, however the body is cut into chunks:
    the panel gets no text and no terminal message. *)
Theorem refused_chat_posts_nothing
  (id : option jstring) (body : option json) (apiKey : option jstring)
  (generate : jstring -> option jstring) (status : N) (reply_body : json) :
  response (chat_stream body apiKey generate) = JsonReply status reply_body ->
  exists msg,
    reply_body = JObject [(lit "ok", JBool false); (lit "error", JString msg)]
    /\ (status = 400 \/ status = 500)%N
    /\ forall chunks, List.concat chunks = Wire.error_body msg ->
         streamChatToWebview id chunks = []
         /\ forall w, Panel.deliver w (streamChatToWebview id chunks) = w.
Proof.
  assert (Hnone : forall msg chunks,
            List.concat chunks = Wire.error_body msg ->
            streamChatToWebview id chunks = []
            /\ forall w, Panel.deliver w (streamChatToWebview id chunks) = w).
  { intros msg chunks H. rewrite (@relay_of_error id msg chunks H).
    split; reflexivity. }
  assert (Hrefused : forall st m,
    JsonReply st (JObject [(lit "ok", JBool false); (lit "error", JString m)])
    = JsonReply status reply_body ->
    (st = 400 \/ st = 500)%N ->
    exists msg,
      reply_body = JObject [(lit "ok", JBool false); (lit "error", JString msg)]
      /\ (status = 400 \/ status = 500)%N
      /\ forall chunks, List.concat chunks = Wire.error_body msg ->
           streamChatToWebview id chunks = []
           /\ forall w, Panel.deliver w (streamChatToWebview id chunks) = w).
  { intros st m E Hst. injection E as <- <-.
    exists m. split; [reflexivity|]. split; [exact Hst|]. apply Hnone. }
  unfold chat_stream.
  destruct (invalid_text 20000 _);
    [intros E; apply (Hrefused _ _ E); now left|].
  destruct apiKey as [[|k ks]|];
    try (intros E; apply (Hrefused _ _ E); now right).
  destruct (get_prop (body_or_empty body) (lit "message")) as [[]|];
    try (intros E; apply (Hrefused _ _ E); now right).
  destruct (generate _); [discriminate|].
  intros E; apply (Hrefused _ _ E); now right.
Qed.

Lemma refused_chat_posts_nothing_witness :
  streamChatToWebview Samples.m1
    [firstn 9 (Wire.error_body (lit "Invalid 'message'."));
     skipn 9 (Wire.error_body (lit "Invalid 'message'."))]
  = [].
Proof.
  assert (H : response (chat_stream None Samples.api_key Samples.canned_model)
              = JsonReply 400
                  (JObject [(lit "ok", JBool false);
                            (lit "error", JString (lit "Invalid 'message'."))]))
    by reflexivity.
  destruct (@refused_chat_posts_nothing Samples.m1 _ _ _ _ _ H)
    as (msg & Hmsg & _ & Hrel).
  assert (Hm : msg = lit "Invalid 'message'.").
  { assert (Hg : get_prop (JObject [(lit "ok", JBool false);
                                    (lit "error", JString msg)]) (lit "error")
                 = Some (JString (lit "Invalid 'message'.")))
      by (rewrite <- Hmsg; reflexivity).
    cbn in Hg. congruence. }
  apply Hrel. rewrite Hm. vm_compute. reflexivity.
Defined.

End Wire_more.

Module Panel_more.

Import Json Relay Webview Panel JS_facts Panel_facts.

Lemma fresh_id_truthy n : str_truthy (fresh_id n) = true.
Proof. reflexivity. Qed.

(** A message that was sent has its placeholder pending. *)
Lemma placeholder_pending (id : jstring) (w : webview) ix chat' n :
  str_truthy id = true ->
  pending_bubble (Some id)
    {| chat := chat'; pending := JsMap.set id ix (pending w); counter := n |}
  = Some ix.
Proof.
  intros Hid. unfold pending_bubble. cbn [pending].
  assert (Hget : JsMap.get id (JsMap.set id ix (pending w)) = Some ix)
    by (rewrite get_set, str_eqb_refl; reflexivity).
  rewrite Hid, (get_has _ _ Hget). exact Hget.
Qed.

Lemma placeholder_bubble (l : list bubble) (u p : bubble) :
  nth_error (l ++ [u; p]) (S (List.length l)) = Some p.
Proof.
  rewrite nth_error_app2 by lia.
  replace (S (List.length l) - List.length l) with 1 by lia. reflexivity.
Qed.

Lemma earlier_bubble (l : list bubble) (u p : bubble) k :
  k < List.length l -> nth_error (l ++ [u; p]) k = nth_error l k.
Proof. intros H. now rewrite nth_error_app1. Qed.

Lemma set_body_at ix c w r c0 :
  nth_error (chat w) ix = Some {| role := r; body := c0 |} ->
  nth_error (chat (set_body ix c w)) ix = Some {| role := r; body := c |}.
Proof.
  intros H. unfold set_body. rewrite H. cbn [chat role].
  apply nth_error_set_nth. apply nth_error_Some. congruence.
Qed.

Lemma drop_pending_chat id w : chat (drop_pending id w) = chat w.
Proof. destruct id; reflexivity. Qed.

(** A message that is sent: what is posted, and its placeholder. *)
Lemma sent_placeholder (w : webview) (val : jstring) :
  JsMap.wf (pending w) ->
  str_truthy val = true ->
  let id := fresh_id (counter w + 1) in
  let ix := S (List.length (chat w)) in
  let w1 := fst (handleSend val w) in
  snd (handleSend val w) = Some (id, val)
  /\ pending_bubble (Some id) w1 = Some ix
  /\ nth_error (chat w1) ix
     = Some {| role := lit "ai"; body := Text [ELLIPSIS] |}
  /\ JsMap.wf (pending w1).
Proof.
  intros Hwf Hval id ix w1.
  assert (Hsend : handleSend val w
    = ({| chat := chat w ++ [ {| role := lit "user"; body := Text val |};
                              {| role := lit "ai"; body := Text [ELLIPSIS] |} ];
          pending := JsMap.set id ix (pending w);
          counter := (counter w + 1)%N |}, Some (id, val))).
  { unfold handleSend. rewrite Hval. reflexivity. }
  unfold w1. rewrite Hsend. cbn [fst snd chat pending].
  split; [reflexivity|]. split; [|split].
  - apply placeholder_pending, fresh_id_truthy.
  - apply placeholder_bubble.
  - exact (@set_wf nat (pending w) id ix Hwf).
Qed.

(** The terminal message of a stream, handled for a pending bubble. *)
Lemma done_into_bubble id (w : webview) ix r s (text : jstring) :
  JsMap.wf (pending w) ->
  pending_bubble id w = Some ix ->
  nth_error (chat w) ix = Some {| role := r; body := Text s |} ->
  let w' := on_done id (if str_truthy text then JString text else JNull) w in
  nth_error (chat w') ix
  = Some {| role := r;
            body := if str_truthy text then Html (render_text text)
                    else Text s |}
  /\ pending_bubble id w' = None.
Proof.
  intros Hwf Hp Hb w'. split.
  - unfold w', on_done. rewrite Hp, drop_pending_chat.
    destruct text as [|c t]; cbn [str_truthy]; [exact Hb|].
    unfold renderMarkdown. cbn [truthy negb js_String str_truthy].
    eapply set_body_at. exact Hb.
  - apply on_done_not_pending. exact Hwf.
Qed.

(** X12.  A message that is sent gets a placeholder showing an ellipsis.
    While the answer streams, the placeholder shows the ellipsis followed by
    the text received so far; the terminal message replaces all of it by the
    rendering of the answer and ends the wait.  When the answer is empty the
    placeholder keeps the ellipsis for good. *)
Theorem answer_replaces_placeholder (w : webview) (val text : jstring) :
  JsMap.wf (pending w) ->
  str_truthy val = true ->
  let id := fresh_id (counter w + 1) in
  let ix := S (List.length (chat w)) in
  let w1 := fst (handleSend val w) in
  let w2 := deliver w1
              (List.map (fun p => AiDelta (Some id) (JString p))
                 (Backend.pieces (List.length text) text)) in
  let w3 := deliver w1 (Wire.streamed (Some id) text) in
  snd (handleSend val w) = Some (id, val)
  /\ nth_error (chat w1) ix
     = Some {| role := lit "ai"; body := Text [ELLIPSIS] |}
  /\ nth_error (chat w2) ix
     = Some {| role := lit "ai"; body := Text (ELLIPSIS :: text) |}
  /\ nth_error (chat w3) ix
     = Some {| role := lit "ai";
               body := if str_truthy text then Html (render_text text)
                       else Text [ELLIPSIS] |}
  /\ pending_bubble (Some id) w3 = None.
Proof.
  intros Hwf Hval id ix w1 w2 w3.
  destruct (@sent_placeholder w val Hwf Hval) as (Hsend & Hp1 & Hb1 & Hwf1).
  fold id ix w1 in Hsend, Hp1, Hb1, Hwf1.
  destruct (@deliver_fragments (Some id)
              (Backend.pieces (List.length text) text) w1 ix
              (lit "ai") [ELLIPSIS] Hp1 Hb1) as [Hp2 Hb2].
  fold w2 in Hp2, Hb2.
  rewrite Backend_facts.pieces_concat in Hb2 by lia.
  assert (Hwf2 : JsMap.wf (pending w2)) by (apply deliver_wf; exact Hwf1).
  assert (H3 : w3 = on_done (Some id)
                      (if str_truthy text then JString text else JNull) w2).
  { unfold w3, Wire.streamed. rewrite deliver_app. reflexivity. }
  destruct (@done_into_bubble (Some id) w2 ix (lit "ai") (ELLIPSIS :: text)
              text Hwf2 Hp2 Hb2) as [Hb3 Hp3].
  rewrite <- H3 in Hb3, Hp3.
  split; [exact Hsend|]. split; [exact Hb1|]. split; [exact Hb2|].
  split; [|exact Hp3].
  rewrite Hb3. destruct text; reflexivity.
Qed.

Lemma answer_replaces_placeholder_witness :
  nth_error
    (chat (deliver (fst (handleSend (lit "hi") initial))
             (Wire.streamed (Some (lit "m1")) (lit "a < b"))))
    2
  = Some {| role := lit "ai"; body := Html (lit "<p>a &lt; b</p>") |}.
Proof.
  assert (Hwf : JsMap.wf (pending initial)) by constructor.
  destruct (@answer_replaces_placeholder initial (lit "hi") (lit "a < b")
              Hwf eq_refl) as (_ & _ & _ & H & _).
  etransitivity; [exact H|]. vm_compute. reflexivity.
Defined.


(** *** Conversations side by side *)

Lemma pending_bubble_of_get j w jx :
  str_truthy j = true -> JsMap.get j (pending w) = Some jx ->
  pending_bubble (Some j) w = Some jx.
Proof.
  intros Hj Hg. unfold pending_bubble. now rewrite Hj, (get_has _ _ Hg).
Qed.

Lemma pending_bubble_truthy j w jx :
  pending_bubble (Some j) w = Some jx ->
  str_truthy j = true /\ JsMap.get j (pending w) = Some jx.
Proof.
  unfold pending_bubble.
  destruct (str_truthy j); [|discriminate].
  destruct (JsMap.has j (pending w)); [|discriminate]. now split.
Qed.

Lemma pending_bubble_same j w w' :
  pending w' = pending w -> pending_bubble (Some j) w' = pending_bubble (Some j) w.
Proof. intros H. unfold pending_bubble. now rewrite H. Qed.

(** X13.  While several answers stream, a message for one correlation id
    leaves the others alone: every other pending id keeps its bubble, and
    that bubble shows what it showed. *)
Theorem other_conversations_untouched
  (w : webview) (m : message) (j : jstring) (jx : nat) :
  consistent w ->
  pending_bubble (Some j) w = Some jx ->
  Wire.addressee m <> Some j ->
  pending_bubble (Some j) (on_message w m) = Some jx
  /\ nth_error (chat (on_message w m)) jx = nth_error (chat w) jx.
Proof.
  intros Hc Hj Hm.
  destruct (pending_bubble_truthy _ _ Hj) as [Hjt Hjg].
  destruct Hc as (Hwf & Htext & Hinj).
  destruct (Htext _ _ Hjg) as (rj & sj & Hjb).
  assert (Hlt : jx < List.length (chat w))
    by (apply nth_error_Some; congruence).
  assert (Hother : forall id ix, id <> Some j ->
            pending_bubble id w = Some ix -> ix <> jx).
  { intros id ix Hid Hp ->.
    destruct (pending_bubble_get _ _ Hp) as (i & -> & Hig).
    apply Hid. f_equal. exact (Hinj _ _ _ Hig Hjg). }
  destruct m as [id d|id t]; cbn [on_message Wire.addressee] in *.
  - split.
    + rewrite (@pending_bubble_same j w _ (on_delta_pending id d w)).
      exact Hj.
    + unfold on_delta.
      destruct (pending_bubble id w) as [ix|] eqn:Hp.
      * pose proof (Hother _ _ Hm Hp) as Hne.
        destruct (nth_error (chat w) ix) as [[r [s|h]]|]; try reflexivity.
        destruct (js_String _); [|reflexivity].
        now apply set_body_other.
      * destruct (addMessage _ _ w) as [[w' k]|] eqn:Ha; [|reflexivity].
        destruct (addMessage_chat _ _ _ Ha) as (_ & s & ->).
        now apply nth_error_app1.
  - unfold on_done.
    destruct (pending_bubble id w) as [ix|] eqn:Hp.
    + pose proof (Hother _ _ Hm Hp) as Hne.
      destruct (pending_bubble_get _ _ Hp) as (i & -> & Hig).
      assert (Hij : str_eqb j i = false)
        by (apply str_eqb_neq; intros ->; now apply Hm).
      set (w1 := match t with
                 | JString _ =>
                     match renderMarkdown t with
                     | Some h => set_body ix (Html h) w
                     | None => w
                     end
                 | _ => w
                 end).
      assert (Hw1 : pending w1 = pending w
                    /\ nth_error (chat w1) jx = nth_error (chat w) jx).
      { unfold w1. destruct t; try (split; reflexivity).
        destruct (renderMarkdown _); [|split; reflexivity].
        split; [apply set_body_pending|now apply set_body_other]. }
      destruct Hw1 as [Hpw Hcw].
      split.
      * apply pending_bubble_of_get; [exact Hjt|].
        cbn [drop_pending pending]. rewrite Hpw.
        rewrite get_delete by exact Hwf. now rewrite Hij.
      * cbn [drop_pending chat]. exact Hcw.
    + destruct (truthy t); [|now split].
      destruct (addMessage _ _ w) as [[w1 k]|] eqn:Ha; [|now split].
      pose proof (addMessage_pending _ _ _ Ha) as Hpw.
      destruct (addMessage_chat _ _ _ Ha) as (-> & s & Hch).
      assert (Hk : List.length (chat w) <> jx) by lia.
      destruct (renderMarkdown t).
      * split.
        -- rewrite (@pending_bubble_same j w _
                      (eq_trans (set_body_pending _ _ w1) Hpw)).
           exact Hj.
        -- rewrite set_body_other by exact Hk.
           rewrite Hch. now apply nth_error_app1.
      * split.
        -- now rewrite (@pending_bubble_same j w _ Hpw).
        -- rewrite Hch. now apply nth_error_app1.
Qed.

Lemma other_conversations_untouched_witness :
  nth_error
    (chat (on_message
             (fst (handleSend (lit "second") (fst (handleSend (lit "first") initial))))
             (AiDone (Some (lit "m2")) (JString (lit "done")))))
    2
  = Some {| role := lit "ai"; body := Text [ELLIPSIS] |}.
Proof.
  assert (Hc : consistent
                 (fst (handleSend (lit "second")
                         (fst (handleSend (lit "first") initial))))).
  { apply reachable_consistent. do 2 apply reach_send. apply reach_initial. }
  assert (Hne : Wire.addressee (AiDone (Some (lit "m2")) (JString (lit "done")))
                <> Some (lit "m1")) by discriminate.
  destruct (@other_conversations_untouched _ _ (lit "m1") 2 Hc eq_refl Hne)
    as [_ H].
  etransitivity; [exact H|]. vm_compute. reflexivity.
Defined.

(** *** Seeded explanations *)

Lemma seed_state term languageId w :
  fst (Seed.seedFromExplain term languageId w)
  = fst (handleSend (lit "Explain: " ++ term) w).
Proof. reflexivity. Qed.

Lemma length_set_nth (A : Type) (x : A) (l : list A) : forall n,
  List.length (set_nth n x l) = List.length l.
Proof.
  induction l as [|y l IH]; intros [|n]; cbn [set_nth List.length];
    try reflexivity.
  now rewrite IH.
Qed.

Lemma step_consistent w w' : consistent w -> Seed.step w w' -> consistent w'.
Proof.
  intros Hc Hs. destruct Hs as [w0 val|w0 term languageId|w0 text|w0 m].
  - now apply handleSend_consistent.
  - rewrite seed_state. now apply handleSend_consistent.
  - unfold Seed.notice.
    destruct (addMessage _ _ w0) as [[w1 ix]|] eqn:Ha; [|exact Hc].
    exact (@addMessage_consistent _ _ _ _ _ Hc Ha).
  - destruct m; cbn [on_message].
    + now apply on_delta_consistent.
    + now apply on_done_consistent.
Qed.

Lemma seeded_consistent w : Seed.reachable w -> consistent w.
Proof.
  induction 1 as [|w w' _ IH Hs].
  - apply reachable_consistent. apply reach_initial.
  - exact (step_consistent IH Hs).
Qed.

(** X14.  In every state the panel reaches by sending messages, seeding
    explanations, adding the texts of its buttons and handling the host's
    messages (the chat is not emptied in between), the pending map has no
    repeated id, every pending id stands for a bubble of the chat that
    still holds plain text, and no two ids stand for the same bubble. *)
Theorem seeded_panel_is_consistent (w : webview) :
  Seed.reachable w ->
  consistent w
  /\ forall id ix, pending_bubble id w = Some ix ->
       ix < List.length (chat w)
       /\ exists r s, nth_error (chat w) ix = Some {| role := r; body := Text s |}.
Proof.
  intros H. pose proof (seeded_consistent H) as Hc.
  split; [exact Hc|].
  intros id ix Hp.
  destruct (pending_bubble_get _ _ Hp) as (i & _ & Hg).
  destruct Hc as (_ & Htext & _).
  destruct (Htext _ _ Hg) as (r & s & Hb).
  split; [apply nth_error_Some; congruence|now exists r, s].
Qed.

Lemma seeded_panel_is_consistent_witness :
  consistent
    (on_message
       (fst (Seed.seedFromExplain (lit "closure") (Some (JString (lit "javascript")))
               initial))
       (AiDelta (Some (lit "m1")) (JString (lit "A closure")))).
Proof.
  apply seeded_panel_is_consistent.
  eapply Seed.after; [|apply Seed.step_message].
  eapply Seed.after; [|apply Seed.step_seed].
  apply Seed.start.
Defined.

(** X15.  What the chat shows is never taken away.  A step of the panel
    keeps every bubble there is, with its role, and only adds bubbles at the
    end; a bubble that shows a rendered answer stays exactly as it is,
    whatever message of the host is handled next. *)
Theorem finished_answers_are_final (w w' : webview) :
  Seed.reachable w -> Seed.step w w' ->
  List.length (chat w) <= List.length (chat w')
  /\ (forall k b, nth_error (chat w) k = Some b ->
        exists b', nth_error (chat w') k = Some b' /\ role b' = role b)
  /\ (forall k r h,
        nth_error (chat w) k = Some {| role := r; body := Html h |} ->
        nth_error (chat w') k = Some {| role := r; body := Html h |}).
Proof.
  intros Hr Hs. pose proof (seeded_consistent Hr) as Hc.
  assert (Hgrow : forall l (extra : list bubble),
    List.length l <= List.length (l ++ extra)
    /\ (forall k b, nth_error l k = Some b ->
          exists b', nth_error (l ++ extra) k = Some b' /\ role b' = role b)
    /\ (forall k r h,
          nth_error l k = Some {| role := r; body := Html h |} ->
          nth_error (l ++ extra) k = Some {| role := r; body := Html h |})).
  { intros l extra.
    assert (Hk : forall k b, nth_error l k = Some b ->
                   nth_error (l ++ extra) k = Some b).
    { intros k b H. rewrite nth_error_app1; [exact H|].
      apply nth_error_Some. congruence. }
    split; [rewrite length_app; lia|]. split.
    - intros k b H. exists b. split; [now apply Hk|reflexivity].
    - intros k r h H. now apply Hk. }
  assert (Hsame : forall w1, chat w1 = chat w ->
    List.length (chat w) <= List.length (chat w1)
    /\ (forall k b, nth_error (chat w) k = Some b ->
          exists b', nth_error (chat w1) k = Some b' /\ role b' = role b)
    /\ (forall k r h,
          nth_error (chat w) k = Some {| role := r; body := Html h |} ->
          nth_error (chat w1) k = Some {| role := r; body := Html h |})).
  { intros w1 ->. split; [lia|]. split; [|tauto].
    intros k b H. now exists b. }
  (* a bubble that holds text gets another body *)
  assert (Hset : forall ix c r s w0,
    chat w0 = chat w ->
    nth_error (chat w) ix = Some {| role := r; body := Text s |} ->
    List.length (chat w) <= List.length (chat (set_body ix c w0))
    /\ (forall k b, nth_error (chat w) k = Some b ->
          exists b', nth_error (chat (set_body ix c w0)) k = Some b'
                     /\ role b' = role b)
    /\ (forall k r' h,
          nth_error (chat w) k = Some {| role := r'; body := Html h |} ->
          nth_error (chat (set_body ix c w0)) k
          = Some {| role := r'; body := Html h |})).
  { intros ix c r s w0 Hch Hix.
    assert (Hat : nth_error (chat (set_body ix c w0)) ix
                  = Some {| role := r; body := c |})
      by (eapply set_body_at; rewrite Hch; exact Hix).
    assert (Hoff : forall k, ix <> k ->
              nth_error (chat (set_body ix c w0)) k = nth_error (chat w) k)
      by (intros k Hk; rewrite set_body_other by exact Hk; now rewrite Hch).
    split; [|split].
    - unfold set_body. rewrite Hch, Hix. cbn [chat].
      now rewrite length_set_nth.
    - intros k b Hk. destruct (Nat.eq_dec ix k) as [<-|Hne].
      + rewrite Hix in Hk. injection Hk as <-.
        eexists. split; [exact Hat|reflexivity].
      + exists b. split; [now rewrite Hoff|reflexivity].
    - intros k r' h Hk. destruct (Nat.eq_dec ix k) as [<-|Hne].
      + rewrite Hix in Hk. discriminate.
      + now rewrite Hoff. }
  destruct Hs as [w val|w term languageId|w text|w m].
  - unfold handleSend. destruct (str_truthy val); cbn [fst chat];
      [apply Hgrow|now apply Hsame].
  - cbn [Seed.seedFromExplain fst chat]. apply Hgrow.
  - unfold Seed.notice.
    destruct (addMessage _ _ w) as [[w1 ix]|] eqn:Ha; [|now apply Hsame].
    destruct (addMessage_chat _ _ _ Ha) as (_ & s & ->). apply Hgrow.
  - destruct m as [id d|id t]; cbn [on_message].
    + unfold on_delta.
      destruct (pending_bubble id w) as [ix|] eqn:Hp.
      * destruct (nth_error (chat w) ix) as [[r [s|h]]|] eqn:Hix;
          try (now apply Hsame).
        destruct (js_String _); [|now apply Hsame].
        now apply (Hset ix _ r s w).
      * destruct (addMessage _ _ w) as [[w1 k]|] eqn:Ha; [|now apply Hsame].
        destruct (addMessage_chat _ _ _ Ha) as (_ & s & ->). apply Hgrow.
    + unfold on_done.
      destruct (pending_bubble id w) as [ix|] eqn:Hp.
      * rewrite drop_pending_chat.
        destruct (pending_bubble_get _ _ Hp) as (i & _ & Hg).
        destruct Hc as (_ & Htext & _).
        destruct (Htext _ _ Hg) as (r & s & Hix).
        destruct t; try (now apply Hsame).
        destruct (renderMarkdown _); [|now apply Hsame].
        now apply (Hset ix _ r s w).
      * destruct (truthy t); [|now apply Hsame].
        destruct (addMessage _ _ w) as [[w1 k]|] eqn:Ha; [|now apply Hsame].
        destruct (addMessage_chat _ _ _ Ha) as (-> & s & Hch).
        destruct (renderMarkdown t) as [h|].
        -- assert (Hnew : nth_error (chat w1) (List.length (chat w))
                          = Some {| role := lit "ai"; body := Text s |}).
           { rewrite Hch, nth_error_app2 by lia.
             now rewrite Nat.sub_diag. }
           assert (Hat : nth_error (chat (set_body (List.length (chat w))
                                            (Html h) w1))
                           (List.length (chat w))
                         = Some {| role := lit "ai"; body := Html h |})
             by (eapply set_body_at; exact Hnew).
           assert (Hold : forall k b, nth_error (chat w) k = Some b ->
                     nth_error (chat (set_body (List.length (chat w))
                                        (Html h) w1)) k = Some b).
           { intros k b Hk.
             assert (Hlt : k < List.length (chat w))
               by (apply nth_error_Some; congruence).
             rewrite set_body_other by lia.
             rewrite Hch, nth_error_app1 by exact Hlt. exact Hk. }
           split; [|split].
           ++ assert (Hs : List.length (chat w)
                           < List.length (chat (set_body (List.length (chat w))
                                                  (Html h) w1)))
                by (apply nth_error_Some; congruence).
              lia.
           ++ intros k b Hk. exists b. split; [now apply Hold|reflexivity].
           ++ intros k r h0 Hk. now apply Hold.
        -- rewrite Hch. apply Hgrow.
Qed.

Lemma finished_answers_are_final_witness :
  nth_error
    (chat (on_message
             (on_message Panel.initial
                (AiDone None (JString (lit "done"))))
             (AiDelta None (JString (lit "late")))))
    1
  = Some {| role := lit "ai"; body := Html (lit "<p>done</p>") |}.
Proof.
  assert (Hr : Seed.reachable
                 (on_message Panel.initial (AiDone None (JString (lit "done")))))
    by (eapply Seed.after; [apply Seed.start|apply Seed.step_message]).
  destruct (@finished_answers_are_final _ _ Hr
              (Seed.step_message _ (AiDelta None (JString (lit "late")))))
    as (_ & _ & H).
  apply H. vm_compute. reflexivity.
Defined.

End Panel_more.

(* ------------------------------------------------------------------ *)
(** ** [String.prototype.trim] *)
(* ------------------------------------------------------------------ *)

Module Trim_facts.

Section Trim.

Variable A : Type.
Variable sp : A -> bool.

Lemma trimStartBy_head (s : list A) c r :
  trimStartBy sp s = c :: r -> sp c = false.
Proof.
  induction s as [|x s IH]; cbn [trimStartBy]; [discriminate|].
  destruct (sp x) eqn:Ex; [exact IH|].
  intros E. injection E as <- _. exact Ex.
Qed.

Lemma trimStartBy_fixed (s : list A) c r :
  s = c :: r -> sp c = false -> trimStartBy sp s = s.
Proof. intros -> H. cbn [trimStartBy]. now rewrite H. Qed.

Lemma trimStartBy_incl (s : list A) c :
  In c (trimStartBy sp s) -> In c s.
Proof.
  induction s as [|x s IH]; cbn [trimStartBy]; [tauto|].
  destruct (sp x); [intros H; right; now apply IH|tauto].
Qed.

Lemma trimStartBy_keeps (s : list A) c :
  In c s -> sp c = false -> In c (trimStartBy sp s).
Proof.
  intros Hin Hc. induction s as [|x s IH]; [contradiction|].
  cbn [trimStartBy]. destruct (sp x) eqn:Ex; [|exact Hin].
  destruct Hin as [->|Hin]; [congruence|now apply IH].
Qed.

Lemma trimStartBy_snoc (s : list A) c :
  sp c = false -> trimStartBy sp (s ++ [c]) = trimStartBy sp s ++ [c].
Proof.
  intros Hc. induction s as [|x s IH]; cbn [trimStartBy app].
  - now rewrite Hc.
  - destruct (sp x); [exact IH|reflexivity].
Qed.

Lemma trimBy_incl (s : list A) c : In c (trimBy sp s) -> In c s.
Proof.
  unfold trimBy, trimEndBy. intros H.
  apply in_rev, trimStartBy_incl in H. apply in_rev in H.
  now apply trimStartBy_incl.
Qed.

Lemma trimBy_keeps (s : list A) c :
  In c s -> sp c = false -> In c (trimBy sp s).
Proof.
  intros Hin Hc. unfold trimBy, trimEndBy.
  apply in_rev. rewrite rev_involutive.
  apply trimStartBy_keeps; [|exact Hc].
  apply in_rev. rewrite rev_involutive. now apply trimStartBy_keeps.
Qed.

(** What is left after trimming is empty or has a character that is not
    white space. *)
Lemma trimBy_solid (s : list A) :
  trimBy sp s <> [] -> exists c, In c (trimBy sp s) /\ sp c = false.
Proof.
  unfold trimBy, trimEndBy. intros H.
  destruct (trimStartBy sp (rev (trimStartBy sp s))) as [|c r] eqn:E;
    [now contradiction H|].
  exists c. split.
  - apply in_rev. rewrite rev_involutive. now left.
  - exact (trimStartBy_head _ E).
Qed.

Lemma trimEndBy_cons (c : A) (r : list A) :
  sp c = false -> trimEndBy sp (c :: r) = c :: trimEndBy sp r.
Proof.
  intros Hc. unfold trimEndBy. cbn [rev].
  rewrite trimStartBy_snoc by exact Hc.
  rewrite rev_app_distr. reflexivity.
Qed.

Lemma trimStartBy_idem (s : list A) :
  trimStartBy sp (trimStartBy sp s) = trimStartBy sp s.
Proof.
  destruct (trimStartBy sp s) as [|c r] eqn:E; [reflexivity|].
  eapply trimStartBy_fixed; [reflexivity|exact (trimStartBy_head _ E)].
Qed.

Lemma trimEndBy_idem (s : list A) :
  trimEndBy sp (trimEndBy sp s) = trimEndBy sp s.
Proof.
  unfold trimEndBy. rewrite rev_involutive. now rewrite trimStartBy_idem.
Qed.

Lemma trimBy_idem (s : list A) : trimBy sp (trimBy sp s) = trimBy sp s.
Proof.
  unfold trimBy.
  destruct (trimStartBy sp s) as [|c r] eqn:E; [reflexivity|].
  pose proof (trimStartBy_head _ E) as Hc.
  rewrite (trimEndBy_cons r Hc).
  rewrite (@trimStartBy_fixed (c :: trimEndBy sp r) c (trimEndBy sp r)
             eq_refl Hc).
  rewrite <- (trimEndBy_cons r Hc). apply trimEndBy_idem.
Qed.

Lemma trimBy_length (s : list A) : List.length (trimBy sp s) <= List.length s.
Proof.
  assert (H : forall l, List.length (trimStartBy sp l) <= List.length l).
  { induction l as [|x l IH]; cbn [trimStartBy]; [lia|].
    destruct (sp x); simpl; lia. }
  unfold trimBy, trimEndBy. rewrite length_rev.
  etransitivity; [apply H|]. rewrite length_rev. apply H.
Qed.

End Trim.

Lemma trim_idem (s : jstring) : trim (trim s) = trim s.
Proof. apply trimBy_idem. Qed.

Lemma line_of_char (s : jstring) (c : char) :
  In c s -> c <> LF -> exists l, In l (split_lines s) /\ In c l.
Proof.
  induction s as [|x s IH]; [contradiction|].
  intros Hin Hc. cbn [split_lines].
  destruct (N.eqb x LF) eqn:Ex.
  - apply N.eqb_eq in Ex.
    destruct Hin as [Heq|Hin]; [congruence|].
    destruct (IH Hin Hc) as (l & Hl & Hcl).
    exists l. split; [now right|exact Hcl].
  - destruct (split_lines s) as [|l ls] eqn:Es.
    + destruct Hin as [->|Hin]; [exists [c]; split; now left|].
      destruct (IH Hin Hc) as (l & [] & _).
    + destruct Hin as [->|Hin].
      * exists (c :: l). split; now left.
      * destruct (IH Hin Hc) as (l' & [Heq|Hl'] & Hcl).
        -- subst l'. exists (x :: l). split; [now left|now right].
        -- exists l'. split; [now right|exact Hcl].
Qed.

(** A text that is not empty after trimming has a line that is not
    blank. *)
Lemma trimmed_has_line (raw : jstring) :
  trim raw <> [] ->
  exists l, In l (split_lines (trim raw)) /\ trim l <> [].
Proof.
  intros Hne.
  destruct (@trimBy_solid _ is_space raw Hne) as (c & Hc & Hsp).
  change (In c (trim raw)) in Hc.
  assert (HcLF : c <> LF) by (intros ->; discriminate).
  destruct (line_of_char _ Hc HcLF) as (l & Hl & Hcl).
  exists l. split; [exact Hl|].
  intros H0. pose proof (@trimBy_keeps _ is_space l c Hcl Hsp) as Hk.
  change (In c (trim l)) in Hk. rewrite H0 in Hk. contradiction.
Qed.

End Trim_facts.

(* ------------------------------------------------------------------ *)
(** ** The replies of the backend *)
(* ------------------------------------------------------------------ *)

Module Backend_more.

Import Json Backend JS_facts Json_facts Trim_facts.

(** [find(l => l.trim().length > 0) || ""]. *)
Lemma first_line_spec (ls : list jstring) :
  (first_line ls = [] /\ forall l, In l ls -> trim l = [])
  \/ (In (first_line ls) ls /\ trim (first_line ls) <> []).
Proof.
  induction ls as [|l r IH]; [left; split; [reflexivity|contradiction]|].
  cbn [first_line].
  destruct (0 <? List.length (trim l)) eqn:E.
  - right. split; [now left|].
    apply Nat.ltb_lt in E. intros H. rewrite H in E. simpl in E. lia.
  - apply Nat.ltb_ge in E.
    assert (Hl : trim l = []) by (destruct (trim l); [reflexivity|simpl in E; lia]).
    destruct IH as [[H0 Hall]|[Hin Hne]].
    + left. split; [exact H0|]. intros x [<-|Hx]; [exact Hl|now apply Hall].
    + right. split; [now right|exact Hne].
Qed.

(** X16.  A successful reply of [/v1/explain] holds the model's answer
    without the white space around it, and a summary cut from the first
    line of the answer that is not blank: the lines before it are blank, it
    is not, and the summary is the first 200 code units of it, trimmed.
    Since the answer is trimmed, no line comes before it: it is the first
    line of the answer.  The summary has at most 200 code units and no line
    feed, and it is empty only when the answer is. *)
Theorem explain_summary
  (body : option json) (apiKey : option jstring)
  (generate : jstring -> option jstring) (reply_body : json) :
  response (explain body apiKey generate) = JsonReply 200 reply_body ->
  exists prompt raw summary,
    model_calls (explain body apiKey generate) = [prompt]
    /\ generate prompt = Some raw
    /\ reply_body = JObject [(lit "ok", JBool true);
                             (lit "summary", JString summary);
                             (lit "detail", JString (trim raw))]
    /\ trim (trim raw) = trim raw
    /\ List.length summary <= 200
    /\ ~ In LF summary
    /\ (summary = [] <-> trim raw = [])
    /\ exists before l after,
         split_lines (trim raw) = before ++ l :: after
         /\ Forall (fun x => trim x = []) before
         /\ (trim raw <> [] -> trim l <> [])
         /\ summary = firstn 200 (trim l)
         /\ before = [].
Proof.
  unfold explain.
  destruct (invalid_text 120 _); [discriminate|].
  destruct apiKey as [[|k ks]|]; try discriminate.
  destruct (get_prop (body_or_empty body) (lit "query")) as [[]|];
    try discriminate.
  destruct (or_text _ "general") as [context|]; [|discriminate].
  destruct (or_text _ "language") as [example|]; [|discriminate].
  destruct (generate (explain_prompt s context example)) as [raw|] eqn:Hg;
    [|discriminate].
  cbn [response model_calls]. intros E. injection E as <-.
  exists (explain_prompt s context example), raw,
    (slice0 200 (trim (first_line (split_lines (trim raw))))).
  split; [reflexivity|]. split; [exact Hg|]. split; [reflexivity|].
  split; [apply trim_idem|].
  assert (Hsolid : trim raw <> [] ->
                   exists c, In c (trim raw) /\ is_space c = false)
    by apply trimBy_solid.
  assert (Hhead : forall c t, trim raw = c :: t -> is_space c = false).
  { intros c t E. unfold trim, trimBy in E.
    destruct (trimStartBy is_space raw) as [|c' r'] eqn:Es; [discriminate|].
    pose proof (@trimStartBy_head _ is_space raw c' r' Es) as Hc'.
    rewrite (@trimEndBy_cons _ is_space c' r' Hc') in E.
    injection E as E _. now rewrite <- E. }
  revert Hsolid Hhead. generalize (trim raw). intros detail Hsolid Hhead.
  set (fl := first_line (split_lines detail)).
  assert (Hfl : fl = [] \/ In fl (split_lines detail)).
  { destruct (first_line_spec (split_lines detail)) as [[H _]|[H _]];
      [now left|now right]. }
  split; [unfold slice0; rewrite length_firstn; lia|].
  split; [|split].
  - unfold slice0. intros Hin.
    assert (Hin' : In LF fl).
    { apply (@trimBy_incl _ is_space). change (In LF (trim fl)).
      rewrite <- (firstn_skipn 200 (trim fl)). apply in_or_app. now left. }
    destruct Hfl as [H0|Hl]; [rewrite H0 in Hin'; contradiction|].
    exact (split_lines_no_LF _ _ Hl Hin').
  - split.
    + intros Hs.
      destruct (list_eq_dec N.eq_dec detail []) as [Hd|Hne]; [exact Hd|exfalso].
      destruct (Hsolid Hne) as (c & Hc & Hsp).
      assert (HcLF : c <> LF) by (intros ->; discriminate).
      destruct (line_of_char _ Hc HcLF) as (l & Hl & Hcl).
      assert (Hl' : trim l <> []).
      { intros H0. pose proof (@trimBy_keeps _ is_space l c Hcl Hsp) as Hk.
        change (In c (trim l)) in Hk. rewrite H0 in Hk. contradiction. }
      destruct (first_line_spec (split_lines detail))
        as [[_ Hall]|[_ Hne']].
      * apply Hl', Hall, Hl.
      * fold fl in Hne'. unfold slice0 in Hs.
        destruct (trim fl); [now apply Hne'|discriminate].
    + intros Hd. unfold fl. rewrite Hd. reflexivity.
  - destruct (list_eq_dec N.eq_dec detail []) as [Hd|Hne].
    + exists [], [], []. split; [now rewrite Hd|]. split; [constructor|].
      split; [intros H; now contradiction H|].
      split; [unfold fl; rewrite Hd; reflexivity|reflexivity].
    + assert (Hcons : forall x : jstring, x <> [] -> exists c t, x = c :: t)
        by (intros [|c t] Hx; [now contradiction Hx|now exists c, t]).
      destruct (Hcons detail Hne) as (c & t & Ed).
      pose proof (Hhead c t Ed) as Hsp.
      assert (HcLF : N.eqb c LF = false)
        by (apply N.eqb_neq; intros ->; discriminate).
      assert (Hfirst : exists l0 after,
                split_lines detail = (c :: l0) :: after).
      { rewrite Ed. cbn [split_lines]. rewrite HcLF.
        destruct (split_lines t) as [|l0 ls]; [now exists [], []|].
        now exists l0, ls. }
      destruct Hfirst as (l0 & after & Hsplit).
      assert (Hl : trim (c :: l0) <> []).
      { intros H0.
        pose proof (@trimBy_keeps _ is_space (c :: l0) c
                      (or_introl eq_refl) Hsp) as Hk.
        change (In c (trim (c :: l0))) in Hk. rewrite H0 in Hk.
        contradiction. }
      exists [], (c :: l0), after.
      split; [exact Hsplit|]. split; [constructor|].
      split; [intros _; exact Hl|]. split; [|reflexivity].
      unfold fl. rewrite Hsplit. cbn [first_line].
      destruct (trim (c :: l0)) as [|x y] eqn:Et; [now contradiction Hl|].
      change (0 <? List.length (x :: y)) with true. cbv iota.
      now rewrite Et.
Qed.

Lemma explain_summary_witness :
  response (explain (Samples.body_with "query" 3) Samples.api_key
              Samples.canned_model)
  = JsonReply 200
      (JObject [(lit "ok", JBool true);
                (lit "summary", JString (lit "**A closure** keeps its scope."));
                (lit "detail", JString (lit "**A closure** keeps its scope."))]).
Proof.
  assert (H : response (explain (Samples.body_with "query" 3) Samples.api_key
                          Samples.canned_model)
              = JsonReply 200
                  (JObject [(lit "ok", JBool true);
                            (lit "summary",
                             JString (lit "**A closure** keeps its scope."));
                            (lit "detail",
                             JString (lit "**A closure** keeps its scope."))]))
    by (vm_compute; reflexivity).
  destruct (@explain_summary _ _ _ _ H) as (p & raw & s & _ & _ & Hb & _).
  rewrite H. f_equal.
Defined.


(** X17.  Each of the three POST handlers calls the model at most once;
    it answers 200 exactly when it called the model and the model answered,
    and 400 or 500 otherwise; and it calls the model only when the API key
    is set and not empty. *)
Theorem handlers_call_model_once
  (h : option json -> option jstring -> (jstring -> option jstring) -> outcome)
  (body : option json) (apiKey : option jstring)
  (generate : jstring -> option jstring) :
  In h [explain; chat; chat_stream] ->
  let out := h body apiKey generate in
  (model_calls out = [] \/ exists prompt, model_calls out = [prompt])
  /\ (status_of (response out) = 200%N
      <-> exists prompt raw,
            model_calls out = [prompt] /\ generate prompt = Some raw)
  /\ (status_of (response out) = 200 \/ status_of (response out) = 400
      \/ status_of (response out) = 500)%N
  /\ (model_calls out <> [] -> exists k ks, apiKey = Some (k :: ks)).
Proof.
  assert (Hno : forall st msg,
    let out := failure st msg in
    (st = 400 \/ st = 500)%N ->
    (model_calls out = [] \/ exists prompt, model_calls out = [prompt])
    /\ (status_of (response out) = 200%N
        <-> exists prompt raw,
              model_calls out = [prompt] /\ generate prompt = Some raw)
    /\ (status_of (response out) = 200 \/ status_of (response out) = 400
        \/ status_of (response out) = 500)%N
    /\ (model_calls out <> [] -> exists k ks, apiKey = Some (k :: ks))).
  { intros st msg out Hcases. cbn.
    split; [now left|]. split; [|split].
    - split; [intros H; destruct Hcases; subst; discriminate|].
      intros (p & r & Hp & _). discriminate.
    - now right.
    - intros H. now contradiction H. }
  assert (Herr : forall k ks,
    apiKey = Some (k :: ks) ->
    let out := model_error [] in
    (model_calls out = [] \/ exists prompt, model_calls out = [prompt])
    /\ (status_of (response out) = 200%N
        <-> exists prompt raw,
              model_calls out = [prompt] /\ generate prompt = Some raw)
    /\ (status_of (response out) = 200 \/ status_of (response out) = 400
        \/ status_of (response out) = 500)%N
    /\ (model_calls out <> [] -> exists k ks, apiKey = Some (k :: ks))).
  { intros k ks Hk out. cbn.
    split; [now left|]. split; [|split].
    - split; [discriminate|]. intros (p & r & Hp & _). discriminate.
    - now right; right.
    - intros _. now exists k, ks. }
  assert (Hcall : forall k ks prompt (r : reply),
    apiKey = Some (k :: ks) ->
    (status_of r = 200%N /\ (exists raw, generate prompt = Some raw)
     \/ status_of r = 500%N /\ generate prompt = None) ->
    let out := {| model_calls := [prompt]; response := r |} in
    (model_calls out = [] \/ exists p, model_calls out = [p])
    /\ (status_of (response out) = 200%N
        <-> exists p raw, model_calls out = [p] /\ generate p = Some raw)
    /\ (status_of (response out) = 200 \/ status_of (response out) = 400
        \/ status_of (response out) = 500)%N
    /\ (model_calls out <> [] -> exists k ks, apiKey = Some (k :: ks))).
  { intros k ks prompt r Hk Hr out. cbn [out model_calls response].
    split; [right; now exists prompt|]. split; [|split].
    - destruct Hr as [[H200 (raw & Hraw)]|[H500 Hnone]].
      + split; [intros _; now exists prompt, raw|now intros _].
      + split; [rewrite H500; discriminate|].
        intros (p & raw & Hp & Hraw). injection Hp as <-. congruence.
    - destruct Hr as [[-> _]|[-> _]]; [now left|now right; right].
    - intros _. now exists k, ks. }
  intros [<-|[<-|[<-|[]]]].
  - unfold explain.
    destruct (invalid_text 120 _); [apply Hno; now left|].
    destruct apiKey as [[|k ks]|] eqn:Ek; try (apply Hno; now right).
    destruct (get_prop (body_or_empty body) (lit "query")) as [[]|];
      try (rewrite <- Ek in *; now apply (Herr k ks)).
    destruct (or_text _ "general") as [context|];
      [|rewrite <- Ek in *; now apply (Herr k ks)].
    destruct (or_text _ "language") as [example|];
      [|rewrite <- Ek in *; now apply (Herr k ks)].
    rewrite <- Ek in *.
    destruct (generate (explain_prompt s context example)) as [raw|] eqn:Hg.
    + apply (Hcall k ks); [exact Ek|]. left. split; [reflexivity|now exists raw].
    + apply (Hcall k ks); [exact Ek|]. right. now split.
  - unfold chat.
    destruct (invalid_text 20000 _); [apply Hno; now left|].
    destruct apiKey as [[|k ks]|] eqn:Ek; try (apply Hno; now right).
    destruct (get_prop (body_or_empty body) (lit "message")) as [[]|];
      try (rewrite <- Ek in *; now apply (Herr k ks)).
    rewrite <- Ek in *.
    destruct (generate (chat_prompt chat_sys s)) as [raw|] eqn:Hg.
    + apply (Hcall k ks); [exact Ek|]. left. split; [reflexivity|now exists raw].
    + apply (Hcall k ks); [exact Ek|]. right. now split.
  - unfold chat_stream.
    destruct (invalid_text 20000 _); [apply Hno; now left|].
    destruct apiKey as [[|k ks]|] eqn:Ek; try (apply Hno; now right).
    destruct (get_prop (body_or_empty body) (lit "message")) as [[]|];
      try (rewrite <- Ek in *; now apply (Herr k ks)).
    rewrite <- Ek in *.
    destruct (generate (chat_prompt stream_sys s)) as [raw|] eqn:Hg.
    + apply (Hcall k ks); [exact Ek|]. left. split; [reflexivity|now exists raw].
    + apply (Hcall k ks); [exact Ek|]. right. now split.
Qed.

Lemma handlers_call_model_once_witness :
  status_of (response (chat (Samples.body_with "message" 3) Samples.api_key
                         Samples.canned_model)) = 200%N.
Proof.
  assert (Hin : In chat [explain; chat; chat_stream]) by (right; now left).
  destruct (@handlers_call_model_once chat (Samples.body_with "message" 3)
              Samples.api_key Samples.canned_model Hin)
    as (_ & [_ H] & _).
  apply H. eexists. eexists. split; reflexivity.
Defined.

End Backend_more.

(* ------------------------------------------------------------------ *)
(** ** An explanation from the selection to the popup *)
(* ------------------------------------------------------------------ *)

Module Explain_facts.

Import Json Backend JS_facts Json_facts Wire_facts Trim_facts.

Lemma request_parses term languageId :
  JSON_parse (Explain.explain_request term languageId)
  = Some (JObject [(lit "query", JString term);
                   (lit "languageId", JString languageId)]).
Proof.
  unfold JSON_parse, Explain.explain_request.
  assert (Hrest : tokenize LStart
                    (quote (lit "languageId")
                     ++ 58%N :: (quote languageId ++ [125%N]))
                  = Some [TValue (JString (lit "languageId")); TColon;
                          TValue (JString languageId); TRBrace]).
  { apply tokenize_quote.
    rewrite (@tokenize_emit LStart 58%N LStart TColon) by reflexivity.
    now rewrite (@tokenize_quote languageId [125%N] [TRBrace]). }
  change (lit "{" ++ quote (lit "query") ++ lit ":" ++ quote term ++ lit ","
          ++ quote (lit "languageId") ++ lit ":" ++ quote languageId ++ lit "}")
    with (123%N :: (quote (lit "query")
                    ++ 58%N :: (quote term
                    ++ 44%N :: (quote (lit "languageId")
                                ++ 58%N :: (quote languageId ++ [125%N]))))).
  rewrite (@tokenize_emit LStart 123%N LStart TLBrace) by reflexivity.
  rewrite (@tokenize_quote (lit "query") _
             [TColon; TValue (JString term); TComma;
              TValue (JString (lit "languageId")); TColon;
              TValue (JString languageId); TRBrace]).
  - reflexivity.
  - rewrite (@tokenize_emit LStart 58%N LStart TColon) by reflexivity.
    rewrite (@tokenize_quote term _
               [TComma; TValue (JString (lit "languageId")); TColon;
                TValue (JString languageId); TRBrace]); [reflexivity|].
    rewrite (@tokenize_emit LStart 44%N LStart TComma) by reflexivity.
    now rewrite Hrest.
Qed.

Lemma ok_body_parses summary detail :
  JSON_parse (Explain.ok_body summary detail)
  = Some (JObject [(lit "ok", JBool true);
                   (lit "summary", JString summary);
                   (lit "detail", JString detail)]).
Proof.
  unfold JSON_parse, Explain.ok_body.
  assert (Hdetail : tokenize LStart
                      (quote (lit "detail")
                       ++ 58%N :: (quote detail ++ [125%N]))
                    = Some [TValue (JString (lit "detail")); TColon;
                            TValue (JString detail); TRBrace]).
  { apply tokenize_quote.
    rewrite (@tokenize_emit LStart 58%N LStart TColon) by reflexivity.
    now rewrite (@tokenize_quote detail [125%N] [TRBrace]). }
  assert (Hsummary : tokenize LStart
                       (quote (lit "summary")
                        ++ 58%N :: (quote summary
                        ++ 44%N :: (quote (lit "detail")
                                    ++ 58%N :: (quote detail ++ [125%N]))))
                     = Some [TValue (JString (lit "summary")); TColon;
                             TValue (JString summary); TComma;
                             TValue (JString (lit "detail")); TColon;
                             TValue (JString detail); TRBrace]).
  { apply tokenize_quote.
    rewrite (@tokenize_emit LStart 58%N LStart TColon) by reflexivity.
    rewrite (@tokenize_quote summary _
               [TComma; TValue (JString (lit "detail")); TColon;
                TValue (JString detail); TRBrace]); [reflexivity|].
    rewrite (@tokenize_emit LStart 44%N LStart TComma) by reflexivity.
    now rewrite Hdetail. }
  change (lit "{" ++ quote (lit "ok") ++ lit ":true,"
          ++ quote (lit "summary") ++ lit ":" ++ quote summary
          ++ lit "," ++ quote (lit "detail") ++ lit ":"
          ++ quote detail ++ lit "}")
    with (123%N :: (quote (lit "ok")
                    ++ 58%N :: 116%N :: 114%N :: 117%N :: 101%N :: 44%N
                    :: (quote (lit "summary")
                        ++ 58%N :: (quote summary
                        ++ 44%N :: (quote (lit "detail")
                                    ++ 58%N :: (quote detail ++ [125%N])))))).
  rewrite (@tokenize_emit LStart 123%N LStart TLBrace) by reflexivity.
  rewrite (@tokenize_quote (lit "ok") _
             [TColon; TValue (JBool true); TComma;
              TValue (JString (lit "summary")); TColon;
              TValue (JString summary); TComma;
              TValue (JString (lit "detail")); TColon;
              TValue (JString detail); TRBrace]).
  - reflexivity.
  - rewrite (@tokenize_emit LStart 58%N LStart TColon) by reflexivity.
    rewrite (@tokenize_silent LStart 116%N (LWord (lit "rue") (JBool true)))
      by reflexivity.
    rewrite (@tokenize_silent (LWord (lit "rue") (JBool true)) 114%N
               (LWord (lit "ue") (JBool true))) by reflexivity.
    rewrite (@tokenize_silent (LWord (lit "ue") (JBool true)) 117%N
               (LWord (lit "e") (JBool true))) by reflexivity.
    rewrite (@tokenize_emit (LWord (lit "e") (JBool true)) 101%N LStart
               (TValue (JBool true))) by reflexivity.
    rewrite (@tokenize_emit LStart 44%N LStart TComma) by reflexivity.
    now rewrite Hsummary.
Qed.

(** The request as the handler reads it. *)
Lemma explain_of_request term languageId apiKey generate :
  explain (JSON_parse (Explain.explain_request term languageId)) apiKey generate
  = if invalid_text 120 (Some (JString term)) then failure 400 "Invalid 'query'."
    else
      match apiKey with
      | Some (_ :: _) =>
          let context := if str_truthy languageId then languageId
                         else lit "general" in
          let example := if str_truthy languageId then languageId
                         else lit "language" in
          let prompt := explain_prompt term context example in
          match generate prompt with
          | Some text =>
              {| model_calls := [prompt];
                 response := JsonReply 200
                   (JObject [(lit "ok", JBool true);
                             (lit "summary",
                              JString (slice0 200
                                         (trim (first_line
                                                  (split_lines (trim text))))));
                             (lit "detail", JString (trim text))]) |}
          | None => model_error [prompt]
          end
      | _ => failure 500 "Server missing GEMINI_API_KEY."
      end.
Proof.
  rewrite request_parses. unfold explain.
  change (get_prop (body_or_empty (Some (JObject
            [(lit "query", JString term);
             (lit "languageId", JString languageId)]))) (lit "query"))
    with (Some (JString term)).
  change (get_prop (body_or_empty (Some (JObject
            [(lit "query", JString term);
             (lit "languageId", JString languageId)]))) (lit "languageId"))
    with (Some (JString languageId)).
  destruct (invalid_text 120 (Some (JString term))); [reflexivity|].
  destruct apiKey as [[|k ks]|]; try reflexivity.
  cbn [or_text truthy js_String].
  destruct (str_truthy languageId); reflexivity.
Qed.


(** The popup and the summary look for the same line. *)
Lemma firstLine_first_line (markdown term : jstring) :
  (exists l, In l (split_lines markdown) /\ trim l <> []) ->
  Explain.firstLine markdown term = first_line (split_lines markdown)
  /\ In (Explain.firstLine markdown term) (split_lines markdown)
  /\ trim (Explain.firstLine markdown term) <> [].
Proof.
  unfold Explain.firstLine. generalize (split_lines markdown). intros ls.
  induction ls as [|x ls IH]; intros (l & Hl & Hne); [contradiction|].
  cbn [find first_line].
  destruct (0 <? List.length (trim x)) eqn:E.
  - split; [reflexivity|]. split; [now left|].
    apply Nat.ltb_lt in E. intros H. rewrite H in E. simpl in E. lia.
  - apply Nat.ltb_ge in E.
    assert (Hx : trim x = [])
      by (destruct (trim x); [reflexivity|simpl in E; lia]).
    destruct Hl as [->|Hl]; [contradiction|].
    destruct (IH (ex_intro _ l (conj Hl Hne))) as (H1 & H2 & H3).
    split; [exact H1|]. split; [now right|exact H3].
Qed.

Lemma postJson_ok chunks summary detail :
  List.concat chunks = Explain.ok_body summary detail ->
  Explain.postJson 200 chunks
  = Host.Returned (JObject [(lit "ok", JBool true);
                            (lit "summary", JString summary);
                            (lit "detail", JString detail)]).
Proof.
  intros H. unfold Explain.postJson. rewrite H, ok_body_parses. reflexivity.
Qed.

(** X18.  An explanation from end to end.  When the term is not in the
    cache and [/v1/explain] answers 200 to the request [handleExplain]
    sends, the reply holds the trimmed answer of the model.  If that answer
    is not empty, [handleExplain] stores it under the cache key and shows
    it; the popup shows the term and the first line of the answer that is
    not blank, the line the backend cut its summary from.  If the answer is
    empty, a warning is shown and nothing is stored. *)
Theorem explanation_is_shown
  (cap : nat) (term languageId : jstring) (apiKey : option jstring)
  (generate : jstring -> option jstring) (c : Cache.cache json)
  (reply_body : json) :
  JsMap.has (Host.cacheKey term languageId) c = false ->
  response (explain (JSON_parse (Explain.explain_request term languageId))
              apiKey generate)
  = JsonReply 200 reply_body ->
  exists raw summary,
    reply_body = JObject [(lit "ok", JBool true);
                          (lit "summary", JString summary);
                          (lit "detail", JString (trim raw))]
    /\ forall chunks,
         List.concat chunks = Explain.ok_body summary (trim raw) ->
         let e := Host.handleExplain_cap cap term languageId
                    (Explain.postJson 200 chunks) c in
         Host.requested e = true
         /\ (trim raw <> [] ->
             Host.shown e = Host.ShowResult term languageId (JString (trim raw))
             /\ Host.cache_after e
                = Cache.put_cap cap (Host.cacheKey term languageId)
                    (JString (trim raw)) c
             /\ In (Explain.firstLine (trim raw) term) (split_lines (trim raw))
             /\ trim (Explain.firstLine (trim raw) term) <> []
             /\ summary
                = firstn 200 (trim (Explain.firstLine (trim raw) term)))
         /\ (trim raw = [] ->
             Host.shown e = Host.Warning reply_body
             /\ Host.cache_after e = c).
Proof.
  intros Hmiss. rewrite explain_of_request.
  destruct (invalid_text 120 _); [discriminate|].
  destruct apiKey as [[|k ks]|]; try discriminate.
  cbv zeta.
  destruct (generate _) as [raw|]; [|discriminate].
  cbn [response]. intros E. injection E as <-.
  exists raw, (slice0 200 (trim (first_line (split_lines (trim raw))))).
  split; [reflexivity|].
  intros chunks Hbody. cbv zeta.
  rewrite (@postJson_ok chunks _ _ Hbody).
  unfold Host.handleExplain_cap. rewrite Hmiss.
  change (get_prop (JObject ?f) (lit "detail")) with (Some (JString (trim raw))).
  change (truthy_opt (get_prop (JObject
            [(lit "ok", JBool true);
             (lit "summary",
              JString (slice0 200 (trim (first_line (split_lines (trim raw))))));
             (lit "detail", JString (trim raw))]) (lit "ok"))) with true.
  cbn [andb truthy].
  destruct (trim raw) as [|c0 d0] eqn:Ed.
  - cbn [str_truthy Host.requested Host.shown Host.cache_after].
    split; [reflexivity|]. split; [intros H; now contradiction H|].
    intros _. split; reflexivity.
  - cbn [str_truthy Host.requested Host.shown Host.cache_after].
    split; [reflexivity|]. split; [|discriminate].
    intros Hne. split; [reflexivity|]. split; [reflexivity|].
    rewrite <- Ed in *.
    destruct (@firstLine_first_line (trim raw) term (@trimmed_has_line raw Hne))
      as (H1 & H2 & H3).
    split; [exact H2|]. split; [exact H3|].
    rewrite H1. reflexivity.
Qed.

Lemma explanation_is_shown_witness :
  Host.shown
    (Host.handleExplain_cap 2 (lit "closure") (lit "javascript")
       (Explain.postJson 200
          [Explain.ok_body (lit "**A closure** keeps its scope.")
             (lit "**A closure** keeps its scope.")])
       [])
  = Host.ShowResult (lit "closure") (lit "javascript")
      (JString (lit "**A closure** keeps its scope.")).
Proof.
  assert (H : response
                (explain (JSON_parse (Explain.explain_request (lit "closure")
                                        (lit "javascript")))
                   Samples.api_key Samples.canned_model)
              = JsonReply 200
                  (JObject [(lit "ok", JBool true);
                            (lit "summary",
                             JString (lit "**A closure** keeps its scope."));
                            (lit "detail",
                             JString (lit "**A closure** keeps its scope."))]))
    by (vm_compute; reflexivity).
  destruct (@explanation_is_shown 2 (lit "closure") (lit "javascript")
              Samples.api_key Samples.canned_model [] _ eq_refl H)
    as (raw & summary & Hb & Hshown).
  injection Hb as Hs Hd.
  destruct (Hshown [Explain.ok_body (lit "**A closure** keeps its scope.")
                      (lit "**A closure** keeps its scope.")])
    as (_ & Hyes & _).
  - rewrite <- Hs, <- Hd. vm_compute. reflexivity.
  - rewrite <- Hd in Hyes. destruct Hyes as (Hsh & _); [discriminate|].
    exact Hsh.
Defined.

Lemma postJson_refused status chunks :
  (status = 400 \/ status = 500)%N ->
  Explain.postJson status chunks
  = Host.Threw (lit "HTTP " ++ Explain.number_text status ++ lit ": "
                ++ List.concat chunks).
Proof. intros [->| ->]; reflexivity. Qed.

(** X19.  When [/v1/explain] refuses the request or the model fails, the
    reply has status 400 or 500 and the body [{ok: false, error}];
    [postJson] rejects with the status and the raw body, so the user is
    shown an error message that holds the JSON text of the reply, and
    nothing is stored.  The warning that would show the reply's [error]
    member is not what the user gets. *)
Theorem refused_explanation_is_an_error
  (cap : nat) (term languageId : jstring) (apiKey : option jstring)
  (generate : jstring -> option jstring) (c : Cache.cache json)
  (status : N) (reply_body : json) :
  JsMap.has (Host.cacheKey term languageId) c = false ->
  response (explain (JSON_parse (Explain.explain_request term languageId))
              apiKey generate)
  = JsonReply status reply_body ->
  status <> 200%N ->
  exists msg,
    reply_body = JObject [(lit "ok", JBool false); (lit "error", JString msg)]
    /\ (status = 400 \/ status = 500)%N
    /\ forall chunks,
         List.concat chunks = Wire.error_body msg ->
         Host.handleExplain_cap cap term languageId
           (Explain.postJson status chunks) c
         = {| Host.cache_after := c;
              Host.requested := true;
              Host.shown :=
                Host.ErrorMessage
                  (lit "HTTP " ++ Explain.number_text status ++ lit ": "
                   ++ Wire.error_body msg) |}.
Proof.
  intros Hmiss Hresp Hst.
  assert (Hrefused : forall st m,
    JsonReply st (JObject [(lit "ok", JBool false); (lit "error", JString m)])
    = JsonReply status reply_body ->
    (st = 400 \/ st = 500)%N ->
    exists msg,
      reply_body = JObject [(lit "ok", JBool false); (lit "error", JString msg)]
      /\ (status = 400 \/ status = 500)%N
      /\ forall chunks,
           List.concat chunks = Wire.error_body msg ->
           Host.handleExplain_cap cap term languageId
             (Explain.postJson status chunks) c
           = {| Host.cache_after := c;
                Host.requested := true;
                Host.shown :=
                  Host.ErrorMessage
                    (lit "HTTP " ++ Explain.number_text status ++ lit ": "
                     ++ Wire.error_body msg) |}).
  { intros st m E Hcases. injection E as <- <-.
    exists m. split; [reflexivity|]. split; [exact Hcases|].
    intros chunks Hbody. rewrite (@postJson_refused _ chunks Hcases), Hbody.
    unfold Host.handleExplain_cap. now rewrite Hmiss. }
  rewrite explain_of_request in Hresp. revert Hresp.
  destruct (invalid_text 120 _);
    [intros E; apply (Hrefused _ _ E); now left|].
  destruct apiKey as [[|k ks]|];
    try (intros E; apply (Hrefused _ _ E); now right).
  cbv zeta. destruct (generate _).
  - cbn [response]. intros E. injection E as E1 _. now contradiction Hst.
  - intros E; apply (Hrefused _ _ E); now right.
Qed.

Lemma refused_explanation_is_an_error_witness :
  Host.shown
    (Host.handleExplain_cap 2 (repeat 97%N 121) (lit "javascript")
       (Explain.postJson 400 [Wire.error_body (lit "Invalid 'query'.")]) [])
  = Host.ErrorMessage
      (lit "HTTP 400: " ++ Wire.error_body (lit "Invalid 'query'.")).
Proof.
  assert (H : response
                (explain (JSON_parse (Explain.explain_request (repeat 97%N 121)
                                        (lit "javascript")))
                   Samples.api_key Samples.canned_model)
              = JsonReply 400
                  (JObject [(lit "ok", JBool false);
                            (lit "error", JString (lit "Invalid 'query'."))])).
  { rewrite explain_of_request. reflexivity. }
  assert (Hne : 400%N <> 200%N) by discriminate.
  destruct (@refused_explanation_is_an_error 2 (repeat 97%N 121)
              (lit "javascript") Samples.api_key Samples.canned_model []
              400 _ eq_refl H Hne)
    as (msg & Hb & _ & Hshown).
  injection Hb as Hm.
  rewrite (Hshown [Wire.error_body (lit "Invalid 'query'.")]).
  - rewrite <- Hm. vm_compute. reflexivity.
  - rewrite <- Hm. vm_compute. reflexivity.
Defined.

End Explain_facts.

(* ------------------------------------------------------------------ *)
(** ** The selection watcher and the manual command *)
(* ------------------------------------------------------------------ *)

Module Selection_facts.

Import Json Backend JS_facts Trim_facts.

Lemma includes_LF_false (s : jstring) :
  Selection.includes_LF s = false -> ~ In LF s.
Proof.
  unfold Selection.includes_LF. intros H Hin.
  assert (Ht : existsb (N.eqb LF) s = true).
  { apply existsb_exists. exists LF. split; [exact Hin|apply N.eqb_refl]. }
  congruence.
Qed.

Lemma language_truthy (languageId : jstring) :
  Selection.language languageId <> [].
Proof.
  unfold Selection.language. destruct languageId; discriminate.
Qed.

(** What one callback of the watcher does. *)
Lemma on_selection_spec (last selected languageId : jstring) :
  match Selection.on_selection last selected languageId with
  | (key, Some (word, lang)) =>
      key = Host.cacheKey word lang /\ key <> last
      /\ word = trim selected /\ lang = Selection.language languageId
      /\ 1 <= List.length word <= 80 /\ ~ In LF word
  | (key, None) => key = last
  end.
Proof.
  unfold Selection.on_selection.
  destruct (str_truthy (trim selected)) eqn:Et; [|reflexivity].
  destruct (80 <? List.length (trim selected)) eqn:El; [reflexivity|].
  destruct (Selection.includes_LF (trim selected)) eqn:Ei; [reflexivity|].
  cbn [negb orb].
  destruct (str_eqb _ last) eqn:Ek; [reflexivity|].
  apply str_eqb_neq in Ek. apply Nat.ltb_ge in El.
  split; [reflexivity|]. split; [exact Ek|]. do 2 (split; [reflexivity|]).
  split; [|now apply includes_LF_false].
  destruct (trim selected); [discriminate|simpl in *; lia].
Qed.

Lemma watch_head last selections c r :
  Selection.watch last selections = c :: r ->
  Host.cacheKey (fst c) (snd c) <> last.
Proof.
  revert last. induction selections as [|[sel lid] rest IH]; intros last;
    [discriminate|].
  cbn [Selection.watch].
  pose proof (on_selection_spec last sel lid) as Hs.
  destruct (Selection.on_selection last sel lid) as [key [[w l]|]].
  - destruct Hs as (Hk & Hne & _). intros E. injection E as <- _.
    cbn [fst snd]. now rewrite <- Hk.
  - subst key. apply IH.
Qed.

(** X20.  The selection watcher calls [handleExplain] only with a word
    that is trimmed, not empty, at most 80 code units long and without a
    line feed, and with a language that is not empty; and no two calls in a
    row have the same cache key, whatever was selected in between. *)
Theorem watcher_calls (last : jstring) (selections : list (jstring * jstring)) :
  let calls := Selection.watch last selections in
  Forall (fun c => 1 <= List.length (fst c) <= 80
                   /\ ~ In LF (fst c)
                   /\ trim (fst c) = fst c
                   /\ snd c <> []) calls
  /\ forall before a b after,
       calls = before ++ a :: b :: after ->
       Host.cacheKey (fst a) (snd a) <> Host.cacheKey (fst b) (snd b).
Proof.
  cbv zeta. split.
  - revert last. induction selections as [|[sel lid] rest IH]; intros last;
      [constructor|].
    cbn [Selection.watch].
    pose proof (on_selection_spec last sel lid) as Hs.
    destruct (Selection.on_selection last sel lid) as [key [[w l]|]];
      [|apply IH].
    destruct Hs as (_ & _ & Hw & Hl & Hlen & HLF).
    constructor; [|apply IH]. cbn [fst snd].
    split; [exact Hlen|]. split; [exact HLF|]. split.
    + rewrite Hw. apply trim_idem.
    + rewrite Hl. apply language_truthy.
  - revert last. induction selections as [|[sel lid] rest IH];
      intros last before a b after.
    + destruct before; discriminate.
    + cbn [Selection.watch].
      pose proof (on_selection_spec last sel lid) as Hs.
      destruct (Selection.on_selection last sel lid) as [key [[w l]|]];
        [|apply IH].
      destruct Hs as (Hk & _).
      destruct before as [|x before]; cbn [app]; intros E.
      * injection E as <- E'. cbn [fst snd]. rewrite <- Hk.
        intros Heq. symmetry in Heq. revert Heq.
        exact (@watch_head _ _ _ _ E').
      * injection E as _ E'. exact (IH _ _ _ _ _ E').
Qed.

Lemma watcher_calls_witness :
  Selection.watch []
    [(lit " map ", lit "python"); (lit "", lit "python");
     (lit "map", lit "python"); (lit "map", lit "")]
  = [(lit "map", lit "python"); (lit "map", lit "plaintext")]
  /\ Host.cacheKey (lit "map") (lit "python")
     <> Host.cacheKey (lit "map") (lit "plaintext").
Proof.
  destruct (@watcher_calls []
              [(lit " map ", lit "python"); (lit "", lit "python");
               (lit "map", lit "python"); (lit "map", lit "")]) as [_ H].
  split; [vm_compute; reflexivity|].
  exact (H [] (lit "map", lit "python") (lit "map", lit "plaintext") []
           eq_refl).
Defined.

(** X21.  The backend never refuses a word the selection watcher sends as
    invalid: the reply to its request is never 400.  The manual command has
    no limit of its own: the reply is 400 exactly when the trimmed selection
    is longer than 120 code units. *)
Theorem watcher_query_is_accepted
  (last selected languageId : jstring) (apiKey : option jstring)
  (generate : jstring -> option jstring) :
  (forall key word lang,
     Selection.on_selection last selected languageId = (key, Some (word, lang)) ->
     status_of (response
                  (explain (JSON_parse (Explain.explain_request word lang))
                     apiKey generate)) <> 400%N)
  /\ (forall word lang,
        Selection.manual selected languageId = Some (word, lang) ->
        (status_of (response
                      (explain (JSON_parse (Explain.explain_request word lang))
                         apiKey generate)) = 400%N
         <-> 120 < List.length word)).
Proof.
  assert (Hvalid : forall word lang,
    invalid_text 120 (Some (JString word)) = false ->
    status_of (response
                 (explain (JSON_parse (Explain.explain_request word lang))
                    apiKey generate)) <> 400%N).
  { intros word lang Hv. rewrite Explain_facts.explain_of_request, Hv.
    destruct apiKey as [[|k ks]|]; try discriminate.
    cbv zeta. destruct (generate _); discriminate. }
  split.
  - intros key word lang E.
    pose proof (on_selection_spec last selected languageId) as Hs.
    rewrite E in Hs. destruct Hs as (_ & _ & _ & _ & Hlen & _).
    apply Hvalid, Backend_facts.valid_text. lia.
  - intros word lang E. unfold Selection.manual in E.
    destruct (str_truthy (trim selected)) eqn:Et; [|discriminate].
    injection E as <- <-.
    destruct (Nat.ltb 120 (List.length (trim selected))) eqn:El.
    + apply Nat.ltb_lt in El. split; [intros _; exact El|intros _].
      rewrite Explain_facts.explain_of_request.
      rewrite Backend_facts.invalid_text_string.
      assert (Hl : N.ltb 120 (N.of_nat (List.length (trim selected))) = true)
        by (apply N.ltb_lt; lia).
      rewrite Hl, orb_true_r. reflexivity.
    + apply Nat.ltb_ge in El. split; [|lia].
      intros H400. exfalso. revert H400. apply Hvalid.
      apply Backend_facts.valid_text.
      destruct (trim selected); [discriminate|simpl in *; lia].
Qed.

Lemma watcher_query_is_accepted_witness :
  status_of (response
               (explain (JSON_parse (Explain.explain_request
                                       (repeat 97%N 80) (lit "python")))
                  Samples.api_key Samples.canned_model)) <> 400%N
  /\ status_of (response
                  (explain (JSON_parse (Explain.explain_request
                                          (repeat 97%N 121) (lit "python")))
                     Samples.api_key Samples.canned_model)) = 400%N.
Proof.
  destruct (@watcher_query_is_accepted [] (repeat 97%N 80) (lit "python")
              Samples.api_key Samples.canned_model) as [Hw _].
  destruct (@watcher_query_is_accepted [] (repeat 97%N 121) (lit "python")
              Samples.api_key Samples.canned_model) as [_ Hm].
  split.
  - apply (Hw (Host.cacheKey (repeat 97%N 80) (lit "python"))).
    vm_compute. reflexivity.
  - apply (Hm (repeat 97%N 121) (lit "python")).
    + vm_compute. reflexivity.
    + vm_compute. lia.
Defined.

End Selection_facts.

(* ------------------------------------------------------------------ *)
(** ** What [renderMarkdown] writes for plain text and inline code *)
(* ------------------------------------------------------------------ *)

Module Render_more.

Import Json Webview.

Local Notation "'idc'" := (fun c : char => c).

(** A character that no pattern of [renderMarkdown] looks for. *)
Local Notation "'quiet'" := (fun c : char => c <> BACKTICK /\ c <> LF).

Lemma quiet_lit (s : jstring) :
  forallb (fun c => negb (N.eqb c BACKTICK || N.eqb c LF)) s = true ->
  Forall quiet s.
Proof.
  intros H. apply Forall_forall. intros c Hc.
  rewrite forallb_forall in H. specialize (H c Hc).
  apply negb_true_iff, orb_false_iff in H. destruct H as [H1 H2].
  split; now apply N.eqb_neq.
Qed.

Lemma escape_quiet (s : jstring) :
  Forall quiet s -> Forall quiet (escapeHtml_text s).
Proof.
  intros H. unfold escapeHtml_text.
  rewrite Webview_facts.escapeHtml_flat by reflexivity.
  induction H as [|c s Hc _ IH]; [constructor|].
  cbn [flat_map]. apply Forall_app. split; [|exact IH].
  unfold escape_one.
  repeat match goal with
         | |- context [if ?b then _ else _] => destruct b
         end;
    try (now apply quiet_lit); now constructor.
Qed.

Lemma escape_app (x y : jstring) :
  escapeHtml_text (x ++ y) = escapeHtml_text x ++ escapeHtml_text y.
Proof.
  unfold escapeHtml_text.
  rewrite !Webview_facts.escapeHtml_flat by reflexivity.
  apply flat_map_app.
Qed.

Lemma escape_nonempty (s : jstring) : s <> [] -> escapeHtml_text s <> [].
Proof.
  unfold escapeHtml_text.
  rewrite Webview_facts.escapeHtml_flat by reflexivity.
  destruct s as [|c s]; [intros H; now contradiction H|intros _].
  cbn [flat_map]. unfold escape_one.
  repeat match goal with
         | |- context [if ?b then _ else _] => destruct b
         end; discriminate.
Qed.

Lemma replace_matches_none (m : list char -> option (list char * nat))
  (x : jstring) :
  (forall a r, In a x -> m (a :: r) = None) ->
  forall y, replace_matches m 0 (x ++ y) = x ++ replace_matches m 0 y.
Proof.
  induction x as [|a x IH]; intros H y; [reflexivity|].
  cbn [app replace_matches].
  rewrite (H a (x ++ y)) by now left.
  rewrite IH; [reflexivity|]. intros b r Hb. apply H. now right.
Qed.

Lemma replace_matches_skip (m : list char -> option (list char * nat))
  (x y : jstring) :
  replace_matches m (List.length x) (x ++ y) = replace_matches m 0 y.
Proof.
  induction x as [|a x IH]; [destruct y; reflexivity|exact IH].
Qed.

Lemma match_fence_none a r :
  a <> BACKTICK -> match_fence idc idc idc (a :: r) = None.
Proof.
  intros H. apply N.eqb_neq in H. unfold match_fence, after_fence.
  destruct r as [|b [|c r]]; try reflexivity. cbv beta. now rewrite H.
Qed.

Lemma match_inline_none a r :
  a <> BACKTICK -> match_inline idc idc (a :: r) = None.
Proof.
  intros H. apply N.eqb_neq in H. unfold match_inline. cbv beta.
  now rewrite H.
Qed.

Lemma match_paragraph_none a r :
  a <> LF -> match_paragraph idc idc (a :: r) = None.
Proof.
  intros H. apply N.eqb_neq in H. unfold match_paragraph.
  cbn [span]. cbv beta. now rewrite H.
Qed.

Lemma replace_char_none c repl (s : jstring) :
  ~ In c s -> replace_char idc c repl s = s.
Proof.
  unfold replace_char. induction s as [|a s IH]; intros H; [reflexivity|].
  cbn [flat_map]. cbv beta.
  assert (Ha : N.eqb a c = false)
    by (apply N.eqb_neq; intros ->; apply H; now left).
  rewrite Ha, IH; [reflexivity|]. intros Hin. apply H. now right.
Qed.

Lemma markup_id (s : jstring) : markup idc s = s.
Proof. unfold markup. apply map_id. Qed.

(** Text without line feeds goes through the last two substitutions
    unchanged and becomes one paragraph. *)
Lemma one_paragraph (html : jstring) :
  Forall (fun c => c <> LF) html ->
  markup idc (lit "<p>")
  ++ replace_char idc LF (markup idc (lit "<br>"))
       (replace_matches (match_paragraph idc idc) 0 html)
  ++ markup idc (lit "</p>")
  = lit "<p>" ++ html ++ lit "</p>".
Proof.
  intros H. rewrite Forall_forall in H.
  rewrite <- (app_nil_r html) at 1.
  rewrite replace_matches_none
    by (intros a r Ha; apply match_paragraph_none, H, Ha).
  cbn [replace_matches]. rewrite app_nil_r.
  rewrite replace_char_none by (intros Hin; now apply (H _ Hin)).
  now rewrite !markup_id.
Qed.

(** X22.  Text without a backtick and without a line feed is rendered as
    one paragraph that holds the escaped text and nothing else. *)
Theorem plain_text_is_one_paragraph (s : jstring) :
  s <> [] -> ~ In BACKTICK s -> ~ In LF s ->
  renderMarkdown (JString s)
  = Some (lit "<p>" ++ escapeHtml_text s ++ lit "</p>").
Proof.
  intros Hne Hb Hl.
  assert (Hq : Forall quiet s).
  { apply Forall_forall. intros c Hc. split; intros ->; contradiction. }
  apply escape_quiet in Hq. rewrite Forall_forall in Hq.
  unfold renderMarkdown. destruct s as [|c0 s0]; [now contradiction Hne|].
  cbn [truthy str_truthy negb js_String]. f_equal.
  unfold render_text, render, substitute.
  fold (escapeHtml_text (c0 :: s0)).
  set (e := escapeHtml_text (c0 :: s0)) in *.
  assert (H1 : replace_matches (match_fence idc idc idc) 0 e = e).
  { rewrite <- (app_nil_r e) at 1.
    rewrite replace_matches_none
      by (intros a r Ha; apply match_fence_none, (Hq a Ha)).
    cbn [replace_matches]. apply app_nil_r. }
  assert (H2 : replace_matches (match_inline idc idc) 0 e = e).
  { rewrite <- (app_nil_r e) at 1.
    rewrite replace_matches_none
      by (intros a r Ha; apply match_inline_none, (Hq a Ha)).
    cbn [replace_matches]. apply app_nil_r. }
  rewrite H1, H2. apply one_paragraph.
  apply Forall_forall. intros c Hc. apply (Hq c Hc).
Qed.

Lemma plain_text_is_one_paragraph_witness :
  renderMarkdown (JString (lit "a < b && c"))
  = Some (lit "<p>a &lt; b &amp;&amp; c</p>").
Proof.
  etransitivity.
  - apply (@plain_text_is_one_paragraph (lit "a < b && c")).
    + discriminate.
    + vm_compute. intuition discriminate.
    + vm_compute. intuition discriminate.
  - vm_compute. reflexivity.
Defined.

Lemma span_quiet (x y : jstring) :
  Forall quiet x ->
  span idc (fun c => negb (N.eqb c BACKTICK || N.eqb c LF))
    (x ++ BACKTICK :: y)
  = (x, BACKTICK :: y).
Proof.
  induction 1 as [|c x [Hb Hl] _ IH]; [reflexivity|].
  cbn [app span]. cbv beta.
  apply N.eqb_neq in Hb, Hl. rewrite Hb, Hl. cbn [orb negb].
  now rewrite IH.
Qed.

(** X23.  A run of text between two backticks, on one line and not empty,
    is rendered as inline code: the text before it, the run inside a
    [code] element of class [inline], and the text after it, each escaped,
    in one paragraph. *)
Theorem inline_code_is_rendered (pre body post : jstring) :
  Forall (fun c => c <> BACKTICK /\ c <> LF) pre ->
  Forall (fun c => c <> BACKTICK /\ c <> LF) body ->
  Forall (fun c => c <> BACKTICK /\ c <> LF) post ->
  body <> [] ->
  renderMarkdown (JString (pre ++ BACKTICK :: body ++ BACKTICK :: post))
  = Some (lit "<p>" ++ escapeHtml_text pre
          ++ (lit "<code " ++ attr "class" "inline" ++ lit ">")
          ++ escapeHtml_text body ++ lit "</code>"
          ++ escapeHtml_text post ++ lit "</p>").
Proof.
  intros Hpre Hbody Hpost Hne.
  apply escape_quiet in Hpre, Hbody, Hpost.
  pose proof (escape_nonempty Hne) as Hne'.
  unfold renderMarkdown.
  assert (Ht : truthy (JString (pre ++ BACKTICK :: body ++ BACKTICK :: post))
               = true) by (destruct pre; reflexivity).
  rewrite Ht. cbn [negb js_String]. f_equal.
  unfold render_text, render, substitute.
  fold (escapeHtml_text (pre ++ BACKTICK :: body ++ BACKTICK :: post)).
  assert (Hesc : escapeHtml_text (pre ++ BACKTICK :: body ++ BACKTICK :: post)
                 = escapeHtml_text pre
                   ++ BACKTICK :: escapeHtml_text body
                   ++ BACKTICK :: escapeHtml_text post).
  { rewrite escape_app.
    change (BACKTICK :: body ++ BACKTICK :: post)
      with ([BACKTICK] ++ body ++ [BACKTICK] ++ post).
    rewrite !escape_app. reflexivity. }
  rewrite Hesc.
  set (p := escapeHtml_text pre) in *.
  set (b := escapeHtml_text body) in *.
  set (q := escapeHtml_text post) in *.
  assert (Hq_end : forall m,
            (forall a r, In a q -> m (a :: r) = None) ->
            replace_matches m 0 q = q).
  { intros m Hm. rewrite <- (app_nil_r q) at 1.
    rewrite replace_matches_none by exact Hm.
    cbn [replace_matches]. apply app_nil_r. }
  pose proof (proj1 (Forall_forall _ _) Hpre) as Hp_in.
  pose proof (proj1 (Forall_forall _ _) Hbody) as Hb_in.
  pose proof (proj1 (Forall_forall _ _) Hpost) as Hq_in.
  (* the fence pattern finds nothing *)
  assert (H1 : replace_matches (match_fence idc idc idc) 0
                 (p ++ BACKTICK :: b ++ BACKTICK :: q)
               = p ++ BACKTICK :: b ++ BACKTICK :: q).
  { rewrite replace_matches_none
      by (intros a r Ha; apply match_fence_none, (Hp_in a Ha)).
    f_equal.
    assert (Hopen : match_fence idc idc idc (BACKTICK :: b ++ BACKTICK :: q)
                    = None).
    { destruct b as [|b0 b1]; [now contradiction Hne'|].
      inversion Hbody as [|? ? [Hb0 _] _]; subst.
      apply N.eqb_neq in Hb0.
      unfold match_fence, after_fence. cbn [app]. cbv beta.
      destruct (b1 ++ BACKTICK :: q); [reflexivity|].
      now rewrite Hb0, andb_false_r. }
    cbn [replace_matches]. rewrite Hopen. f_equal.
    rewrite replace_matches_none
      by (intros a r Ha; apply match_fence_none, (Hb_in a Ha)).
    f_equal.
    assert (Hclose : match_fence idc idc idc (BACKTICK :: q) = None).
    { unfold match_fence, after_fence.
      destruct q as [|q0 [|q1 q2]]; try reflexivity.
      inversion Hpost as [|? ? [Hq0 _] _]; subst.
      apply N.eqb_neq in Hq0. cbv beta. now rewrite Hq0, andb_false_r. }
    cbn [replace_matches]. rewrite Hclose. f_equal.
    apply Hq_end. intros a r Ha. apply match_fence_none, (Hq_in a Ha). }
  rewrite H1.
  (* the inline pattern finds the run *)
  assert (H2 : replace_matches (match_inline idc idc) 0
                 (p ++ BACKTICK :: b ++ BACKTICK :: q)
               = p ++ (lit "<code " ++ attr "class" "inline" ++ lit ">")
                 ++ b ++ lit "</code>" ++ q).
  { rewrite replace_matches_none
      by (intros a r Ha; apply match_inline_none, (Hp_in a Ha)).
    f_equal.
    assert (Hm : match_inline idc idc (BACKTICK :: b ++ BACKTICK :: q)
                 = Some ((lit "<code " ++ attr "class" "inline" ++ lit ">")
                         ++ b ++ lit "</code>",
                         List.length b + 2)).
    { unfold match_inline. cbv beta.
      rewrite (proj2 (N.eqb_eq BACKTICK BACKTICK) eq_refl).
      rewrite (span_quiet q Hbody).
      destruct b as [|b0 b1]; [now contradiction Hne'|].
      rewrite (proj2 (N.eqb_eq BACKTICK BACKTICK) eq_refl).
      now rewrite !markup_id. }
    assert (Hskip : replace_matches (match_inline idc idc)
                      (pred (List.length b + 2)) (b ++ BACKTICK :: q) = q).
    { replace (pred (List.length b + 2)) with (List.length (b ++ [BACKTICK]))
        by (rewrite length_app; simpl; lia).
      change (b ++ BACKTICK :: q) with (b ++ [BACKTICK] ++ q).
      rewrite app_assoc, replace_matches_skip.
      apply Hq_end. intros a r Ha. apply match_inline_none, (Hq_in a Ha). }
    cbn [replace_matches]. rewrite Hm, Hskip.
    now rewrite <- !app_assoc. }
  rewrite H2.
  rewrite one_paragraph; [now rewrite <- !app_assoc|].
  apply Forall_app. split;
    [eapply Forall_impl; [|exact Hpre]; now intros c [_ H]|].
  apply Forall_app. split.
  { apply Forall_forall. intros c Hc.
    assert (Hk : Forall quiet (lit "<code " ++ attr "class" "inline" ++ lit ">"))
      by now apply quiet_lit.
    rewrite Forall_forall in Hk. apply (Hk c Hc). }
  apply Forall_app. split;
    [eapply Forall_impl; [|exact Hbody]; now intros c [_ H]|].
  apply Forall_app. split;
    [|eapply Forall_impl; [|exact Hpost]; now intros c [_ H]].
  apply Forall_forall. intros c Hc.
  assert (Hk : Forall quiet (lit "</code>")) by now apply quiet_lit.
  rewrite Forall_forall in Hk. apply (Hk c Hc).
Qed.

Lemma inline_code_is_rendered_witness :
  renderMarkdown (JString (lit "use `a<b` here"))
  = Some (lit "<p>use <code class=" ++ [DQUOTE] ++ lit "inline" ++ [DQUOTE]
          ++ lit ">a&lt;b</code> here</p>").
Proof.
  etransitivity.
  - apply (@inline_code_is_rendered (lit "use ") (lit "a<b") (lit " here")).
    + vm_compute. repeat constructor; discriminate.
    + vm_compute. repeat constructor; discriminate.
    + vm_compute. repeat constructor; discriminate.
    + discriminate.
  - vm_compute. reflexivity.
Defined.


(** *** A fenced block of one line *)

Lemma escape_same (s : jstring) :
  Forall (fun c => is_special c = false) s -> escapeHtml_text s = s.
Proof.
  intros H. unfold escapeHtml_text.
  rewrite Webview_facts.escapeHtml_flat by reflexivity.
  induction H as [|c s Hc _ IH]; [reflexivity|].
  cbn [flat_map]. rewrite IH. unfold escape_one.
  unfold is_special in Hc.
  apply orb_false_iff in Hc as [Hc H34].
  apply orb_false_iff in Hc as [Hc H62].
  apply orb_false_iff in Hc as [H38 H60].
  now rewrite H38, H60, H62, H34.
Qed.

Lemma escape_no_quote (s : jstring) : ~ In DQUOTE (escapeHtml_text s).
Proof.
  unfold escapeHtml_text.
  rewrite Webview_facts.escapeHtml_flat by reflexivity.
  induction s as [|c s IH]; [intros []|].
  cbn [flat_map]. intros Hin. apply in_app_or in Hin as [Hin|Hin];
    [|now apply IH].
  unfold escape_one in Hin.
  destruct (N.eqb c 38);
    [vm_compute in Hin; intuition discriminate|].
  destruct (N.eqb c 60);
    [vm_compute in Hin; intuition discriminate|].
  destruct (N.eqb c 62);
    [vm_compute in Hin; intuition discriminate|].
  destruct (N.eqb c 34) eqn:E;
    [vm_compute in Hin; intuition discriminate|].
  destruct Hin as [Heq|[]]. rewrite Heq in E. discriminate.
Qed.

Lemma word_chars (lang : jstring) :
  forallb is_word lang = true ->
  Forall (fun c => is_special c = false) lang /\ Forall quiet lang
  /\ Forall (fun c => is_word c = true) lang.
Proof.
  intros H. rewrite forallb_forall in H.
  assert (Hw : forall c, is_word c = true ->
            is_special c = false /\ c <> BACKTICK /\ c <> LF).
  { intros c Hc. unfold is_word in Hc. unfold is_special, BACKTICK, LF.
    repeat rewrite orb_true_iff in Hc. repeat rewrite andb_true_iff in Hc.
    rewrite !N.leb_le, N.eqb_eq in Hc.
    repeat split; try lia.
    repeat (apply orb_false_iff; split); apply N.eqb_neq; lia. }
  repeat split; apply Forall_forall; intros c Hc;
    destruct (Hw c (H c Hc)) as (H1 & H2 & H3); auto.
Qed.

Lemma span_word (lang rest : jstring) :
  Forall (fun c => is_word c = true) lang ->
  span idc is_word (lang ++ LF :: rest) = (lang, LF :: rest).
Proof.
  induction 1 as [|c lang Hc _ IH]; [reflexivity|].
  cbn [app span]. cbv beta. now rewrite Hc, IH.
Qed.

Lemma until_fence_quiet (x rest : jstring) :
  Forall (fun c => c <> BACKTICK) x ->
  until_fence idc (x ++ BACKTICK :: BACKTICK :: BACKTICK :: rest) = Some x.
Proof.
  induction 1 as [|c x Hb _ IH].
  - cbn [app until_fence after_fence]. cbv beta.
    now rewrite (proj2 (N.eqb_eq BACKTICK BACKTICK) eq_refl).
  - cbn [app until_fence].
    assert (Hn : after_fence idc
                   (c :: x ++ BACKTICK :: BACKTICK :: BACKTICK :: rest) = None).
    { apply N.eqb_neq in Hb. unfold after_fence. cbv beta.
      destruct (x ++ BACKTICK :: BACKTICK :: BACKTICK :: rest) as [|a [|b r]];
        try reflexivity. now rewrite Hb. }
    now rewrite Hn, IH.
Qed.

Lemma trimStartBy_app (sp : char -> bool) (x y : jstring) :
  trimStartBy sp (x ++ y)
  = match trimStartBy sp x with
    | [] => trimStartBy sp y
    | t => t ++ y
    end.
Proof.
  induction x as [|c x IH]; [reflexivity|].
  cbn [app trimStartBy]. destruct (sp c); [exact IH|reflexivity].
Qed.

(** A line feed at the end is trimmed away. *)
Lemma trim_line (x : jstring) : trim (x ++ [LF]) = trim x.
Proof.
  unfold trim, trimBy. rewrite trimStartBy_app.
  destruct (trimStartBy is_space x) as [|c t] eqn:E; [reflexivity|].
  unfold trimEndBy. rewrite rev_app_distr. reflexivity.
Qed.

(** X24.  A fenced block of one line.  For a language tag of word
    characters (or none) and a body without backtick and line feed,
    [renderMarkdown] writes one paragraph that holds the code block of the
    fence and nothing else: the later patterns leave the block as the first
    one wrote it, and both the [code] element and its [data-code] attribute
    hold the escaped body without the white space around it. *)
Theorem one_line_fence_is_rendered (lang body : jstring) :
  forallb is_word lang = true ->
  Forall (fun c => c <> BACKTICK /\ c <> LF) body ->
  renderMarkdown
    (JString (lit "```" ++ lang ++ [LF] ++ body ++ [LF] ++ lit "```"))
  = Some (lit "<p>"
          ++ code_block idc idc idc lang (escapeHtml_text body ++ [LF])
          ++ lit "</p>")
  /\ trimBy (fun a => is_space (idc a)) (escapeHtml_text body ++ [LF])
     = trim (escapeHtml_text body)
  /\ replace_char idc 34%N (entity idc "&quot;") (trim (escapeHtml_text body))
     = trim (escapeHtml_text body).
Proof.
  intros Hlang Hbody.
  destruct (word_chars lang Hlang) as (Hplain & Hquiet & Hword).
  pose proof (escape_quiet Hbody) as Hb.
  set (b := escapeHtml_text body) in *.
  assert (Htrim : trimBy (fun a => is_space (idc a)) (b ++ [LF]) = trim b)
    by apply trim_line.
  assert (Hdata : replace_char idc 34%N (entity idc "&quot;") (trim b) = trim b).
  { apply replace_char_none. intros Hin.
    apply (@escape_no_quote body). fold b.
    now apply (@Trim_facts.trimBy_incl _ is_space). }
  split; [|split; [exact Htrim|exact Hdata]].
  unfold renderMarkdown.
  assert (Ht : truthy (JString (lit "```" ++ lang ++ [LF] ++ body ++ [LF]
                                ++ lit "```")) = true) by reflexivity.
  rewrite Ht. cbn [negb js_String]. f_equal.
  unfold render_text, render.
  fold (escapeHtml_text (lit "```" ++ lang ++ [LF] ++ body ++ [LF] ++ lit "```")).
  assert (Hesc : escapeHtml_text
                   (lit "```" ++ lang ++ [LF] ++ body ++ [LF] ++ lit "```")
                 = lit "```" ++ lang ++ [LF] ++ b ++ [LF] ++ lit "```").
  { rewrite !escape_app, (escape_same Hplain). reflexivity. }
  rewrite Hesc. unfold substitute.
  (* the fence pattern takes the whole text *)
  set (block := code_block idc idc idc lang (b ++ [LF])).
  assert (H1 : replace_matches (match_fence idc idc idc) 0
                 (lit "```" ++ lang ++ [LF] ++ b ++ [LF] ++ lit "```")
               = block).
  { assert (Hm : match_fence idc idc idc
                   (lit "```" ++ lang ++ [LF] ++ b ++ [LF] ++ lit "```")
                 = Some (block,
                         3 + List.length lang + 1 + List.length (b ++ [LF]) + 3)).
    { unfold match_fence.
      change (after_fence idc
                (lit "```" ++ lang ++ [LF] ++ b ++ [LF] ++ lit "```"))
        with (Some (lang ++ LF :: (b ++ [LF] ++ lit "```"))).
      cbv iota beta.
      rewrite (span_word _ Hword). cbv beta.
      rewrite (proj2 (N.eqb_eq LF LF) eq_refl).
      rewrite (app_assoc b [LF] (lit "```")).
      change ((b ++ [LF]) ++ lit "```")
        with ((b ++ [LF]) ++ BACKTICK :: BACKTICK :: BACKTICK :: []).
      rewrite until_fence_quiet; [reflexivity|].
      apply Forall_app. split.
      - eapply Forall_impl; [|exact Hb]. now intros c [H _].
      - constructor; [discriminate|constructor]. }
    change (lit "```" ++ lang ++ [LF] ++ b ++ [LF] ++ lit "```")
      with (BACKTICK :: (lit "``" ++ lang ++ [LF] ++ b ++ [LF] ++ lit "```")).
    cbn [replace_matches].
    change (BACKTICK :: (lit "``" ++ lang ++ [LF] ++ b ++ [LF] ++ lit "```"))
      with (lit "```" ++ lang ++ [LF] ++ b ++ [LF] ++ lit "```").
    rewrite Hm.
    replace (pred (3 + List.length lang + 1 + List.length (b ++ [LF]) + 3))
      with (List.length (lit "``" ++ lang ++ [LF] ++ b ++ [LF] ++ lit "```"))
      by (rewrite !length_app; simpl; lia).
    rewrite <- (app_nil_r (lit "``" ++ lang ++ [LF] ++ b ++ [LF] ++ lit "```"))
      at 2.
    rewrite replace_matches_skip. cbn [replace_matches]. apply app_nil_r. }
  rewrite H1.
  (* the block holds neither a backtick nor a line feed *)
  assert (Hblock : Forall quiet block).
  { unfold block, code_block. rewrite Htrim, Hdata.
    assert (Htb : Forall quiet (trim b)).
    { apply Forall_forall. intros c Hc.
      apply (@Trim_facts.trimBy_incl _ is_space) in Hc.
      rewrite Forall_forall in Hb. now apply Hb. }
    rewrite !markup_id.
    repeat (apply Forall_app; split);
      try exact Htb; try (now apply quiet_lit).
    destruct lang; [now apply quiet_lit|exact Hquiet]. }
  rewrite Forall_forall in Hblock.
  assert (H2 : replace_matches (match_inline idc idc) 0 block = block).
  { rewrite <- (app_nil_r block) at 1.
    rewrite replace_matches_none
      by (intros a r Ha; apply match_inline_none, (Hblock a Ha)).
    cbn [replace_matches]. apply app_nil_r. }
  rewrite H2. apply one_paragraph.
  apply Forall_forall. intros c Hc. apply (Hblock c Hc).
Qed.

Lemma one_line_fence_is_rendered_witness :
  renderMarkdown (JString (Samples.fenced "js" (lit " a<b ")))
  = Some (lit "<p>"
          ++ code_block idc idc idc (lit "js") (lit " a&lt;b " ++ [LF])
          ++ lit "</p>").
Proof.
  assert (Hl : forallb is_word (lit "js") = true) by reflexivity.
  assert (Hb : Forall (fun c => c <> BACKTICK /\ c <> LF) (lit " a<b ")).
  { vm_compute. repeat constructor; discriminate. }
  destruct (@one_line_fence_is_rendered (lit "js") (lit " a<b ") Hl Hb)
    as [H _].
  exact H.
Defined.

End Render_more.

(* ------------------------------------------------------------------ *)
(** ** A chat message from the input box to its bubble *)
(* ------------------------------------------------------------------ *)

Module Chat_facts.

Import Json Relay Backend Webview Panel JS_facts Wire_facts.

Lemma chat_request_parses message :
  JSON_parse (Wire.chat_request message)
  = Some (JObject [(lit "message", JString message)]).
Proof.
  unfold JSON_parse, Wire.chat_request.
  change (lit "{" ++ quote (lit "message") ++ lit ":" ++ quote message ++ lit "}")
    with (123%N :: (quote (lit "message") ++ 58%N :: (quote message ++ [125%N]))).
  rewrite (@tokenize_emit LStart 123%N LStart TLBrace) by reflexivity.
  rewrite (@tokenize_quote (lit "message") _
             [TColon; TValue (JString message); TRBrace]).
  - reflexivity.
  - rewrite (@tokenize_emit LStart 58%N LStart TColon) by reflexivity.
    now rewrite (@tokenize_quote message [125%N] [TRBrace]).
Qed.

(** The request as the handler reads it. *)
Lemma chat_stream_of_request message apiKey generate :
  chat_stream (JSON_parse (Wire.chat_request message)) apiKey generate
  = if invalid_text 20000 (Some (JString message))
    then failure 400 "Invalid 'message'."
    else
      match apiKey with
      | Some (_ :: _) =>
          let prompt := chat_prompt stream_sys message in
          match generate prompt with
          | Some raw =>
              {| model_calls := [prompt];
                 response := Ndjson
                   (List.map delta_record
                      (pieces (List.length (trim raw)) (trim raw))
                    ++ [done_record (trim raw)]) |}
          | None => model_error [prompt]
          end
      | _ => failure 500 "Server missing GEMINI_API_KEY."
      end.
Proof.
  rewrite chat_request_parses. unfold chat_stream.
  change (get_prop (body_or_empty (Some (JObject
            [(lit "message", JString message)]))) (lit "message"))
    with (Some (JString message)).
  destruct (invalid_text 20000 (Some (JString message))); [reflexivity|].
  destruct apiKey as [[|k ks]|]; reflexivity.
Qed.

(** X25.  A chat message from end to end.  The text sent from the input
    box goes to [/v1/chat-stream] and the body of the reply comes back in
    chunks.  When the backend streams, the placeholder of the message ends
    up showing the rendering of the model's trimmed answer (or keeps its
    ellipsis when that answer is empty) and the message is no longer
    pending.  When the backend answers with an error object, nothing is
    posted: the placeholder keeps its ellipsis and the message stays
    pending.  A text of more than 20000 code units is always refused. *)
Theorem chat_round_trip
  (w : webview) (val : jstring) (apiKey : option jstring)
  (generate : jstring -> option jstring) (chunks : list jstring) :
  JsMap.wf (pending w) ->
  str_truthy val = true ->
  let id := fresh_id (counter w + 1) in
  let ix := S (List.length (chat w)) in
  let w1 := fst (handleSend val w) in
  let out := chat_stream (JSON_parse (Wire.chat_request val)) apiKey generate in
  let w2 := deliver w1 (streamChatToWebview (Some id) chunks) in
  snd (handleSend val w) = Some (id, val)
  /\ (forall writes,
        response out = Ndjson writes ->
        List.concat chunks = List.concat writes ->
        exists raw,
          generate (chat_prompt stream_sys val) = Some raw
          /\ nth_error (chat w2) ix
             = Some {| role := lit "ai";
                       body := if str_truthy (trim raw)
                               then Html (render_text (trim raw))
                               else Text [ELLIPSIS] |}
          /\ pending_bubble (Some id) w2 = None)
  /\ (forall status msg,
        response out
        = JsonReply status
            (JObject [(lit "ok", JBool false); (lit "error", JString msg)]) ->
        List.concat chunks = Wire.error_body msg ->
        w2 = w1
        /\ nth_error (chat w2) ix
           = Some {| role := lit "ai"; body := Text [ELLIPSIS] |}
        /\ pending_bubble (Some id) w2 = Some ix)
  /\ ((20000 < N.of_nat (List.length val))%N ->
      out = failure 400 "Invalid 'message'.").
Proof.
  intros Hwf Hval id ix w1 out w2.
  destruct (@Panel_more.sent_placeholder w val Hwf Hval)
    as (Hsend & Hp1 & Hb1 & Hwf1).
  fold id ix w1 in Hsend, Hp1, Hb1, Hwf1.
  split; [exact Hsend|]. split; [|split].
  - intros writes Hresp Hchunks.
    unfold out in Hresp. rewrite chat_stream_of_request in Hresp.
    destruct (invalid_text 20000 _); [discriminate|].
    destruct apiKey as [[|k ks]|]; try discriminate.
    cbv zeta in Hresp.
    destruct (generate (chat_prompt stream_sys val)) as [raw|];
      [|discriminate].
    cbn [response] in Hresp. injection Hresp as <-.
    exists raw. split; [reflexivity|].
    assert (Hrel : streamChatToWebview (Some id) chunks
                   = Wire.streamed (Some id) (trim raw)).
    { apply Wire_more.relay_of_records. rewrite Hchunks. f_equal. f_equal.
      - apply map_ext. intros p. apply Wire_more.delta_record_line.
      - f_equal. apply Wire_more.done_record_line. }
    unfold w2. rewrite Hrel. unfold Wire.streamed. rewrite Panel_facts.deliver_app.
    destruct (@Panel_facts.deliver_fragments (Some id)
                (pieces (List.length (trim raw)) (trim raw)) w1 ix
                (lit "ai") [ELLIPSIS] Hp1 Hb1) as [Hp2 Hb2].
    set (wd := deliver w1
                 (List.map (fun p => AiDelta (Some id) (JString p))
                    (pieces (List.length (trim raw)) (trim raw)))) in *.
    assert (Hwf2 : JsMap.wf (pending wd))
      by (apply Panel_facts.deliver_wf; exact Hwf1).
    destruct (@Panel_more.done_into_bubble (Some id) wd ix (lit "ai") _
                (trim raw) Hwf2 Hp2 Hb2) as [Hb3 Hp3].
    cbn [deliver fold_left on_message].
    split; [|exact Hp3].
    rewrite Hb3. destruct (trim raw) eqn:Et; [|reflexivity].
    reflexivity.
  - intros status msg _ Hchunks.
    assert (Hrel : streamChatToWebview (Some id) chunks = [])
      by (now apply (@Wire_more.relay_of_error (Some id) msg)).
    unfold w2. rewrite Hrel. cbn [deliver fold_left].
    split; [reflexivity|]. split; [exact Hb1|exact Hp1].
  - intros Hlong. unfold out. rewrite chat_stream_of_request.
    rewrite Backend_facts.invalid_text_string.
    apply N.ltb_lt in Hlong. now rewrite Hlong, orb_true_r.
Qed.

Lemma chat_round_trip_witness :
  nth_error
    (chat (deliver (fst (handleSend (lit "hi") initial))
             (streamChatToWebview (Some (lit "m1"))
                [Wire.delta_line (lit "**A closure** keeps its scope.");
                 [LF];
                 Wire.done_line (lit "**A closure** keeps its scope.") ++ [LF]])))
    2
  = Some {| role := lit "ai";
            body := Html (render_text (lit "**A closure** keeps its scope.")) |}.
Proof.
  assert (Hwf : JsMap.wf (pending initial)) by constructor.
  destruct (@chat_round_trip initial (lit "hi") Samples.api_key
              Samples.canned_model
              [Wire.delta_line (lit "**A closure** keeps its scope.");
               [LF];
               Wire.done_line (lit "**A closure** keeps its scope.") ++ [LF]]
              Hwf eq_refl) as (_ & Hyes & _).
  destruct (Hyes [delta_record (lit "**A closure** keeps its scope.");
                  done_record (lit "**A closure** keeps its scope.")])
    as (raw & Hraw & Hb & _).
  - rewrite chat_stream_of_request. reflexivity.
  - vm_compute. reflexivity.
  - injection Hraw as <-. exact Hb.
Defined.

End Chat_facts.

(* ------------------------------------------------------------------ *)
(** ** The renderer of the first version *)
(* ------------------------------------------------------------------ *)

Module Legacy_facts.

Import Json Webview Legacy.

Section Naturality.

Variables A B : Type.
Variable codeA : A -> char.
Variables entA mkA : char -> A.
Variable codeB : B -> char.
Variables entB mkB : char -> B.
Variable h : A -> B.

Hypothesis h_code : forall a, codeB (h a) = codeA a.
Hypothesis h_ent : forall c, h (entA c) = entB c.
Hypothesis h_mk : forall c, h (mkA c) = mkB c.

Lemma escape_map s :
  List.map h (escape codeA entA s) = escape codeB entB (List.map h s).
Proof.
  unfold escape.
  rewrite !(Webview_facts.replace_char_map codeA codeB h h_code).
  now rewrite !(Webview_facts.entity_map entA entB h h_ent).
Qed.

Lemma after_stars_map s :
  after_stars codeB (List.map h s) = option_map (List.map h) (after_stars codeA s).
Proof.
  destruct s as [|a [|b r]]; try reflexivity.
  cbn [after_stars List.map]. rewrite !h_code.
  destruct (N.eqb (codeA a) 42 && N.eqb (codeA b) 42)%bool; reflexivity.
Qed.

Lemma until_stars_map s :
  until_stars codeB (List.map h s) = option_map (List.map h) (until_stars codeA s).
Proof.
  induction s as [|a s IH]; [reflexivity|].
  cbn [until_stars List.map].
  change (h a :: List.map h s) with (List.map h (a :: s)).
  rewrite after_stars_map.
  destruct (after_stars codeA (a :: s)); [reflexivity|].
  cbn [option_map]. rewrite h_code, IH.
  destruct (is_line_terminator (codeA a)); [reflexivity|].
  destruct (until_stars codeA s); reflexivity.
Qed.

Lemma match_block_map s :
  match_block codeB mkB (List.map h s)
  = Webview_facts.map_match h (match_block codeA mkA s).
Proof.
  unfold match_block.
  rewrite (Webview_facts.after_fence_map codeA codeB h h_code).
  destruct (after_fence codeA s) as [s1|]; [|reflexivity].
  cbn [option_map].
  rewrite (Webview_facts.until_fence_map codeA codeB h h_code).
  destruct (until_fence codeA s1) as [body|]; [|reflexivity].
  cbn [option_map Webview_facts.map_match].
  rewrite !map_app, !(Webview_facts.markup_map mkA mkB h h_mk).
  now rewrite length_map.
Qed.

Lemma match_bold_map s :
  match_bold codeB mkB (List.map h s)
  = Webview_facts.map_match h (match_bold codeA mkA s).
Proof.
  unfold match_bold. rewrite after_stars_map.
  destruct (after_stars codeA s) as [s1|]; [|reflexivity].
  cbn [option_map]. rewrite until_stars_map.
  destruct (until_stars codeA s1) as [body|]; [|reflexivity].
  cbn [option_map Webview_facts.map_match].
  rewrite !map_app, !(Webview_facts.markup_map mkA mkB h h_mk).
  now rewrite length_map.
Qed.

Lemma renderMarkdownToHtml_map s :
  List.map h (renderMarkdownToHtml codeA entA mkA s)
  = renderMarkdownToHtml codeB entB mkB (List.map h s).
Proof.
  unfold renderMarkdownToHtml, page_body.
  rewrite !map_app, !(Webview_facts.markup_map mkA mkB h h_mk).
  rewrite (Webview_facts.replace_char_map codeA codeB h h_code).
  rewrite (Webview_facts.markup_map mkA mkB h h_mk).
  rewrite (@Webview_facts.replace_matches_map A B h (match_bold codeA mkA)
             (match_bold codeB mkB) match_bold_map).
  rewrite (@Webview_facts.replace_matches_map A B h (match_block codeA mkA)
             (match_block codeB mkB) match_block_map).
  now rewrite escape_map.
Qed.

End Naturality.

Section Provenance.

(** Reads the replacement out of the result of a pattern, without
    unfolding it. *)
Ltac replacement_of E :=
  apply (f_equal (fun o : option (list _ * nat) =>
                    match o with Some (r, _) => r | None => nil end)) in E;
  cbv beta iota in E; rewrite <- E; clear E.

Variable A : Type.
Variable code : A -> char.
Variables ent mk : char -> A.
Variable P : A -> Prop.

Hypothesis P_mk : forall c, P (mk c).

Lemma after_stars_ok s r :
  Forall P s -> after_stars code s = Some r -> Forall P r.
Proof.
  intros H. destruct s as [|a [|b s]]; try discriminate.
  cbn [after_stars]. destruct (_ && _)%bool; [|discriminate].
  intros E. injection E as <-.
  inversion H as [|? ? _ H1]; subst. now inversion H1.
Qed.

Lemma until_stars_ok s : forall body,
  Forall P s -> until_stars code s = Some body -> Forall P body.
Proof.
  induction s as [|a s IH]; intros body H; [discriminate|].
  cbn [until_stars].
  destruct (after_stars code (a :: s));
    [intros E; injection E as <-; constructor|].
  destruct (is_line_terminator (code a)); [discriminate|].
  inversion H as [|? ? Ha Hs]; subst.
  destruct (until_stars code s) as [b|]; [|discriminate].
  intros E. injection E as <-. constructor; [exact Ha|now apply IH].
Qed.

Lemma match_block_ok s repl n :
  Forall P s -> match_block code mk s = Some (repl, n) -> Forall P repl.
Proof.
  intros H. unfold match_block.
  destruct (after_fence code s) as [s1|] eqn:E1; [|discriminate].
  pose proof (@Webview_facts.after_fence_ok A code P s s1 H E1) as H1.
  destruct (until_fence code s1) as [body|] eqn:E2; [|discriminate].
  pose proof (@Webview_facts.until_fence_ok A code P s1 body H1 E2) as H2.
  intros E. replacement_of E.
  apply Forall_app; split; [now apply Webview_facts.markup_ok|].
  apply Forall_app; split; [exact H2|now apply Webview_facts.markup_ok].
Qed.

Lemma match_bold_ok s repl n :
  Forall P s -> match_bold code mk s = Some (repl, n) -> Forall P repl.
Proof.
  intros H. unfold match_bold.
  destruct (after_stars code s) as [s1|] eqn:E1; [|discriminate].
  pose proof (@after_stars_ok s s1 H E1) as H1.
  destruct (until_stars code s1) as [body|] eqn:E2; [|discriminate].
  pose proof (@until_stars_ok s1 body H1 E2) as H2.
  intros E. replacement_of E.
  apply Forall_app; split; [now apply Webview_facts.markup_ok|].
  apply Forall_app; split; [exact H2|now apply Webview_facts.markup_ok].
Qed.

Lemma page_ok md :
  Forall P (escape code ent md) ->
  Forall P (renderMarkdownToHtml code ent mk md).
Proof.
  intros H. unfold renderMarkdownToHtml, page_body.
  apply Forall_app; split; [now apply Webview_facts.markup_ok|].
  apply Forall_app; split; [|now apply Webview_facts.markup_ok].
  apply Webview_facts.replace_char_ok; [now apply Webview_facts.markup_ok|].
  apply Webview_facts.replace_matches_ok; [exact match_bold_ok|].
  apply Webview_facts.replace_matches_ok; [exact match_block_ok|].
  exact H.
Qed.

(** A replacement of one character, seen from what holds before it. *)
Lemma replace_char_refine (Q : A -> Prop) c repl s :
  Forall Q s ->
  (forall a, Q a -> N.eqb (code a) c = false -> P a) ->
  Forall P repl ->
  Forall P (replace_char code c repl s).
Proof.
  intros Hs Hstep Hrepl. unfold replace_char.
  induction Hs as [|a s Ha _ IH]; [constructor|].
  cbn [flat_map]. apply Forall_app. split; [|exact IH].
  destruct (N.eqb (code a) c) eqn:E; [exact Hrepl|].
  constructor; [now apply Hstep|constructor].
Qed.

End Provenance.

Lemma entity_marks (s : string) (P : marked -> Prop) :
  (forall c, In c (lit s) -> P (c, Entity)) ->
  Forall P (entity (fun c => (c, Entity)) s).
Proof.
  intros H. unfold entity. apply Forall_forall. intros a Ha.
  apply in_map_iff in Ha as (c & <- & Hc). now apply H.
Qed.

Lemma escaped_inert (md : jstring) :
  Forall inert (escape fst (fun c => (c, Entity)) (from_input md)).
Proof.
  unfold escape.
  set (Q0 := fun a : marked => snd a = Input).
  set (Q1 := fun a : marked =>
               (snd a = Input /\ N.eqb (fst a) 38 = false)
               \/ (snd a = Entity
                   /\ (N.eqb (fst a) 60 || N.eqb (fst a) 62)%bool = false)).
  set (Q2 := fun a : marked =>
               (snd a = Input /\ N.eqb (fst a) 38 = false
                /\ N.eqb (fst a) 60 = false)
               \/ (snd a = Entity
                   /\ (N.eqb (fst a) 60 || N.eqb (fst a) 62)%bool = false)).
  assert (Hent : forall s (Q : marked -> Prop),
            forallb (fun c => negb (N.eqb c 60 || N.eqb c 62)) (lit s) = true ->
            (forall a, snd a = Entity ->
                       (N.eqb (fst a) 60 || N.eqb (fst a) 62)%bool = false ->
                       Q a) ->
            Forall Q (entity (fun c => (c, Entity)) s)).
  { intros s Q Hs HQ. apply entity_marks. intros c Hc.
    rewrite forallb_forall in Hs. apply HQ; [reflexivity|].
    apply negb_true_iff. now apply Hs. }
  apply (@replace_char_refine marked fst inert Q2).
  - apply (@replace_char_refine marked fst Q2 Q1).
    + apply (@replace_char_refine marked fst Q1 Q0).
      * unfold from_input. apply Forall_forall. intros a Ha.
        apply in_map_iff in Ha as (c & <- & _). reflexivity.
      * intros a Ha E. left. now split.
      * apply Hent; [reflexivity|]. intros a Ha E. right. now split.
    + intros a [[Hi H38]|He] E; [left; now repeat split|now right].
    + apply Hent; [reflexivity|]. intros a Ha E. right. now split.
  - intros [c m] [(Hi & H38 & H60)|(He & Hs)] E; cbn [fst snd] in *; subst m;
      unfold inert, is_tag_char; cbn [fst snd].
    + now rewrite H38, H60, E.
    + exact Hs.
  - apply Hent; [reflexivity|]. intros [c m] Ha E. cbn [fst snd] in *. subst m.
    exact E.
Qed.

(** X26.  The page [renderMarkdownToHtml] of the compiled first version
    builds for a text.  Run on a text whose characters are marked, the
    renderer gives the same page, and in it no [<], [>] or [&] is a
    character of the text: each of them was written by the renderer, as
    markup or inside an entity, and no entity holds an angle bracket.  So
    the text cannot open or close a tag of the page. *)
Theorem legacy_page_is_inert (md : jstring) :
  erase (render_marked md) = render_text md
  /\ Forall inert (render_marked md).
Proof.
  split.
  - unfold erase, render_marked, render_text.
    rewrite (@renderMarkdownToHtml_map marked char fst
               (fun c => (c, Entity)) (fun c => (c, Markup))
               (fun c => c) (fun c => c) (fun c => c) fst)
      by reflexivity.
    f_equal. apply Webview_facts.erase_from_input.
  - unfold render_marked. apply page_ok.
    + intros c. exact I.
    + apply escaped_inert.
Qed.

End Legacy_facts.
